(** * Netfilter: the sentry's iptables codec

    A shallow embedding of [pkg/sentry/socket/netfilter/netfilter.go]:
    the encoder [convertNetstackToBinary], the decoder [SetEntries] with
    its helpers [parseMatchers], [parseTarget] and [filterFromIPTIP], and
    the verdict codec.

    Conventions.
    - A Go [uintN] is a [Z] in [0, 2^N); every arithmetic operation that
      can leave that range is followed by its wrap-around ([wrap16],
      [wrap32]).  [int32] is a [Z] in [-2^31, 2^31).
    - A [[]byte] is a [list byte].  Slice expressions are partial: an
      expression outside the bounds of the slice is a Go run-time panic,
      which the embedding keeps as the outcome [Panic].
    - A function returning [(T, error)] returns [Result error T]; one
      returning [*syserr.Error] returns [Result syserr unit].
    - Go maps are [gmap]s; [range] over a map is [map_to_list], whose
      order the proofs never look at.
    - Calls to [nflog] only write to the log and are left out. *)

From Stdlib Require Import ZArith List Lia String.
From Stdlib.Strings Require Import Byte.
From stdpp Require Import base gmap strings list fin_maps.

Local Open Scope Z_scope.

(** ** Outcomes of a Go call *)

Inductive Result (E A : Type) : Type :=
| Ok (a : A)
| Err (e : E)
| Panic.
Arguments Ok {E A} a.
Arguments Err {E A} e.
Arguments Panic {E A}.

Definition bind {E A B} (r : Result E A) (k : A -> Result E B) : Result E B :=
  match r with
  | Ok a => k a
  | Err e => Err e
  | Panic => Panic
  end.

Notation "'let*' x ':=' e 'in' k" := (bind e (fun x => k))
  (at level 10, x pattern, e at level 100, k at level 200).

(** A Go function without an error result either returns or panics. *)
Definition orPanic {E A} (o : option A) : Result E A :=
  match o with
  | Some a => Ok a
  | None => Panic
  end.

(** [foldM f l s] runs a loop body over [l], threading the loop's
    variables [s]; the first [return] or panic leaves the loop. *)
Fixpoint foldM {E A S} (f : S -> A -> Result E S) (l : list A) (s : S)
  : Result E S :=
  match l with
  | [] => Ok s
  | a :: rest => let* s' := f s a in foldM f rest s'
  end.

(** [range] over a slice yields the index with the element. *)
Definition indexed {A} (l : list A) : list (Z * A) :=
  zip (map Z.of_nat (seq 0 (length l))) l.

(** [err != nil]: the callers in [SetEntries] log the inner error and
    return their own. *)
Definition mapErr {E F A} (f : E -> F) (r : Result E A) : Result F A :=
  match r with
  | Ok a => Ok a
  | Err e => Err (f e)
  | Panic => Panic
  end.

(** ** Machine integers and byte slices *)

Definition wrap8 (z : Z) : Z := z mod 2 ^ 8.
Definition wrap16 (z : Z) : Z := z mod 2 ^ 16.
Definition wrap32 (z : Z) : Z := z mod 2 ^ 32.
Definition wrap64 (z : Z) : Z := z mod 2 ^ 64.

(** Conversion [int32(x)] of an unsigned 32-bit pattern. *)
Definition to_int32 (z : Z) : Z :=
  let u := wrap32 z in if u <? 2 ^ 31 then u else u - 2 ^ 32.

Definition len {A} (s : list A) : Z := Z.of_nat (length s).

(** [s[:hi]], [s[lo:]] and [s[lo:hi]]. *)
Definition slice_to {E A} (s : list A) (hi : Z) : Result E (list A) :=
  if (0 <=? hi) && (hi <=? len s) then Ok (take (Z.to_nat hi) s) else Panic.

Definition slice_from {E A} (s : list A) (lo : Z) : Result E (list A) :=
  if (0 <=? lo) && (lo <=? len s) then Ok (drop (Z.to_nat lo) s) else Panic.

Definition slice {E A} (s : list A) (lo hi : Z) : Result E (list A) :=
  if (0 <=? lo) && (lo <=? hi) && (hi <=? len s)
  then Ok (take (Z.to_nat (hi - lo)) (drop (Z.to_nat lo) s))
  else Panic.

(** [a[i]] and [a[i] = v] on a fixed-size array. *)
Definition array_get {E} (a : list Z) (i : Z) : Result E Z :=
  if (0 <=? i) && (i <? len a)
  then match a !! Z.to_nat i with Some v => Ok v | None => Panic end
  else Panic.

Definition array_set {E} (a : list Z) (i : Z) (v : Z) : Result E (list Z) :=
  if (0 <=? i) && (i <? len a) then Ok (<[Z.to_nat i := v]> a) else Panic.

Definition byte_val (b : byte) : Z := Z.of_N (Byte.to_N b).

Global Instance byte_eq_dec : EqDecision byte.
Proof.
  intros x y. destruct (decide (Byte.to_N x = Byte.to_N y)) as [H | H].
  - left. apply (f_equal Byte.of_N) in H. rewrite !Byte.of_to_N in H.
    congruence.
  - right. congruence.
Defined.

Definition byte_of_Z (z : Z) : byte :=
  match Byte.of_N (Z.to_N (wrap8 z)) with
  | Some b => b
  | None => x00
  end.

(** [usermem.ByteOrder] is little endian. *)
Fixpoint le_decode (bs : list byte) : Z :=
  match bs with
  | [] => 0
  | b :: rest => byte_val b + 256 * le_decode rest
  end.

Fixpoint le_encode (n : nat) (z : Z) : list byte :=
  match n with
  | O => []
  | S n' => byte_of_Z z :: le_encode n' (z / 256)
  end.

(** The [n] bytes of [buf] starting at [off]. *)
Definition field (off n : nat) (buf : list byte) : list byte :=
  take n (drop off buf).

Definition zeros (n : nat) : list byte := replicate n x00.

(** [copy(dst[:], src)] into a zeroed array of [n] bytes. *)
Definition copy_into (n : nat) (src : list byte) : list byte :=
  take n src ++ zeros (n - length src).

(** [goString], behind every [String()] method of the ABI's fixed-size
    name arrays: the bytes before the first NUL. *)
Fixpoint goString (cstring : list byte) : list byte :=
  match cstring with
  | [] => []
  | c :: rest => if Byte.eqb c x00 then [] else c :: goString rest
  end.

Definition name_String (name : list byte) : string :=
  string_of_list_byte (goString name).

(** ** The ABI: [pkg/abi/linux] *)

Module linux.

(** Modelled from the spec: the declarations of [pkg/abi/linux]
    (constants, record shapes, sizes) are not among the sources.  Section
    4.1 fixes them as the record shapes of the legacy ABI, which is the
    Linux x_tables user API; the values below are that ABI's. *)
Definition NF_DROP : Z := 0.
Definition NF_ACCEPT : Z := 1.
Definition NF_STOLEN : Z := 2.
Definition NF_QUEUE : Z := 3.
Definition NF_REPEAT : Z := 4.
Definition NF_RETURN : Z := - NF_REPEAT - 1.

Definition NF_INET_PRE_ROUTING : Z := 0.
Definition NF_INET_LOCAL_IN : Z := 1.
Definition NF_INET_FORWARD : Z := 2.
Definition NF_INET_LOCAL_OUT : Z := 3.
Definition NF_INET_POST_ROUTING : Z := 4.
Definition NF_INET_NUMHOOKS : nat := 5.

Definition IFNAMSIZ : nat := 16.
Definition XT_TABLE_MAXNAMELEN : nat := 32.
Definition XT_EXTENSION_MAXNAMELEN : nat := 29.
Definition XT_FUNCTION_MAXNAMELEN : nat := 30.

Definition SizeOfIPTIP : Z := 84.
Definition SizeOfIPTEntry : Z := 112.
Definition SizeOfIPTReplace : Z := 96.
Definition SizeOfXTEntryMatch : Z := 32.
Definition SizeOfXTEntryTarget : Z := 32.
Definition SizeOfXTStandardTarget : Z := 40.
Definition SizeOfXTErrorTarget : Z := 64.

(** [struct ipt_ip]. *)
Record IPTIP : Type := {
  Src : list byte;
  Dst : list byte;
  SrcMask : list byte;
  DstMask : list byte;
  InputInterface : list byte;
  OutputInterface : list byte;
  InputInterfaceMask : list byte;
  OutputInterfaceMask : list byte;
  Protocol : Z;
  Flags : Z;
  InverseFlags : Z
}.

(** [struct ipt_entry], without its trailing elements. *)
Record IPTEntry : Type := {
  IP : IPTIP;
  NFCache : Z;
  TargetOffset : Z;
  NextOffset : Z;
  Comeback : Z;
  Pcnt : Z;
  Bcnt : Z
}.

(** [KernelIPTEntry]: an entry with its matchers and target. *)
Record KernelIPTEntry : Type := {
  Entry : IPTEntry;
  Elems : list byte
}.

(** [KernelIPTGetEntries]. *)
Record KernelIPTGetEntries : Type := {
  GetEntries_Name : list byte;
  GetEntries_Size : Z;
  Entrytable : list KernelIPTEntry
}.

(** [struct ipt_replace], without its trailing entries. *)
Record IPTReplace : Type := {
  Replace_Name : list byte;
  Replace_ValidHooks : Z;
  Replace_NumEntries : Z;
  Replace_Size : Z;
  Replace_HookEntry : list Z;
  Replace_Underflow : list Z;
  Replace_NumCounters : Z;
  Replace_Counters : Z
}.

(** [struct xt_entry_match]. *)
Record XTEntryMatch : Type := {
  MatchSize : Z;
  Match_Name : list byte;
  Match_Revision : Z
}.

(** [struct xt_entry_target]. *)
Record XTEntryTarget : Type := {
  TargetSize : Z;
  Target_Name : list byte;
  Target_Revision : Z
}.

(** [struct xt_standard_target]; four bytes of padding follow the
    verdict. *)
Record XTStandardTarget : Type := {
  Standard_Target : XTEntryTarget;
  Standard_Verdict : Z
}.

(** [struct xt_error_target]; two bytes of padding follow the name. *)
Record XTErrorTarget : Type := {
  Error_Target : XTEntryTarget;
  Error_Name : list byte
}.

End linux.

(** ** [binary.Unmarshal] and [binary.Marshal] at the ABI's records

    [binary.Unmarshal] reads the fields in declaration order from the
    buffer and panics when the buffer ends early. *)

Module binary.
Import linux.

Definition u8 (off : nat) (buf : list byte) : Z := le_decode (field off 1 buf).
Definition u16 (off : nat) (buf : list byte) : Z := le_decode (field off 2 buf).
Definition u32 (off : nat) (buf : list byte) : Z := le_decode (field off 4 buf).
Definition u64 (off : nat) (buf : list byte) : Z := le_decode (field off 8 buf).

Definition u32s (off n : nat) (buf : list byte) : list Z :=
  map (fun i => u32 (off + 4 * i) buf) (seq 0 n).

Definition decodeIPTIP (buf : list byte) : IPTIP :=
  {| Src := field 0 4 buf;
     Dst := field 4 4 buf;
     SrcMask := field 8 4 buf;
     DstMask := field 12 4 buf;
     InputInterface := field 16 IFNAMSIZ buf;
     OutputInterface := field 32 IFNAMSIZ buf;
     InputInterfaceMask := field 48 IFNAMSIZ buf;
     OutputInterfaceMask := field 64 IFNAMSIZ buf;
     Protocol := u16 80 buf;
     Flags := u8 82 buf;
     InverseFlags := u8 83 buf |}.

Definition decodeIPTEntry (buf : list byte) : IPTEntry :=
  {| IP := decodeIPTIP buf;
     NFCache := u32 84 buf;
     TargetOffset := u16 88 buf;
     NextOffset := u16 90 buf;
     Comeback := u32 92 buf;
     Pcnt := u64 96 buf;
     Bcnt := u64 104 buf |}.

Definition UnmarshalIPTEntry {E} (buf : list byte) : Result E IPTEntry :=
  if len buf <? SizeOfIPTEntry then Panic
  else Ok (decodeIPTEntry buf).

Definition decodeIPTReplace (buf : list byte) : IPTReplace :=
  {| Replace_Name := field 0 XT_TABLE_MAXNAMELEN buf;
     Replace_ValidHooks := u32 32 buf;
     Replace_NumEntries := u32 36 buf;
     Replace_Size := u32 40 buf;
     Replace_HookEntry := u32s 44 NF_INET_NUMHOOKS buf;
     Replace_Underflow := u32s 64 NF_INET_NUMHOOKS buf;
     Replace_NumCounters := u32 84 buf;
     Replace_Counters := u64 88 buf |}.

Definition UnmarshalIPTReplace {E} (buf : list byte) : Result E IPTReplace :=
  if len buf <? SizeOfIPTReplace then Panic
  else Ok (decodeIPTReplace buf).

Definition decodeXTEntryMatch (buf : list byte) : XTEntryMatch :=
  {| MatchSize := u16 0 buf;
     Match_Name := field 2 XT_EXTENSION_MAXNAMELEN buf;
     Match_Revision := u8 31 buf |}.

Definition UnmarshalXTEntryMatch {E} (buf : list byte) : Result E XTEntryMatch :=
  if len buf <? SizeOfXTEntryMatch then Panic
  else Ok (decodeXTEntryMatch buf).

Definition decodeXTEntryTarget (buf : list byte) : XTEntryTarget :=
  {| TargetSize := u16 0 buf;
     Target_Name := field 2 XT_EXTENSION_MAXNAMELEN buf;
     Target_Revision := u8 31 buf |}.

Definition UnmarshalXTEntryTarget {E} (buf : list byte) : Result E XTEntryTarget :=
  if len buf <? SizeOfXTEntryTarget then Panic
  else Ok (decodeXTEntryTarget buf).

Definition UnmarshalXTStandardTarget {E} (buf : list byte)
  : Result E XTStandardTarget :=
  if len buf <? SizeOfXTStandardTarget then Panic
  else Ok {| Standard_Target := decodeXTEntryTarget buf;
             Standard_Verdict := to_int32 (u32 32 buf) |}.

Definition UnmarshalXTErrorTarget {E} (buf : list byte) : Result E XTErrorTarget :=
  if len buf <? SizeOfXTErrorTarget then Panic
  else Ok {| Error_Target := decodeXTEntryTarget buf;
             Error_Name := field 32 XT_FUNCTION_MAXNAMELEN buf |}.

Definition encodeXTEntryTarget (t : XTEntryTarget) : list byte :=
  le_encode 2 (TargetSize t)
  ++ copy_into XT_EXTENSION_MAXNAMELEN (Target_Name t)
  ++ le_encode 1 (Target_Revision t).

Definition MarshalXTStandardTarget (t : XTStandardTarget) : list byte :=
  encodeXTEntryTarget (Standard_Target t) ++ le_encode 4 (Standard_Verdict t) ++ zeros 4.

Definition MarshalXTErrorTarget (t : XTErrorTarget) : list byte :=
  encodeXTEntryTarget (Error_Target t)
  ++ copy_into XT_FUNCTION_MAXNAMELEN (Error_Name t) ++ zeros 2.

(** [binary.Size] of the entries handed back to the caller: the
    [IPTGetEntries] header (name, size, four bytes of padding) and every
    entry with its elements. *)
Definition SizeKernelIPTGetEntries (entries : KernelIPTGetEntries) : Z :=
  foldr (fun e acc => SizeOfIPTEntry + len (Elems e) + acc) 40
        (Entrytable entries).

End binary.

(** ** Errors *)

(** One constructor for each [error] the package builds. *)
Inductive error : Type :=
| ErrTableNotFound (tablename : string)
| ErrTableNameTooLong (tablename : string)
| ErrUnsupportedVerdictQUEUE
| ErrUnsupportedVerdictRETURN
| ErrUnknownIptablesVerdict (val : Z)
| ErrEntryMatchInsufficientSize (n : Z)
| ErrMatchSizeTooSmall
| ErrMatchInsufficientSize (n : Z)
| ErrCreateMatcher (cause : error)
| ErrNotExhausted
| ErrEntryTargetInsufficientSize (n : Z)
| ErrStandardTargetWrongSize (n : Z)
| ErrUnknownVerdict
| ErrErrorTargetWrongSize (n : Z)
| ErrUnknownErrorTarget (name : string)
| ErrUnknownTarget (name : string)
| ErrUnsupportedIPTIP
| ErrMatcher (msg : string).

(** [*syserr.Error]; the package returns [ErrInvalidArgument] only, the
    other values of the type are kept behind [ErrOther]. *)
Inductive syserr : Type :=
| ErrInvalidArgument
| ErrOther (errno : Z).

(** ** [metadata] *)

Record metadata : Type := {
  HookEntry : list Z;
  Underflow : list Z;
  NumEntries : Z;
  Size : Z
}.

(** The zero value [metadata{}]. *)
Definition metadata_zero : metadata :=
  {| HookEntry := replicate linux.NF_INET_NUMHOOKS 0;
     Underflow := replicate linux.NF_INET_NUMHOOKS 0;
     NumEntries := 0;
     Size := 0 |}.

Global Instance metadata_eq_dec : EqDecision metadata.
Proof. solve_decision. Defined.

(** ** The rule tables: [pkg/tcpip/iptables] and [pkg/tcpip/stack] *)

Module iptables.

(** Modelled from the spec: the package [pkg/tcpip/iptables] (hooks,
    verdicts, targets, rules, tables, the table factory and the hook mask)
    is not among the sources.  Section 3 gives the table its rules, its two
    hook maps, its hook mask and its metadata slot; a hook is an unsigned
    integer numbered as in the ABI, a hook without a rule holds the
    sentinel [HookUnset]. *)
Abbreviation Hook := N (only parsing).
Definition Prerouting : Hook := 0%N.
Definition Input : Hook := 1%N.
Definition Forward : Hook := 2%N.
Definition Output : Hook := 3%N.
Definition Postrouting : Hook := 4%N.

Definition HookUnset : Z := -1.

Definition TablenameFilter : string := "filter".

(** The verdicts the package names; [OtherVerdict] stands for the
    remaining values of the integer type. *)
Inductive Verdict : Type :=
| Invalid
| Accept
| Drop
| Queue
| Return
| Jump
| OtherVerdict (v : Z).

(** The implementations of the [Target] interface; [OtherTarget] stands
    for one the codec does not know. *)
Inductive Target : Type :=
| UnconditionalAcceptTarget
| UnconditionalDropTarget
| ErrorTarget
| OtherTarget (kind : string).

Record IPHeaderFilter : Type := {
  Filter_Protocol : Z
}.

Record Rule (Matcher : Type) : Type := {
  Filter : IPHeaderFilter;
  Matchers : list Matcher;
  Rule_Target : Target
}.
Arguments Filter {Matcher} _.
Arguments Matchers {Matcher} _.
Arguments Rule_Target {Matcher} _.

(** [Table_metadata] is the table's [interface{}] slot: [None] when it
    does not hold a [metadata]. *)
Record Table (Matcher : Type) : Type := {
  Rules : list (Rule Matcher);
  BuiltinChains : gmap N Z;
  Underflows : gmap N Z;
  UserChains : gmap string Z;
  Table_metadata : option metadata
}.
Arguments Rules {Matcher} _.
Arguments BuiltinChains {Matcher} _.
Arguments Underflows {Matcher} _.
Arguments UserChains {Matcher} _.
Arguments Table_metadata {Matcher} _.

(** Modelled from the spec: [EmptyFilterTable], the factory of the filter
    table: no rule, and the filter table's built-in chains (input,
    forward, output) all unset. *)
Definition EmptyFilterTable {Matcher} : Table Matcher :=
  {| Rules := [];
     BuiltinChains :=
       <[Input := HookUnset]> (<[Forward := HookUnset]> (<[Output := HookUnset]> ∅));
     Underflows :=
       <[Input := HookUnset]> (<[Forward := HookUnset]> (<[Output := HookUnset]> ∅));
     UserChains := ∅;
     Table_metadata := None |}.

(** Modelled from the spec: [ValidHooks], the bitmask of the hooks the
    table supports, one bit for each built-in chain. *)
Definition ValidHooks {Matcher} (table : Table Matcher) : Z :=
  foldr (fun '(hook, _) hooks => Z.lor hooks (Z.shiftl 1 (Z.of_N hook)))
        0 (map_to_list (BuiltinChains table)).

Definition SetMetadata {Matcher} (table : Table Matcher) (m : metadata)
  : Table Matcher :=
  {| Rules := Rules table;
     BuiltinChains := BuiltinChains table;
     Underflows := Underflows table;
     UserChains := UserChains table;
     Table_metadata := Some m |}.

(** [IPTables]: the tables by name. *)
Record IPTables (Matcher : Type) : Type := {
  Tables : gmap string (Table Matcher)
}.
Arguments Tables {Matcher} _.

End iptables.

Module stack.

(** Modelled from the spec: the stack's table store (section 6): get and
    set of the whole [IPTables] value. *)
Record Stack (Matcher : Type) : Type := {
  tables : iptables.IPTables Matcher
}.
Arguments tables {Matcher} _.

Definition IPTables {Matcher} (s : Stack Matcher) : iptables.IPTables Matcher :=
  tables s.

Definition SetIPTables {Matcher} (s : Stack Matcher)
  (ipt : iptables.IPTables Matcher) : Stack Matcher :=
  {| tables := ipt |}.

End stack.

(** ** The matcher extensions

    [marshalMatcher] and [unmarshalMatcher] dispatch on a registry of
    matcher kinds that lives outside this file; the codec is stated for any
    registry.  [marshalMatcher] returns the block or panics (unknown kind),
    [unmarshalMatcher] receives the extension header, the rule's filter and
    the block's payload. *)
Class MatchMakers : Type := {
  Matcher : Type;
  marshalMatcher : Matcher -> option (list byte);
  unmarshalMatcher :
    linux.XTEntryMatch -> iptables.IPHeaderFilter -> list byte ->
    Result error Matcher
}.

(** ** [netfilter.go] *)

Section Netfilter.
Context {MM : MatchMakers}.
Import linux iptables.

Local Abbreviation Rule := (iptables.Rule Matcher).
Local Abbreviation Table := (iptables.Table Matcher).
Local Abbreviation Stack := (stack.Stack Matcher).

Definition errorTargetName : string := "ERROR".

(** [m[k]]: the zero value when the key is absent. *)
Definition map_get (m : gmap N Z) (k : N) : Z := default 0 (m !! k).

(** *** Verdicts *)

Definition translateFromStandardVerdict (verdict : Verdict) : option Z :=
  match verdict with
  | Accept => Some (- NF_ACCEPT - 1)
  | Drop => Some (- NF_DROP - 1)
  | Queue => Some (- NF_QUEUE - 1)
  | Return => Some NF_RETURN
  | Jump => None
  | Invalid | OtherVerdict _ => None
  end.

(** On an error Go returns [iptables.Invalid] beside it; no caller reads
    it. *)
Definition translateToStandardVerdict (val : Z) : Result error Verdict :=
  if val =? - NF_ACCEPT - 1 then Ok Accept
  else if val =? - NF_DROP - 1 then Ok Drop
  else if val =? - NF_QUEUE - 1 then Err ErrUnsupportedVerdictQUEUE
  else if val =? NF_RETURN then Err ErrUnsupportedVerdictRETURN
  else Err (ErrUnknownIptablesVerdict val).

(** *** Encoding *)

Definition marshalStandardTarget (verdict : Verdict) : option (list byte) :=
  match translateFromStandardVerdict verdict with
  | Some v =>
      Some (binary.MarshalXTStandardTarget
              {| Standard_Target :=
                   {| TargetSize := SizeOfXTStandardTarget;
                      Target_Name := zeros XT_EXTENSION_MAXNAMELEN;
                      Target_Revision := 0 |};
                 Standard_Verdict := v |})
  | None => None
  end.

Definition marshalErrorTarget : list byte :=
  binary.MarshalXTErrorTarget
    {| Error_Target :=
         {| TargetSize := SizeOfXTErrorTarget;
            Target_Name :=
              copy_into XT_EXTENSION_MAXNAMELEN
                        (list_byte_of_string errorTargetName);
            Target_Revision := 0 |};
       Error_Name :=
         copy_into XT_FUNCTION_MAXNAMELEN
                   (list_byte_of_string errorTargetName) |}.

Definition marshalTarget (target : Target) : option (list byte) :=
  match target with
  | UnconditionalAcceptTarget => marshalStandardTarget Accept
  | UnconditionalDropTarget => marshalStandardTarget Drop
  | ErrorTarget => Some marshalErrorTarget
  | OtherTarget _ => None
  end.

(** [meta.HookEntry[hook] = entries.Size] for every hook of [chains]
    whose rule is [ruleIdx]. *)
Definition recordOffsets (chains : gmap N Z) (ruleIdx size : Z)
  (arr : list Z) : Result error (list Z) :=
  foldM (fun arr '(hook, hookRuleIdx) =>
           if hookRuleIdx =? ruleIdx
           then array_set arr (Z.of_N hook) size
           else Ok arr)
        (map_to_list chains) arr.

(** The entry a rule starts from: only the protocol is set, both offsets
    are the header's size. *)
Definition newEntry (rule : Rule) : KernelIPTEntry :=
  {| Entry :=
       {| IP := {| Src := zeros 4; Dst := zeros 4;
                   SrcMask := zeros 4; DstMask := zeros 4;
                   InputInterface := zeros IFNAMSIZ;
                   OutputInterface := zeros IFNAMSIZ;
                   InputInterfaceMask := zeros IFNAMSIZ;
                   OutputInterfaceMask := zeros IFNAMSIZ;
                   Protocol := wrap16 (Filter_Protocol (Filter rule));
                   Flags := 0; InverseFlags := 0 |};
          NFCache := 0;
          TargetOffset := SizeOfIPTEntry;
          NextOffset := SizeOfIPTEntry;
          Comeback := 0; Pcnt := 0; Bcnt := 0 |};
     Elems := [] |}.

(** Appends a serialized block to the entry; a matcher moves both
    offsets, the target only [NextOffset]. *)
Definition appendElems (isMatcher : bool) (entry : KernelIPTEntry)
  (serialized : list byte) : KernelIPTEntry :=
  let e := Entry entry in
  {| Entry :=
       {| IP := IP e; NFCache := NFCache e;
          TargetOffset :=
            if isMatcher
            then wrap16 (TargetOffset e + wrap16 (len serialized))
            else TargetOffset e;
          NextOffset := wrap16 (NextOffset e + wrap16 (len serialized));
          Comeback := Comeback e; Pcnt := Pcnt e; Bcnt := Bcnt e |};
     Elems := Elems entry ++ serialized |}.

Definition addMatcher (entry : KernelIPTEntry) (matcher : Matcher)
  : Result error KernelIPTEntry :=
  let* serialized := orPanic (marshalMatcher matcher) in
  if negb (len serialized mod 8 =? 0) then Panic
  else Ok (appendElems true entry serialized).

Definition addTarget (entry : KernelIPTEntry) (target : Target)
  : Result error KernelIPTEntry :=
  let* serialized := orPanic (marshalTarget target) in
  if negb (len serialized mod 8 =? 0) then Panic
  else Ok (appendElems false entry serialized).

(** The body of the loop over [table.Rules]. *)
Definition convertRule (table : Table)
  (st : KernelIPTGetEntries * metadata) (ir : Z * Rule)
  : Result error (KernelIPTGetEntries * metadata) :=
  let '(entries, meta) := st in
  let '(ruleIdx, rule) := ir in
  let* hookEntry :=
    recordOffsets (BuiltinChains table) ruleIdx (GetEntries_Size entries)
                  (HookEntry meta) in
  let* underflow :=
    recordOffsets (Underflows table) ruleIdx (GetEntries_Size entries)
                  (Underflow meta) in
  let* entry := foldM addMatcher (Matchers rule) (newEntry rule) in
  let* entry := addTarget entry (Rule_Target rule) in
  Ok ({| GetEntries_Name := GetEntries_Name entries;
         GetEntries_Size :=
           wrap32 (GetEntries_Size entries + NextOffset (Entry entry));
         Entrytable := Entrytable entries ++ [entry] |},
      {| HookEntry := hookEntry;
         Underflow := underflow;
         NumEntries := wrap32 (NumEntries meta + 1);
         Size := Size meta |}).

Definition convertNetstackToBinary (tablename : string) (table : Table)
  : Result error (KernelIPTGetEntries * metadata) :=
  if (XT_TABLE_MAXNAMELEN <? String.length tablename)%nat
  then Err (ErrTableNameTooLong tablename)
  else
    let entries :=
      {| GetEntries_Name :=
           copy_into XT_TABLE_MAXNAMELEN (list_byte_of_string tablename);
         GetEntries_Size := 0;
         Entrytable := [] |} in
    let* (entries, meta) :=
      foldM (convertRule table) (indexed (Rules table))
            (entries, metadata_zero) in
    Ok (entries,
        {| HookEntry := HookEntry meta;
           Underflow := Underflow meta;
           NumEntries := NumEntries meta;
           Size := GetEntries_Size entries |}).

(** *** Reading the tables back *)

Definition findTable (stk : Stack) (tablename : list byte)
  : Result error Table :=
  match Tables (stack.IPTables stk) !! name_String tablename with
  | Some table => Ok table
  | None => Err (ErrTableNotFound (name_String tablename))
  end.

(** [GetEntries] from the point where the caller's [IPTGetEntries]
    header, of which only the table name is read, has been copied in. *)
Definition GetEntries (stk : Stack) (userEntriesName : list byte)
  (outLen : Z) : Result syserr KernelIPTGetEntries :=
  let* table :=
    mapErr (fun _ => ErrInvalidArgument) (findTable stk userEntriesName) in
  let* (entries, meta) :=
    mapErr (fun _ => ErrInvalidArgument)
           (convertNetstackToBinary (name_String userEntriesName) table) in
  let* saved := orPanic (Table_metadata table) in
  if negb (bool_decide (meta = saved)) then Panic
  else if binary.SizeKernelIPTGetEntries entries >? outLen
  then Err ErrInvalidArgument
  else Ok entries.

(** *** Decoding *)

Definition containsUnsupportedFields (iptip : IPTIP) : bool :=
  let emptyInetAddr := zeros 4 in
  let emptyInterface := zeros IFNAMSIZ in
  negb (bool_decide (Dst iptip = emptyInetAddr))
  || negb (bool_decide (Src iptip = emptyInetAddr))
  || negb (bool_decide (SrcMask iptip = emptyInetAddr))
  || negb (bool_decide (DstMask iptip = emptyInetAddr))
  || negb (bool_decide (InputInterface iptip = emptyInterface))
  || negb (bool_decide (OutputInterface iptip = emptyInterface))
  || negb (bool_decide (InputInterfaceMask iptip = emptyInterface))
  || negb (bool_decide (OutputInterfaceMask iptip = emptyInterface))
  || negb (Flags iptip =? 0)
  || negb (InverseFlags iptip =? 0).

Definition filterFromIPTIP (iptip : IPTIP) : Result error IPHeaderFilter :=
  if containsUnsupportedFields iptip then Err ErrUnsupportedIPTIP
  else Ok {| Filter_Protocol := Protocol iptip |}.

Definition hookFromLinux (hook : Z) : option Hook :=
  if hook =? NF_INET_PRE_ROUTING then Some Prerouting
  else if hook =? NF_INET_LOCAL_IN then Some Input
  else if hook =? NF_INET_FORWARD then Some Forward
  else if hook =? NF_INET_LOCAL_OUT then Some Output
  else if hook =? NF_INET_POST_ROUTING then Some Postrouting
  else None.

(** The loop of [parseMatchers].  Every turn drops at least the header's
    size from [optVal], so [length optVal] turns are enough
    ([parseMatchersLoop_fuel]); a loop that ran out of turns would show as
    [Panic]. *)
Fixpoint parseMatchersLoop (fuel : nat) (filter : IPHeaderFilter)
  (optVal : list byte) (matchers : list Matcher)
  : Result error (list Matcher * list byte) :=
  if len optVal >? 0 then
    match fuel with
    | O => Panic
    | S fuel' =>
        if len optVal <? SizeOfXTEntryMatch
        then Err (ErrEntryMatchInsufficientSize (len optVal))
        else
          let* buf := slice_to optVal SizeOfXTEntryMatch in
          let* match_ := binary.UnmarshalXTEntryMatch buf in
          if MatchSize match_ <? SizeOfXTEntryMatch
          then Err ErrMatchSizeTooSmall
          else if len optVal <? MatchSize match_
          then Err (ErrMatchInsufficientSize (len optVal))
          else
            let* payload :=
              slice optVal SizeOfXTEntryMatch (MatchSize match_) in
            let* matcher :=
              mapErr ErrCreateMatcher
                     (unmarshalMatcher match_ filter payload) in
            let* optVal' := slice_from optVal (MatchSize match_) in
            parseMatchersLoop fuel' filter optVal' (matchers ++ [matcher])
    end
  else Ok (matchers, optVal).

Definition parseMatchers (filter : IPHeaderFilter) (optVal : list byte)
  : Result error (list Matcher) :=
  let* (matchers, optVal) :=
    parseMatchersLoop (length optVal) filter optVal [] in
  if negb (len optVal =? 0) then Err ErrNotExhausted
  else Ok matchers.

Definition parseTarget (optVal : list byte) : Result error Target :=
  if len optVal <? SizeOfXTEntryTarget
  then Err (ErrEntryTargetInsufficientSize (len optVal))
  else
    let* buf := slice_to optVal SizeOfXTEntryTarget in
    let* target := binary.UnmarshalXTEntryTarget buf in
    let name := name_String (Target_Name target) in
    if String.eqb name "" then
      if negb (len optVal =? SizeOfXTStandardTarget)
      then Err (ErrStandardTargetWrongSize (len optVal))
      else
        let* buf := slice_to optVal SizeOfXTStandardTarget in
        let* standardTarget := binary.UnmarshalXTStandardTarget buf in
        let* verdict :=
          translateToStandardVerdict (Standard_Verdict standardTarget) in
        match verdict with
        | Accept => Ok UnconditionalAcceptTarget
        | Drop => Ok UnconditionalDropTarget
        | _ => Err ErrUnknownVerdict
        end
    else if String.eqb name errorTargetName then
      if negb (len optVal =? SizeOfXTErrorTarget)
      then Err (ErrErrorTargetWrongSize (len optVal))
      else
        let* buf := slice_to optVal SizeOfXTErrorTarget in
        let* errorTarget := binary.UnmarshalXTErrorTarget buf in
        if String.eqb (name_String (Error_Name errorTarget)) errorTargetName
        then Ok ErrorTarget
        else Err (ErrUnknownErrorTarget
                    (name_String (Error_Name errorTarget)))
    else Err (ErrUnknownTarget name).

(** [SetEntries] logs every inner error and returns
    [syserr.ErrInvalidArgument]. *)
Definition invalid {A} (r : Result error A) : Result syserr A :=
  mapErr (fun _ => ErrInvalidArgument) r.

(** One turn of the loop over the entries: reads the entry at the head
    of [optVal]; yields its rule, its [NextOffset] and the rest of
    [optVal].  (The comparison of the bytes taken with [NextOffset] only
    writes to the log.) *)
Definition parseEntry (optVal : list byte)
  : Result syserr (Rule * Z * list byte) :=
  if len optVal <? SizeOfIPTEntry then Err ErrInvalidArgument
  else
    let* buf := slice_to optVal SizeOfIPTEntry in
    let* entry := binary.UnmarshalIPTEntry buf in
    let* optVal := slice_from optVal SizeOfIPTEntry in
    if TargetOffset entry <? SizeOfIPTEntry then Err ErrInvalidArgument
    else
      let* filter := invalid (filterFromIPTIP (IP entry)) in
      let matchersSize := wrap16 (TargetOffset entry - SizeOfIPTEntry) in
      if len optVal <? matchersSize then Err ErrInvalidArgument
      else
        let* mbuf := slice_to optVal matchersSize in
        let* matchers := invalid (parseMatchers filter mbuf) in
        let* optVal := slice_from optVal matchersSize in
        let targetSize := wrap16 (NextOffset entry - TargetOffset entry) in
        if len optVal <? targetSize then Err ErrInvalidArgument
        else
          let* tbuf := slice_to optVal targetSize in
          let* target := invalid (parseTarget tbuf) in
          let* optVal := slice_from optVal targetSize in
          Ok ({| Filter := filter; Matchers := matchers;
                 Rule_Target := target |},
              NextOffset entry, optVal).

Definition appendRule (table : Table) (rule : Rule) : Table :=
  {| Rules := Rules table ++ [rule];
     BuiltinChains := BuiltinChains table;
     Underflows := Underflows table;
     UserChains := UserChains table;
     Table_metadata := Table_metadata table |}.

Definition setBuiltinChain (table : Table) (hk : Hook) (ruleIdx : Z) : Table :=
  {| Rules := Rules table;
     BuiltinChains := <[hk := ruleIdx]> (BuiltinChains table);
     Underflows := Underflows table;
     UserChains := UserChains table;
     Table_metadata := Table_metadata table |}.

Definition setUnderflow (table : Table) (hk : Hook) (ruleIdx : Z) : Table :=
  {| Rules := Rules table;
     BuiltinChains := BuiltinChains table;
     Underflows := <[hk := ruleIdx]> (Underflows table);
     UserChains := UserChains table;
     Table_metadata := Table_metadata table |}.

(** The loop over the [replace.NumEntries] entries; [n] counts the turns
    left. *)
Fixpoint parseEntries (n : nat) (optVal : list byte) (offset : Z)
  (table : Table) (offsets : list Z) : Result syserr (Table * list Z) :=
  match n with
  | O => Ok (table, offsets)
  | S n' =>
      let* (rule_next, optVal') := parseEntry optVal in
      let (rule, nextOffset) := rule_next in
      parseEntries n' optVal' (wrap32 (offset + nextOffset))
                   (appendRule table rule) (offsets ++ [offset])
  end.

(** The body of the loop over [offsets], for one hook. *)
Definition setHook (replace : IPTReplace) (hook : Z) (hk : Hook)
  (table : Table) (io : Z * Z) : Result syserr Table :=
  let '(ruleIdx, offset) := io in
  let* hookEntry := array_get (Replace_HookEntry replace) hook in
  let table :=
    if offset =? hookEntry then setBuiltinChain table hk ruleIdx
    else table in
  let* underflow := array_get (Replace_Underflow replace) hook in
  let table :=
    if offset =? underflow then setUnderflow table hk ruleIdx
    else table in
  Ok table.

(** The body of the loop over the hooks. *)
Definition resolveHook (replace : IPTReplace) (offsets : list Z)
  (table : Table) (hook : Z) : Result syserr Table :=
  if negb (Z.land (ValidHooks table) (Z.shiftl 1 hook) =? 0) then
    let* hk := orPanic (hookFromLinux hook) in
    let* table := foldM (setHook replace hook hk) (indexed offsets) table in
    if map_get (BuiltinChains table) hk =? HookUnset
    then Err ErrInvalidArgument
    else if map_get (Underflows table) hk =? HookUnset
    then Err ErrInvalidArgument
    else Ok table
  else Ok table.

Definition resolveHooks (replace : IPTReplace) (offsets : list Z)
  (table : Table) : Result syserr Table :=
  foldM (resolveHook replace offsets)
        (map fst (indexed (Replace_HookEntry replace))) table.

(** The body of the loop over [table.BuiltinChains]: a chain other than
    the input chain has to start at an accept rule. *)
Definition checkChain (table : Table) (_ : unit) (hr : N * Z)
  : Result syserr unit :=
  let '(hook, ruleIdx) := hr in
  if negb (N.eqb hook Input) then
    let* rule :=
      (if (0 <=? ruleIdx) && (ruleIdx <? len (Rules table))
       then orPanic (Rules table !! Z.to_nat ruleIdx)
       else Panic) in
    match Rule_Target rule with
    | UnconditionalAcceptTarget => Ok tt
    | _ => Err ErrInvalidArgument
    end
  else Ok tt.

Definition checkChains (table : Table) : Result syserr unit :=
  foldM (checkChain table) (map_to_list (BuiltinChains table)) tt.

(** The first part of [SetEntries]: the replace header, and the table
    and the offsets the loop over the entries leaves. *)
Definition parseReplace (optVal : list byte)
  : Result syserr (IPTReplace * Table * list Z) :=
  if len optVal <? SizeOfIPTReplace then Err ErrInvalidArgument
  else
    let* replaceBuf := slice_to optVal SizeOfIPTReplace in
    let* optVal := slice_from optVal SizeOfIPTReplace in
    let* replace := binary.UnmarshalIPTReplace replaceBuf in
    if String.eqb (name_String (Replace_Name replace)) TablenameFilter then
      let table := EmptyFilterTable in
      let* (table, offsets) :=
        parseEntries (Z.to_nat (Replace_NumEntries replace)) optVal 0
                     table [] in
      Ok (replace, table, offsets)
    else Err ErrInvalidArgument.

(** [SetEntries] up to the point where it touches the stack: the two
    loops over the hooks follow the entries. *)
Definition decodeTable (optVal : list byte)
  : Result syserr (IPTReplace * Table) :=
  let* (replace_table, offsets) := parseReplace optVal in
  let (replace, table) := replace_table in
  let* table := resolveHooks replace offsets table in
  let* _ := checkChains table in
  Ok (replace, table).

(** The table and metadata [SetEntries] stores for a decoded blob. *)
Definition installedTable (replace : IPTReplace) (table : Table) : Table :=
  SetMetadata table
    {| HookEntry := Replace_HookEntry replace;
       Underflow := Replace_Underflow replace;
       NumEntries := Replace_NumEntries replace;
       Size := Replace_Size replace |}.

(** [SetEntries] returns the stack it leaves behind with its result. *)
Definition SetEntries (stk : Stack) (optVal : list byte)
  : Stack * Result syserr unit :=
  match decodeTable optVal with
  | Ok (replace, table) =>
      let ipt := stack.IPTables stk in
      let table := installedTable replace table in
      let ipt :=
        {| Tables :=
             <[name_String (Replace_Name replace) := table]> (Tables ipt) |} in
      (stack.SetIPTables stk ipt, Ok tt)
  | Err e => (stk, Err e)
  | Panic => (stk, Panic)
  end.

End Netfilter.

(** ** [netfilter.go]: the remaining entry points *)

(** Modelled from the spec: [linux.IPTGetinfo], the record [GetInfo] fills
    (section 4.6): the table's name, its hook mask, and the entry and
    underflow offsets, the entry count and the size of its metadata. *)
Record IPTGetinfo : Type := {
  Getinfo_Name : list byte;
  Getinfo_ValidHooks : Z;
  Getinfo_HookEntry : list Z;
  Getinfo_Underflow : list Z;
  Getinfo_NumEntries : Z;
  Getinfo_Size : Z
}.

Section NetfilterEntryPoints.
Context {MM : MatchMakers}.
Import linux iptables.

(** [GetInfo] from the point where the caller's [IPTGetinfo] has been
    copied in; the type assertion on the table's metadata panics when the
    slot holds no [metadata]. *)
Definition GetInfo (stk : stack.Stack Matcher) (info : IPTGetinfo)
  : Result syserr IPTGetinfo :=
  let* table := invalid (findTable stk (Getinfo_Name info)) in
  let validHooks := ValidHooks table in
  let* metadata := orPanic (Table_metadata table) in
  Ok {| Getinfo_Name := Getinfo_Name info;
        Getinfo_ValidHooks := validHooks;
        Getinfo_HookEntry := HookEntry metadata;
        Getinfo_Underflow := Underflow metadata;
        Getinfo_NumEntries := NumEntries metadata;
        Getinfo_Size := Size metadata |}.

(** The body of the loop of [FillDefaultIPTables]: the table gets the
    metadata of its own encoding; an encoding error is a panic. *)
Definition fillTable (tables : gmap string (Table Matcher))
  (nt : string * Table Matcher) : Result error (gmap string (Table Matcher)) :=
  let '(name, table) := nt in
  match convertNetstackToBinary name table with
  | Ok (_, metadata) => Ok (<[name := SetMetadata table metadata]> tables)
  | Err _ => Panic
  | Panic => Panic
  end.

(** [FillDefaultIPTables]; [iptables.DefaultTables()], which is not among
    the sources, is the argument [defaults].  [None] is a panic. *)
Definition FillDefaultIPTables (defaults : IPTables Matcher)
  (stk : stack.Stack Matcher) : option (stack.Stack Matcher) :=
  match foldM fillTable (map_to_list (Tables defaults)) (Tables defaults) with
  | Ok tables => Some (stack.SetIPTables stk {| Tables := tables |})
  | Err _ => None
  | Panic => None
  end.

End NetfilterEntryPoints.

(** ** Registries and blobs used as examples *)

(** The empty registry: no matcher kind is known. *)
Definition noMatchers : MatchMakers :=
  {| Matcher := Empty_set;
     marshalMatcher := fun m => match m with end;
     unmarshalMatcher := fun _ _ _ => Err (ErrMatcher "unsupported matcher") |}.

(** A registry with the single kind ["raw"], whose matcher is its payload;
    the block is the extension header, the payload and the padding to a
    multiple of eight bytes. *)
Definition rawBlock (data : list byte) : list byte :=
  let size := (32 + len data + 7) / 8 * 8 in
  le_encode 2 size
  ++ copy_into linux.XT_EXTENSION_MAXNAMELEN (list_byte_of_string "raw")
  ++ le_encode 1 0 ++ data ++ zeros (Z.to_nat (size - 32 - len data)).

Definition rawMatchers : MatchMakers :=
  {| Matcher := list byte;
     marshalMatcher := fun data => Some (rawBlock data);
     unmarshalMatcher := fun m _ buf =>
       if String.eqb (name_String (linux.Match_Name m)) "raw" then Ok buf
       else Err (ErrMatcher "unsupported matcher") |}.

(** The bytes of a [struct ipt_replace]. *)
Definition replaceHeader (name : string) (numEntries size : Z)
  (hookEntry underflow : list Z) : list byte :=
  copy_into linux.XT_TABLE_MAXNAMELEN (list_byte_of_string name)
  ++ le_encode 4 14 ++ le_encode 4 numEntries ++ le_encode 4 size
  ++ flat_map (le_encode 4) hookEntry ++ flat_map (le_encode 4) underflow
  ++ le_encode 4 0 ++ le_encode 8 0.

(** The bytes of a [struct ipt_entry] with only the protocol and the two
    offsets set. *)
Definition entryHeader (proto targetOffset nextOffset : Z) : list byte :=
  zeros 80 ++ le_encode 2 proto ++ zeros 2 ++ zeros 4
  ++ le_encode 2 targetOffset ++ le_encode 2 nextOffset ++ zeros 4 ++ zeros 16.

Definition standardTargetBytes (verdict : iptables.Verdict) : list byte :=
  default [] (marshalStandardTarget verdict).

(** One entry: no matcher, a standard target. *)
Definition simpleEntry (verdict : iptables.Verdict) : list byte :=
  entryHeader 0 112 152 ++ standardTargetBytes verdict.

(** A filter table of one accept rule, at which every hook starts and
    underflows; [size] is the total size the header declares. *)
Definition acceptBlob (size : Z) : list byte :=
  replaceHeader "filter" 1 size [0; 0; 0; 0; 0] [0; 0; 0; 0; 0]
  ++ simpleEntry iptables.Accept.

(** Two rules, accept then drop; the chains start and underflow at the
    offsets given for the hooks input, forward and output. *)
Definition twoRuleBlob (input forward output : Z) : list byte :=
  replaceHeader "filter" 2 304 [0; input; forward; output; 0]
                [0; input; forward; output; 0]
  ++ simpleEntry iptables.Accept ++ simpleEntry iptables.Drop.

Definition emptyStack {MM : MatchMakers} : stack.Stack Matcher :=
  {| stack.tables := {| iptables.Tables := ∅ |} |}.

(** The stack after the one-rule blob with the right total size, 152, has
    been set, and after the same blob declaring a total size of 1. *)
Definition acceptStack : stack.Stack (@Matcher noMatchers) :=
  fst (SetEntries emptyStack (acceptBlob 152)).

Definition wrongSizeStack : stack.Stack (@Matcher noMatchers) :=
  fst (SetEntries emptyStack (acceptBlob 1)).

(** The table of one accept rule at which the three chains start. *)
Definition acceptTable : iptables.Table (@Matcher noMatchers) :=
  {| iptables.Rules :=
       [{| iptables.Filter := {| iptables.Filter_Protocol := 0 |};
           iptables.Matchers := [];
           iptables.Rule_Target := iptables.UnconditionalAcceptTarget |}];
     iptables.BuiltinChains :=
       <[iptables.Input := 0]>
         (<[iptables.Forward := 0]> (<[iptables.Output := 0]> ∅));
     iptables.Underflows :=
       <[iptables.Input := 0]>
         (<[iptables.Forward := 0]> (<[iptables.Output := 0]> ∅));
     iptables.UserChains := ∅;
     iptables.Table_metadata := None |}.

Definition acceptRule : iptables.Rule (@Matcher noMatchers) :=
  {| iptables.Filter := {| iptables.Filter_Protocol := 0 |};
     iptables.Matchers := [];
     iptables.Rule_Target := iptables.UnconditionalAcceptTarget |}.

Definition dropRule : iptables.Rule (@Matcher noMatchers) :=
  {| iptables.Filter := {| iptables.Filter_Protocol := 0 |};
     iptables.Matchers := [];
     iptables.Rule_Target := iptables.UnconditionalDropTarget |}.

(** The table the loop over the entries leaves for [twoRuleBlob]. *)
Definition twoRuleTable : iptables.Table (@Matcher noMatchers) :=
  appendRule (appendRule iptables.EmptyFilterTable acceptRule) dropRule.

(** [table] with the three chains starting and underflowing at the given
    rules. *)
Definition chainsAt (table : iptables.Table (@Matcher noMatchers))
  (input forward output : Z) : iptables.Table (@Matcher noMatchers) :=
  let set t hk i := setUnderflow (setBuiltinChain t hk i) hk i in
  set (set (set table iptables.Input input) iptables.Forward forward)
      iptables.Output output.

(** What reading back the table [name] of [stk] compares: the size the
    encoder computes and the size saved with the table. *)
Definition sizesOf {MM : MatchMakers} (stk : stack.Stack Matcher)
  (name : string) : Result error (Z * option Z) :=
  let* table := findTable stk (list_byte_of_string name) in
  let* (_, meta) := convertNetstackToBinary name table in
  Ok (Size meta, option_map Size (iptables.Table_metadata table)).

(** A rule with one raw matcher of eight bytes and the drop target, the
    entry the encoder builds for it, and the table of that rule. *)
Definition rawPayload : list byte :=
  [x01; x02; x03; x04; x05; x06; x07; x08].

Definition rawRule : iptables.Rule (@Matcher rawMatchers) :=
  {| iptables.Filter := {| iptables.Filter_Protocol := 17 |};
     iptables.Matchers := [rawPayload];
     iptables.Rule_Target := iptables.UnconditionalDropTarget |}.

Definition rawTable : iptables.Table (@Matcher rawMatchers) :=
  {| iptables.Rules := [rawRule];
     iptables.BuiltinChains :=
       <[iptables.Input := 0]>
         (<[iptables.Forward := 0]> (<[iptables.Output := 0]> ∅));
     iptables.Underflows :=
       <[iptables.Input := 0]>
         (<[iptables.Forward := 0]> (<[iptables.Output := 0]> ∅));
     iptables.UserChains := ∅;
     iptables.Table_metadata := None |}.

Definition rawEntry : linux.KernelIPTEntry :=
  appendElems false
    (appendElems true (newEntry rawRule) (rawBlock rawPayload))
    (standardTargetBytes iptables.Drop).

(** The entries the encoder starts from and the entries and metadata it
    has after the one rule of [rawTable], before the size is copied. *)
Definition filterEntries (size : Z) (entrytable : list linux.KernelIPTEntry)
  : linux.KernelIPTGetEntries :=
  {| linux.GetEntries_Name :=
       copy_into linux.XT_TABLE_MAXNAMELEN (list_byte_of_string "filter");
     linux.GetEntries_Size := size;
     linux.Entrytable := entrytable |}.

Definition oneEntryMetadata (size : Z) : metadata :=
  {| HookEntry := [0; 0; 0; 0; 0];
     Underflow := [0; 0; 0; 0; 0];
     NumEntries := 1;
     Size := size |}.

(** The entry of [acceptRule]. *)
Definition acceptEntry : linux.KernelIPTEntry :=
  appendElems false (newEntry acceptRule)
              (standardTargetBytes iptables.Accept).

(** The one-rule blob with the flags field of the entry set. *)
Definition flaggedBlob : list byte :=
  replaceHeader "filter" 1 152 [0; 0; 0; 0; 0] [0; 0; 0; 0; 0]
  ++ zeros 82 ++ [x01] ++ zeros 5
  ++ le_encode 2 112 ++ le_encode 2 152 ++ zeros 4 ++ zeros 16
  ++ standardTargetBytes iptables.Accept.

(** Default tables: the filter table of one accept rule; and the stack
    they leave. *)
Definition defaultTables : iptables.IPTables (@Matcher noMatchers) :=
  {| iptables.Tables := <["filter"%string := acceptTable]> ∅ |}.

Definition defaultStack : stack.Stack (@Matcher noMatchers) :=
  {| stack.tables :=
       {| iptables.Tables :=
            <["filter"%string
              := iptables.SetMetadata acceptTable (oneEntryMetadata 152)]> ∅ |} |}.

(** A caller's [IPTGetinfo] naming the filter table. *)
Definition filterInfo : IPTGetinfo :=
  {| Getinfo_Name :=
       copy_into linux.XT_TABLE_MAXNAMELEN (list_byte_of_string "filter");
     Getinfo_ValidHooks := 0;
     Getinfo_HookEntry := [];
     Getinfo_Underflow := [];
     Getinfo_NumEntries := 0;
     Getinfo_Size := 0 |}.

(** ** Predicates the statements use *)

Section Predicates.
Context {MM : MatchMakers}.
Import linux iptables.

(** The name in the extension header at the head of a target block. *)
Definition targetName (optVal : list byte) : string :=
  name_String (Target_Name (binary.decodeXTEntryTarget optVal)).

(** The verdict field of a standard-target block. *)
Definition standardVerdict (optVal : list byte) : Z :=
  to_int32 (binary.u32 32 optVal).

(** The inner name of an error-target block. *)
Definition errorName (optVal : list byte) : string :=
  name_String (field 32 XT_FUNCTION_MAXNAMELEN optVal).

(** The extension header at the head of a matcher region, and the
    block size it declares. *)
Definition matchHeader (optVal : list byte) : XTEntryMatch :=
  binary.decodeXTEntryMatch (take 32 optVal).

Definition declaredMatchSize (optVal : list byte) : Z :=
  MatchSize (matchHeader optVal).

(** The entry header at the head of [optVal], and the replace header at
    the head of a blob. *)
Definition entryHeaderOf (optVal : list byte) : IPTEntry :=
  binary.decodeIPTEntry (take 112 optVal).

Definition replaceHeaderOf (optVal : list byte) : IPTReplace :=
  binary.decodeIPTReplace (take 96 optVal).

(** [block] is one whole matcher block that unmarshals to [matcher]: its
    header declares exactly the block's length, which is at least the
    header's. *)
Definition matcherBlock (filter : IPHeaderFilter) (block : list byte)
  (matcher : Matcher) : Prop :=
  SizeOfXTEntryMatch <= len block
  /\ declaredMatchSize block = len block
  /\ unmarshalMatcher (matchHeader block) filter (drop 32 block)
     = Ok matcher.

(** Every chain of [table] starts, and underflows, at the index of an
    entry that begins at the offset the replace header declares for the
    chain's hook; [offsets] are the offsets at which the entries begin. *)
Definition resolved (replace : IPTReplace) (offsets : list Z)
  (table : Table Matcher) : Prop :=
  (forall hook idx, BuiltinChains table !! hook = Some idx ->
     exists i, idx = Z.of_nat i
       /\ is_Some (offsets !! i)
       /\ offsets !! i = Replace_HookEntry replace !! N.to_nat hook)
  /\ (forall hook idx, Underflows table !! hook = Some idx ->
       exists j, idx = Z.of_nat j
         /\ is_Some (offsets !! j)
         /\ offsets !! j = Replace_Underflow replace !! N.to_nat hook).

(** The two hook maps of a table that came out of the loop over the
    entries: those of the empty filter table. *)
Definition freshChains (table : Table Matcher) : Prop :=
  BuiltinChains table = BuiltinChains (EmptyFilterTable (Matcher := Matcher))
  /\ Underflows table = Underflows (EmptyFilterTable (Matcher := Matcher)).

(** The hooks of the filter table. *)
Definition filterHook (hook : N) : Prop :=
  hook = Input \/ hook = Forward \/ hook = Output.

(** The sum of the [NextOffset] fields of a sequence of entries. *)
Definition sumNextOffset (entries : list KernelIPTEntry) : Z :=
  foldr (fun e acc => NextOffset (Entry e) + acc) 0 entries.

(** The registry's unmarshallers return a matcher or an error. *)
Definition unmarshalNeverPanics : Prop :=
  forall match_ filter buf, unmarshalMatcher match_ filter buf <> Panic.

(** A table the encoder can walk: every matcher has a marshaller that
    yields an aligned block, every target is one of the three known
    kinds, and the hooks are the ABI's. *)
Definition encodable (table : Table Matcher) : Prop :=
  (forall rule, rule ∈ Rules table ->
     (forall m, m ∈ Matchers rule ->
        exists bytes, marshalMatcher m = Some bytes /\ len bytes mod 8 = 0)
     /\ (forall kind, Rule_Target rule <> OtherTarget kind))
  /\ (forall hook idx, BuiltinChains table !! hook = Some idx ->
        (hook < 5)%N)
  /\ (forall hook idx, Underflows table !! hook = Some idx ->
        (hook < 5)%N).

End Predicates.

(** The header filter sets nothing but the protocol: what
    [containsUnsupportedFields] tests. *)
Definition onlyProtocol (iptip : linux.IPTIP) : Prop :=
  linux.Src iptip = zeros 4 /\ linux.Dst iptip = zeros 4
  /\ linux.SrcMask iptip = zeros 4 /\ linux.DstMask iptip = zeros 4
  /\ linux.InputInterface iptip = zeros linux.IFNAMSIZ
  /\ linux.OutputInterface iptip = zeros linux.IFNAMSIZ
  /\ linux.InputInterfaceMask iptip = zeros linux.IFNAMSIZ
  /\ linux.OutputInterfaceMask iptip = zeros linux.IFNAMSIZ
  /\ linux.Flags iptip = 0 /\ linux.InverseFlags iptip = 0.

(** ** Proofs *)

Ltac abi :=
  unfold linux.SizeOfIPTEntry, linux.SizeOfIPTReplace,
    linux.SizeOfXTEntryMatch, linux.SizeOfXTEntryTarget,
    linux.SizeOfXTStandardTarget, linux.SizeOfXTErrorTarget,
    linux.SizeOfIPTIP in *.

(** Decides the integer comparisons of the goal. *)
Ltac zcmp :=
  repeat match goal with
    | |- context [(?a <? ?b)%Z] => destruct (Z.ltb_spec a b)
    | |- context [(?a <=? ?b)%Z] => destruct (Z.leb_spec a b)
    | |- context [(?a =? ?b)%Z] => destruct (Z.eqb_spec a b)
    | |- context [(?a >? ?b)%Z] => rewrite (Z.gtb_ltb a b)
    end.

Section Basics.

Lemma bind_Ok {E A B} (r : Result E A) (k : A -> Result E B) b :
  bind r k = Ok b <-> exists a, r = Ok a /\ k a = Ok b.
Proof.
  destruct r; simpl; split; try (intros [a' [H1 H2]]); try discriminate.
  - intros H. eauto.
  - injection H1 as <-. exact H2.
Qed.

Lemma bind_not_Panic {E A B} (r : Result E A) (k : A -> Result E B) :
  r <> Panic -> (forall a, r = Ok a -> k a <> Panic) -> bind r k <> Panic.
Proof. destruct r; simpl; intros H1 H2; auto; discriminate. Qed.

Lemma mapErr_Ok {E F A} (f : E -> F) (r : Result E A) a :
  mapErr f r = Ok a <-> r = Ok a.
Proof. destruct r; simpl; split; congruence. Qed.

Lemma mapErr_Panic {E F A} (f : E -> F) (r : Result E A) :
  mapErr f r = Panic <-> r = Panic.
Proof. destruct r; simpl; split; congruence. Qed.

Lemma len_nonneg {A} (s : list A) : 0 <= len s.
Proof. unfold len. lia. Qed.

Lemma len_app {A} (s t : list A) : len (s ++ t) = len s + len t.
Proof. unfold len. rewrite length_app. lia. Qed.

Lemma len_take {A} (s : list A) n :
  0 <= n <= len s -> len (take (Z.to_nat n) s) = n.
Proof. unfold len. intros H. rewrite length_take. lia. Qed.

Lemma len_drop {A} (s : list A) n :
  0 <= n <= len s -> len (drop (Z.to_nat n) s) = len s - n.
Proof. unfold len. intros H. rewrite length_drop. lia. Qed.

Lemma slice_to_Ok {E A} (s : list A) hi :
  0 <= hi <= len s -> slice_to (E := E) s hi = Ok (take (Z.to_nat hi) s).
Proof. intros H. unfold slice_to. zcmp; try lia. reflexivity. Qed.

Lemma slice_from_Ok {E A} (s : list A) lo :
  0 <= lo <= len s -> slice_from (E := E) s lo = Ok (drop (Z.to_nat lo) s).
Proof. intros H. unfold slice_from. zcmp; try lia. reflexivity. Qed.

Lemma slice_Ok {E A} (s : list A) lo hi :
  0 <= lo <= hi -> hi <= len s ->
  slice (E := E) s lo hi
  = Ok (take (Z.to_nat (hi - lo)) (drop (Z.to_nat lo) s)).
Proof. intros H1 H2. unfold slice. zcmp; try lia. reflexivity. Qed.

Lemma field_take off n k (buf : list byte) :
  (off + n <= k)%nat -> field off n (take k buf) = field off n buf.
Proof.
  intros H. unfold field.
  rewrite !take_drop_commute, take_take.
  do 2 f_equal. lia.
Qed.

Lemma field_app off n (buf extra : list byte) :
  (off + n <= length buf)%nat -> field off n (buf ++ extra) = field off n buf.
Proof.
  intros H. unfold field.
  rewrite drop_app_le by lia.
  rewrite take_app_le; [reflexivity | rewrite length_drop; lia].
Qed.

Lemma wrap16_range z : 0 <= wrap16 z < 65536.
Proof. unfold wrap16. apply Z.mod_pos_bound. lia. Qed.

Lemma wrap32_range z : 0 <= wrap32 z < 4294967296.
Proof. unfold wrap32. apply Z.mod_pos_bound. lia. Qed.

End Basics.

Section TargetProofs.
Import linux iptables.

Lemma translateToStandardVerdict_Ok val v :
  translateToStandardVerdict val = Ok v ->
  (val = - NF_ACCEPT - 1 /\ v = Accept) \/ (val = - NF_DROP - 1 /\ v = Drop).
Proof.
  unfold translateToStandardVerdict. zcmp; intros H; inversion H; auto.
Qed.

(** [parseTarget] once the header fits: the branches on the fields of
    the block. *)
Lemma parseTarget_eq optVal :
  SizeOfXTEntryTarget <= len optVal ->
  parseTarget optVal =
    if String.eqb (targetName optVal) "" then
      if negb (len optVal =? SizeOfXTStandardTarget)
      then Err (ErrStandardTargetWrongSize (len optVal))
      else
        let* verdict := translateToStandardVerdict (standardVerdict optVal) in
        match verdict with
        | Accept => Ok UnconditionalAcceptTarget
        | Drop => Ok UnconditionalDropTarget
        | _ => Err ErrUnknownVerdict
        end
    else if String.eqb (targetName optVal) errorTargetName then
      if negb (len optVal =? SizeOfXTErrorTarget)
      then Err (ErrErrorTargetWrongSize (len optVal))
      else if String.eqb (errorName optVal) errorTargetName
           then Ok ErrorTarget
           else Err (ErrUnknownErrorTarget (errorName optVal))
    else Err (ErrUnknownTarget (targetName optVal)).
Proof.
  intros Hlen. unfold parseTarget. abi.
  destruct (Z.ltb_spec (len optVal) 32); [lia |].
  rewrite slice_to_Ok by lia. cbn [bind].
  unfold binary.UnmarshalXTEntryTarget. abi. rewrite len_take by lia.
  change (32 <? 32) with false. cbn [bind].
  assert (Hname :
    name_String (Target_Name (binary.decodeXTEntryTarget
                                (take (Z.to_nat 32) optVal)))
    = targetName optVal).
  { unfold targetName, binary.decodeXTEntryTarget. cbn [Target_Name].
    rewrite field_take; [reflexivity | vm_compute; lia]. }
  rewrite Hname.
  destruct (String.eqb (targetName optVal) "").
  - destruct (Z.eqb_spec (len optVal) 40) as [e | ne]; cbn [negb];
      [| reflexivity].
    rewrite slice_to_Ok by lia. cbn [bind].
    rewrite take_ge by (unfold len in e; lia).
    unfold binary.UnmarshalXTStandardTarget. abi. rewrite e.
    change (40 <? 40) with false. reflexivity.
  - destruct (String.eqb (targetName optVal) errorTargetName);
      [| reflexivity].
    destruct (Z.eqb_spec (len optVal) 64) as [e | ne]; cbn [negb];
      [| reflexivity].
    rewrite slice_to_Ok by lia. cbn [bind].
    rewrite take_ge by (unfold len in e; lia).
    unfold binary.UnmarshalXTErrorTarget. abi. rewrite e.
    change (64 <? 64) with false. reflexivity.
Qed.

Lemma parseTarget_short optVal :
  len optVal < SizeOfXTEntryTarget ->
  parseTarget optVal = Err (ErrEntryTargetInsufficientSize (len optVal)).
Proof.
  intros H. unfold parseTarget. destruct (Z.ltb_spec (len optVal) SizeOfXTEntryTarget); [reflexivity | lia].
Qed.

Lemma parseTarget_not_Panic optVal : parseTarget optVal <> Panic.
Proof.
  destruct (Z.lt_ge_cases (len optVal) SizeOfXTEntryTarget) as [H | H].
  - rewrite parseTarget_short by exact H. discriminate.
  - rewrite parseTarget_eq by exact H.
    unfold translateToStandardVerdict.
    repeat match goal with
           | |- context [if ?c then _ else _] => destruct c
           end; cbn; discriminate.
Qed.

(** The targets [parseTarget] can return. *)
Lemma parseTarget_Ok optVal t :
  parseTarget optVal = Ok t <->
  (len optVal = SizeOfXTStandardTarget /\ targetName optVal = ""%string
   /\ ((translateToStandardVerdict (standardVerdict optVal) = Ok Accept
        /\ t = UnconditionalAcceptTarget)
       \/ (translateToStandardVerdict (standardVerdict optVal) = Ok Drop
           /\ t = UnconditionalDropTarget)))
  \/ (len optVal = SizeOfXTErrorTarget
      /\ targetName optVal = errorTargetName
      /\ errorName optVal = errorTargetName
      /\ t = ErrorTarget).
Proof.
  destruct (Z.lt_ge_cases (len optVal) SizeOfXTEntryTarget) as [H | H].
  { rewrite parseTarget_short by exact H. abi.
    split; [discriminate | intros [[? _] | [? _]]; lia]. }
  rewrite parseTarget_eq by exact H. abi.
  destruct (String.eqb_spec (targetName optVal) "") as [En | En].
  - rewrite En.
    destruct (Z.eqb_spec (len optVal) 40) as [e | ne]; cbn [negb].
    + destruct (translateToStandardVerdict (standardVerdict optVal))
        as [[] | |] eqn:Ev; cbn [bind]; split;
        try discriminate;
        try (intros [= <-]; left; auto);
        intros [(_ & _ & [[Hv Ht] | [Hv Ht]]) | (He & Hn & _)];
        try discriminate; try (subst t; reflexivity); try lia.
    + split; [discriminate |].
      intros [(? & _) | (_ & Hn & _)]; [lia | discriminate].
  - destruct (String.eqb_spec (targetName optVal) errorTargetName)
      as [Ee | Ee].
    + destruct (Z.eqb_spec (len optVal) 64) as [e | ne]; cbn [negb].
      * destruct (String.eqb_spec (errorName optVal) errorTargetName)
          as [Ei | Ei]; split; try discriminate.
        -- intros [= <-]. right. auto.
        -- intros [(_ & Hn & _) | (_ & _ & _ & ->)];
             [contradiction | reflexivity].
        -- intros [(_ & Hn & _) | (_ & _ & Hi & _)]; contradiction.
      * split; [discriminate |].
        intros [(_ & Hn & _) | (? & _)]; [contradiction | lia].
    + split; [discriminate |].
      intros [(_ & Hn & _) | (_ & Hn & _)]; contradiction.
Qed.

End TargetProofs.

Section MatcherProofs.
Context {MM : MatchMakers}.
Import linux iptables.

(** One turn of the loop of [parseMatchers] on a region that is not
    empty. *)
Lemma parseMatchersLoop_step fuel filter optVal acc :
  0 < len optVal ->
  parseMatchersLoop (S fuel) filter optVal acc =
    if len optVal <? SizeOfXTEntryMatch
    then Err (ErrEntryMatchInsufficientSize (len optVal))
    else if declaredMatchSize optVal <? SizeOfXTEntryMatch
    then Err ErrMatchSizeTooSmall
    else if len optVal <? declaredMatchSize optVal
    then Err (ErrMatchInsufficientSize (len optVal))
    else
      let size := Z.to_nat (declaredMatchSize optVal) in
      let* matcher :=
        mapErr ErrCreateMatcher
               (unmarshalMatcher (matchHeader optVal) filter
                                 (drop 32 (take size optVal))) in
      parseMatchersLoop fuel filter (drop size optVal) (acc ++ [matcher]).
Proof.
  intros Hpos. cbn [parseMatchersLoop]. abi.
  rewrite Z.gtb_ltb. destruct (Z.ltb_spec 0 (len optVal)); [| lia].
  destruct (Z.ltb_spec (len optVal) 32); [reflexivity |].
  rewrite slice_to_Ok by lia. cbn [bind].
  unfold binary.UnmarshalXTEntryMatch. abi. rewrite len_take by lia.
  change (32 <? 32) with false. cbn [bind].
  change (binary.decodeXTEntryMatch (take (Z.to_nat 32) optVal))
    with (matchHeader optVal).
  change (MatchSize (matchHeader optVal)) with (declaredMatchSize optVal).
  destruct (Z.ltb_spec (declaredMatchSize optVal) 32); [reflexivity |].
  destruct (Z.ltb_spec (len optVal) (declaredMatchSize optVal));
    [reflexivity |].
  rewrite slice_Ok by lia. cbn [bind].
  rewrite slice_from_Ok by lia.
  replace (take (Z.to_nat (declaredMatchSize optVal - 32))
                (drop (Z.to_nat 32) optVal))
    with (drop 32 (take (Z.to_nat (declaredMatchSize optVal)) optVal)).
  - reflexivity.
  - rewrite take_drop_commute. change (Z.to_nat 32) with 32%nat.
    do 2 f_equal. lia.
Qed.

Lemma parseMatchersLoop_nil fuel filter acc :
  parseMatchersLoop fuel filter [] acc = Ok (acc, []).
Proof. destruct fuel; reflexivity. Qed.

(** The loop never runs out of turns: any bound from [length optVal] on
    gives the same outcome. *)
Lemma parseMatchersLoop_fuel fuel1 : forall fuel2 filter optVal acc,
  (length optVal <= fuel1)%nat -> (length optVal <= fuel2)%nat ->
  parseMatchersLoop fuel1 filter optVal acc
  = parseMatchersLoop fuel2 filter optVal acc.
Proof.
  induction fuel1 as [| fuel1 IH]; intros fuel2 filter optVal acc H1 H2.
  - destruct optVal; [| simpl in H1; lia].
    rewrite !parseMatchersLoop_nil. reflexivity.
  - destruct optVal as [| b optVal'] eqn:E.
    { rewrite !parseMatchersLoop_nil. reflexivity. }
    rewrite <- E in *.
    assert (Hpos : 0 < len optVal) by (subst optVal; unfold len; simpl; lia).
    destruct fuel2 as [| fuel2]; [subst optVal; simpl in H2; lia |].
    rewrite !parseMatchersLoop_step by exact Hpos. abi.
    destruct (Z.ltb_spec (len optVal) 32); [reflexivity |].
    destruct (Z.ltb_spec (declaredMatchSize optVal) 32); [reflexivity |].
    destruct (Z.ltb_spec (len optVal) (declaredMatchSize optVal));
      [reflexivity |].
    cbn zeta.
    destruct (unmarshalMatcher _ _ _); cbn [mapErr bind]; try reflexivity.
    apply IH; rewrite length_drop; unfold len in *; lia.
Qed.

(** With turns enough the loop returns a matcher list or an error,
    provided the registry does. *)
Lemma parseMatchersLoop_not_Panic fuel : forall filter optVal acc,
  unmarshalNeverPanics ->
  (length optVal <= fuel)%nat ->
  parseMatchersLoop fuel filter optVal acc <> Panic.
Proof.
  induction fuel as [| fuel IH]; intros filter optVal acc Hreg Hfuel.
  - destruct optVal; [| simpl in Hfuel; lia]. discriminate.
  - destruct optVal as [| b optVal'] eqn:E.
    { rewrite parseMatchersLoop_nil. discriminate. }
    rewrite <- E in *.
    assert (Hpos : 0 < len optVal) by (subst optVal; unfold len; simpl; lia).
    rewrite parseMatchersLoop_step by exact Hpos. abi.
    destruct (Z.ltb_spec (len optVal) 32); [discriminate |].
    destruct (Z.ltb_spec (declaredMatchSize optVal) 32); [discriminate |].
    destruct (Z.ltb_spec (len optVal) (declaredMatchSize optVal));
      [discriminate |].
    cbn zeta.
    destruct (unmarshalMatcher _ _ _) eqn:Eu; cbn [mapErr bind].
    + apply IH; [exact Hreg |]. rewrite length_drop. unfold len in *. lia.
    + discriminate.
    + exfalso. exact (Hreg _ _ _ Eu).
Qed.

(** A successful loop has split the region into whole blocks and leaves
    nothing. *)
Lemma parseMatchersLoop_Ok fuel : forall filter optVal acc ms rest,
  parseMatchersLoop fuel filter optVal acc = Ok (ms, rest) ->
  rest = []
  /\ exists blocks new,
       ms = acc ++ new
       /\ optVal = concat blocks
       /\ Forall2 (matcherBlock filter) blocks new.
Proof.
  induction fuel as [| fuel IH]; intros filter optVal acc ms rest H.
  - destruct optVal; [| discriminate H].
    cbn in H. injection H as <- <-. split; [reflexivity |].
    exists [], []. rewrite app_nil_r. auto using Forall2_nil.
  - destruct optVal as [| b optVal'] eqn:E.
    { rewrite parseMatchersLoop_nil in H. injection H as <- <-.
      split; [reflexivity |].
      exists [], []. rewrite app_nil_r. auto using Forall2_nil. }
    rewrite <- E in *.
    assert (Hpos : 0 < len optVal) by (subst optVal; unfold len; simpl; lia).
    rewrite parseMatchersLoop_step in H by exact Hpos. abi.
    destruct (Z.ltb_spec (len optVal) 32); [discriminate H |].
    destruct (Z.ltb_spec (declaredMatchSize optVal) 32); [discriminate H |].
    destruct (Z.ltb_spec (len optVal) (declaredMatchSize optVal));
      [discriminate H |].
    cbn zeta in H.
    destruct (unmarshalMatcher _ _ _) as [m | |] eqn:Eu;
      cbn [mapErr bind] in H; try discriminate H.
    apply IH in H. destruct H as [-> (blocks & new & -> & Hcat & Hall)].
    split; [reflexivity |].
    set (size := Z.to_nat (declaredMatchSize optVal)) in *.
    exists (take size optVal :: blocks), (m :: new).
    split; [rewrite <- app_assoc; reflexivity |].
    split; [cbn [concat]; rewrite <- Hcat, take_drop; reflexivity |].
    constructor; [| exact Hall].
    assert (Hhdr : matchHeader (take size optVal) = matchHeader optVal).
    { unfold matchHeader. rewrite take_take. f_equal. f_equal. lia. }
    unfold matcherBlock, declaredMatchSize. rewrite Hhdr.
    fold (declaredMatchSize optVal). abi.
    unfold len at 1 2. rewrite length_take. unfold len in *.
    repeat split; [lia | lia | exact Eu].
Qed.

(** A region made of whole blocks parses to their matchers. *)
Lemma parseMatchersLoop_blocks filter blocks : forall new fuel rest acc,
  Forall2 (matcherBlock filter) blocks new ->
  (length (concat blocks ++ rest) <= fuel)%nat ->
  parseMatchersLoop fuel filter (concat blocks ++ rest) acc
  = parseMatchersLoop (length rest) filter rest (acc ++ new).
Proof.
  induction blocks as [| blk blocks IH]; intros new fuel rest acc Hall Hfuel.
  - inversion Hall; subst. rewrite app_nil_r. cbn [concat app] in *.
    apply parseMatchersLoop_fuel; lia.
  - inversion Hall as [| ? m ? new' (Hlen & Hsize & Hun) Hall']; subst.
    cbn [concat] in *. rewrite <- app_assoc in *. abi.
    assert (Hpos : 0 < len (blk ++ concat blocks ++ rest))
      by (rewrite len_app; pose proof (len_nonneg (concat blocks ++ rest)); lia).
    destruct fuel as [| fuel];
      [unfold len in Hpos; lia |].
    rewrite parseMatchersLoop_step by exact Hpos. abi.
    assert (Hhdr : matchHeader (blk ++ concat blocks ++ rest) = matchHeader blk).
    { unfold matchHeader. rewrite take_app_le by (unfold len in Hlen; lia).
      reflexivity. }
    unfold declaredMatchSize in *. rewrite Hhdr, Hsize.
    pose proof (len_nonneg (concat blocks ++ rest)) as Hnn.
    rewrite len_app.
    destruct (Z.ltb_spec (len blk + len (concat blocks ++ rest)) 32); [lia |].
    destruct (Z.ltb_spec (len blk) 32); [lia |].
    destruct (Z.ltb_spec (len blk + len (concat blocks ++ rest)) (len blk));
      [lia |].
    cbn zeta. unfold len at 1 2. rewrite Nat2Z.id.
    rewrite take_app_length, drop_app_length, Hun. cbn [mapErr bind].
    rewrite (IH new' fuel rest (acc ++ [m]) Hall').
    + rewrite <- app_assoc. reflexivity.
    + rewrite length_app in Hfuel. unfold len in Hlen. lia.
Qed.

End MatcherProofs.

Section EntryProofs.
Context {MM : MatchMakers}.
Import linux iptables.

Lemma invalid_Ok {A} (r : Result error A) a : invalid r = Ok a <-> r = Ok a.
Proof. apply mapErr_Ok. Qed.

Lemma invalid_Err {A} (r : Result error A) e :
  invalid r = Err e -> e = ErrInvalidArgument.
Proof. destruct r; simpl; congruence. Qed.

(** One turn of the loop over the entries, once the entry header
    fits. *)
Lemma parseEntry_eq optVal :
  SizeOfIPTEntry <= len optVal ->
  parseEntry optVal =
    let entry := entryHeaderOf optVal in
    let body := drop 112 optVal in
    if TargetOffset entry <? SizeOfIPTEntry then Err ErrInvalidArgument
    else
      let* filter := invalid (filterFromIPTIP (IP entry)) in
      let matchersSize := wrap16 (TargetOffset entry - SizeOfIPTEntry) in
      if len body <? matchersSize then Err ErrInvalidArgument
      else
        let* matchers :=
          invalid (parseMatchers filter (take (Z.to_nat matchersSize) body)) in
        let body' := drop (Z.to_nat matchersSize) body in
        let targetSize := wrap16 (NextOffset entry - TargetOffset entry) in
        if len body' <? targetSize then Err ErrInvalidArgument
        else
          let* target :=
            invalid (parseTarget (take (Z.to_nat targetSize) body')) in
          Ok ({| Filter := filter; Matchers := matchers;
                 Rule_Target := target |},
              NextOffset entry, drop (Z.to_nat targetSize) body').
Proof.
  intros Hlen. unfold parseEntry. abi.
  destruct (Z.ltb_spec (len optVal) 112); [lia |].
  rewrite slice_to_Ok by lia. cbn [bind].
  unfold binary.UnmarshalIPTEntry. abi. rewrite len_take by lia.
  change (112 <? 112) with false. cbn [bind].
  rewrite slice_from_Ok by lia. cbn [bind].
  change (binary.decodeIPTEntry (take (Z.to_nat 112) optVal))
    with (entryHeaderOf optVal).
  change (Z.to_nat 112) with 112%nat. cbn zeta.
  destruct (TargetOffset (entryHeaderOf optVal) <? 112); [reflexivity |].
  destruct (invalid (filterFromIPTIP (IP (entryHeaderOf optVal))))
    as [filter | |]; cbn [bind]; try reflexivity.
  pose proof (wrap16_range (TargetOffset (entryHeaderOf optVal) - 112)) as Hm.
  destruct (Z.ltb_spec (len (drop 112 optVal))
              (wrap16 (TargetOffset (entryHeaderOf optVal) - 112)));
    [reflexivity |].
  rewrite slice_to_Ok by lia. cbn [bind].
  destruct (invalid (parseMatchers filter _)) as [matchers | |];
    cbn [bind]; try reflexivity.
  rewrite slice_from_Ok by lia. cbn [bind].
  pose proof (wrap16_range (NextOffset (entryHeaderOf optVal)
                            - TargetOffset (entryHeaderOf optVal))) as Ht.
  destruct (Z.ltb_spec
              (len (drop (Z.to_nat (wrap16 (TargetOffset (entryHeaderOf optVal) - 112)))
                         (drop 112 optVal)))
              (wrap16 (NextOffset (entryHeaderOf optVal)
                       - TargetOffset (entryHeaderOf optVal))));
    [reflexivity |].
  rewrite slice_to_Ok by lia. cbn [bind].
  destruct (invalid (parseTarget _)) as [target | |];
    cbn [bind]; try reflexivity.
  rewrite slice_from_Ok by lia. reflexivity.
Qed.

Lemma parseEntry_short optVal :
  len optVal < SizeOfIPTEntry -> parseEntry optVal = Err ErrInvalidArgument.
Proof.
  intros H. unfold parseEntry.
  destruct (Z.ltb_spec (len optVal) SizeOfIPTEntry); [reflexivity | lia].
Qed.

Lemma parseMatchers_not_Panic filter optVal :
  unmarshalNeverPanics -> parseMatchers filter optVal <> Panic.
Proof.
  intros Hreg. unfold parseMatchers.
  destruct (parseMatchersLoop _ _ _ _) as [[ms rest] | |] eqn:E;
    cbn [bind]; try discriminate.
  - destruct (negb (len rest =? 0)); discriminate.
  - exfalso. revert E. apply parseMatchersLoop_not_Panic; [exact Hreg | lia].
Qed.

(** A turn yields a rule or the invalid-argument error. *)
Lemma parseEntry_outcome optVal :
  unmarshalNeverPanics ->
  (exists r, parseEntry optVal = Ok r)
  \/ parseEntry optVal = Err ErrInvalidArgument.
Proof.
  intros Hreg.
  destruct (Z.lt_ge_cases (len optVal) SizeOfIPTEntry) as [H | H].
  { right. apply parseEntry_short, H. }
  rewrite parseEntry_eq by exact H. cbn zeta.
  destruct (_ <? SizeOfIPTEntry); [right; reflexivity |].
  unfold filterFromIPTIP.
  destruct (containsUnsupportedFields _); cbn [invalid mapErr bind];
    [right; reflexivity |].
  destruct (_ <? _); [right; reflexivity |].
  destruct (parseMatchers _ _) as [ms | e |] eqn:Em; cbn [mapErr bind];
    [| right; reflexivity | exfalso; revert Em; apply parseMatchers_not_Panic, Hreg].
  destruct (_ <? _); [right; reflexivity |].
  destruct (parseTarget _) as [t | e |] eqn:Et; cbn [mapErr bind];
    [left; eauto | right; reflexivity
    | exfalso; revert Et; apply parseTarget_not_Panic].
Qed.

(** Bytes after the entry do not change what a turn reads. *)
Lemma parseEntry_app optVal extra rule next rest :
  parseEntry optVal = Ok (rule, next, rest) ->
  parseEntry (optVal ++ extra) = Ok (rule, next, rest ++ extra).
Proof.
  destruct (Z.lt_ge_cases (len optVal) SizeOfIPTEntry) as [H | H].
  { rewrite parseEntry_short by exact H. discriminate. }
  assert (H' : SizeOfIPTEntry <= len (optVal ++ extra))
    by (rewrite len_app; pose proof (len_nonneg extra); lia).
  rewrite (parseEntry_eq optVal H), (parseEntry_eq _ H'). abi. cbn zeta.
  assert (Hhdr : entryHeaderOf (optVal ++ extra) = entryHeaderOf optVal).
  { unfold entryHeaderOf. rewrite take_app_le by (unfold len in H; lia).
    reflexivity. }
  rewrite Hhdr. set (entry := entryHeaderOf optVal).
  rewrite drop_app_le by (unfold len in H; lia).
  set (body := drop 112 optVal).
  destruct (TargetOffset entry <? 112); [discriminate |].
  destruct (invalid (filterFromIPTIP (IP entry))) as [filter | |];
    cbn [bind]; try discriminate.
  pose proof (wrap16_range (TargetOffset entry - 112)) as Hm.
  set (msize := wrap16 (TargetOffset entry - 112)) in *.
  rewrite len_app. pose proof (len_nonneg extra) as Hx.
  destruct (Z.ltb_spec (len body) msize); [discriminate |].
  destruct (Z.ltb_spec (len body + len extra) msize); [lia |].
  rewrite take_app_le by (unfold len in *; lia).
  destruct (invalid (parseMatchers filter _)) as [matchers | |];
    cbn [bind]; try discriminate.
  rewrite drop_app_le by (unfold len in *; lia).
  set (body' := drop (Z.to_nat msize) body).
  pose proof (wrap16_range (NextOffset entry - TargetOffset entry)) as Ht.
  set (tsize := wrap16 (NextOffset entry - TargetOffset entry)) in *.
  rewrite len_app.
  destruct (Z.ltb_spec (len body') tsize); [discriminate |].
  destruct (Z.ltb_spec (len body' + len extra) tsize); [lia |].
  rewrite take_app_le by (unfold len in *; lia).
  destruct (invalid (parseTarget _)) as [target | |];
    cbn [bind]; try discriminate.
  rewrite drop_app_le by (unfold len in *; lia).
  intros [= <- <- <-]. reflexivity.
Qed.

End EntryProofs.

Section EntriesProofs.
Context {MM : MatchMakers}.
Import linux iptables.

(** The loop over the entries appends one rule and one offset a turn and
    leaves the rest of the table alone. *)
Lemma parseEntries_Ok n : forall optVal offset table offsets table' offsets',
  parseEntries n optVal offset table offsets = Ok (table', offsets') ->
  BuiltinChains table' = BuiltinChains table
  /\ Underflows table' = Underflows table
  /\ UserChains table' = UserChains table
  /\ Table_metadata table' = Table_metadata table
  /\ length (Rules table') = (length (Rules table) + n)%nat
  /\ length offsets' = (length offsets + n)%nat.
Proof.
  induction n as [| n IH]; intros optVal offset table offsets table' offsets' H.
  - cbn in H. injection H as <- <-. repeat split; lia.
  - cbn [parseEntries] in H.
    destruct (parseEntry optVal) as [[[rule next] rest] | |];
      cbn [bind] in H; try discriminate H.
    apply IH in H. cbn [appendRule BuiltinChains Underflows UserChains
                          Table_metadata Rules] in H.
    rewrite !length_app in H. cbn [length] in H.
    destruct H as (-> & -> & -> & -> & -> & ->). repeat split; lia.
Qed.

Lemma parseEntries_outcome n : forall optVal offset table offsets,
  unmarshalNeverPanics ->
  (exists r, parseEntries n optVal offset table offsets = Ok r)
  \/ parseEntries n optVal offset table offsets = Err ErrInvalidArgument.
Proof.
  induction n as [| n IH]; intros optVal offset table offsets Hreg.
  - left. cbn. eauto.
  - cbn [parseEntries].
    destruct (parseEntry_outcome optVal Hreg) as [[[[rule next] rest] ->] | ->];
      cbn [bind]; [apply IH, Hreg | right; reflexivity].
Qed.

(** Bytes after the last entry are never read. *)
Lemma parseEntries_app n extra : forall optVal offset table offsets r,
  parseEntries n optVal offset table offsets = Ok r ->
  parseEntries n (optVal ++ extra) offset table offsets = Ok r.
Proof.
  induction n as [| n IH]; intros optVal offset table offsets r H.
  - exact H.
  - cbn [parseEntries] in *.
    destruct (parseEntry optVal) as [[[rule next] rest] | |] eqn:E;
      cbn [bind] in H; try discriminate H.
    rewrite (parseEntry_app _ extra _ _ _ E). cbn [bind].
    apply IH, H.
Qed.

End EntriesProofs.

Section HookMask.
Import linux iptables.

Lemma land_bit x h :
  0 <= h -> (Z.land x (Z.shiftl 1 h) =? 0) = negb (Z.testbit x h).
Proof.
  intros Hh. rewrite Z.shiftl_1_l.
  destruct (Z.testbit x h) eqn:Hb; cbn [negb].
  - apply Z.eqb_neq. intros H0.
    assert (Hc : Z.testbit (Z.land x (2 ^ h)) h = true)
      by (rewrite Z.land_spec, Hb, Z.pow2_bits_true; auto).
    rewrite H0, Z.bits_0 in Hc. discriminate.
  - apply Z.eqb_eq. apply Z.bits_inj'. intros n Hn.
    rewrite Z.land_spec, Z.bits_0, Z.pow2_bits_eqb by exact Hh.
    destruct (Z.eqb_spec h n) as [-> | ?];
      [rewrite Hb; reflexivity | apply andb_false_r].
Qed.

Lemma hook_mask_bits (l : list (N * Z)) h :
  0 <= h ->
  Z.testbit
    (foldr (fun '(hook, _) hooks => Z.lor hooks (Z.shiftl 1 (Z.of_N hook)))
           0 l) h = true
  <-> exists k v, (k, v) ∈ l /\ Z.of_N k = h.
Proof.
  intros Hh. induction l as [| [k v] l IH]; cbn [foldr].
  - rewrite Z.bits_0. split; [discriminate |].
    intros (k & v & Hin & _). inversion Hin.
  - rewrite Z.lor_spec, orb_true_iff, IH, Z.shiftl_1_l,
      Z.pow2_bits_eqb by lia.
    split.
    + intros [(k' & v' & Hin & Hk) | Hk].
      * exists k', v'. split; [right; exact Hin | exact Hk].
      * apply Z.eqb_eq in Hk. exists k, v. split; [left | exact Hk].
    + intros (k' & v' & Hin & Hk). inversion Hin; subst.
      * right. apply Z.eqb_eq. reflexivity.
      * left. eauto.
Qed.

(** A hook's bit is set in [ValidHooks] exactly when the hook is a key of
    [BuiltinChains]. *)
Lemma validHook_iff {Matcher} (table : Table Matcher) h :
  0 <= h ->
  negb (Z.land (ValidHooks table) (Z.shiftl 1 h) =? 0) = true
  <-> is_Some (BuiltinChains table !! Z.to_N h).
Proof.
  intros Hh. rewrite land_bit, negb_involutive by exact Hh.
  unfold ValidHooks. rewrite hook_mask_bits by exact Hh. split.
  - intros (k & v & Hin & <-). rewrite N2Z.id.
    apply elem_of_map_to_list in Hin. eauto.
  - intros [v Hv]. exists (Z.to_N h), v.
    split; [apply elem_of_map_to_list, Hv | lia].
Qed.

End HookMask.

Section HookProofs.
Context {MM : MatchMakers}.
Import linux iptables.

Local Abbreviation Table := (iptables.Table Matcher).

Lemma array_get_Ok {E} (a : list Z) i v :
  0 <= i -> a !! Z.to_nat i = Some v -> array_get (E := E) a i = Ok v.
Proof.
  intros Hi Hv. unfold array_get. rewrite Hv.
  apply lookup_lt_Some in Hv. unfold len.
  destruct (Z.leb_spec 0 i); [| lia].
  destruct (Z.ltb_spec i (Z.of_nat (length a))); [reflexivity | lia].
Qed.

Lemma map_get_Some (m : gmap N Z) k v : m !! k = Some v -> map_get m k = v.
Proof. intros H. unfold map_get. rewrite H. reflexivity. Qed.

Lemma map_get_insert (m : gmap N Z) k v : map_get (<[k := v]> m) k = v.
Proof. apply map_get_Some, lookup_insert_eq. Qed.

Lemma hookFromLinux_Some h :
  0 <= h < 5 -> hookFromLinux h = Some (Z.to_N h).
Proof.
  intros Hh. assert (h = 0 \/ h = 1 \/ h = 2 \/ h = 3 \/ h = 4) as Hc by lia.
  destruct Hc as [-> | [-> | [-> | [-> | ->]]]]; reflexivity.
Qed.

(** The loop over [offsets] for one hook: each of the two maps is left as
    it was, when the declared offset is none of [offsets], or holds for
    the hook the index of an entry that starts at the declared offset. *)
Lemma setHook_fold replace hook hk hookEntry underflow offsets :
  array_get (E := syserr) (Replace_HookEntry replace) hook = Ok hookEntry ->
  array_get (E := syserr) (Replace_Underflow replace) hook = Ok underflow ->
  forall start (table : Table),
  exists table',
    foldM (setHook replace hook hk)
          (zip (map Z.of_nat (seq start (length offsets))) offsets) table
    = Ok table'
    /\ Rules table' = Rules table
    /\ UserChains table' = UserChains table
    /\ Table_metadata table' = Table_metadata table
    /\ ((BuiltinChains table' = BuiltinChains table /\ hookEntry ∉ offsets)
        \/ exists i, offsets !! i = Some hookEntry
             /\ BuiltinChains table'
                = <[hk := Z.of_nat (start + i)]> (BuiltinChains table))
    /\ ((Underflows table' = Underflows table /\ underflow ∉ offsets)
        \/ exists j, offsets !! j = Some underflow
             /\ Underflows table'
                = <[hk := Z.of_nat (start + j)]> (Underflows table)).
Proof.
  intros Hhe Huf. induction offsets as [| o offsets IH]; intros start table.
  - exists table. cbn [length seq map zip zip_with foldM].
    do 4 (split; [reflexivity |]).
    split; left; (split; [reflexivity | apply not_elem_of_nil]).
  - cbn [length seq map zip zip_with foldM].
    unfold setHook at 1. rewrite Hhe, Huf. cbn [bind].
    match goal with
    | |- context [foldM _ _ ?t] => set (table1 := t)
    end.
    destruct (IH (S start) table1)
      as (table' & Hrun & HR & HU & HM & HB & HF).
    exists table'. split; [exact Hrun |].
    assert (H1 : Rules table1 = Rules table
                 /\ UserChains table1 = UserChains table
                 /\ Table_metadata table1 = Table_metadata table).
    { subst table1. destruct (o =? hookEntry), (o =? underflow);
        repeat split; reflexivity. }
    destruct H1 as (HR1 & HU1 & HM1).
    split; [congruence |]. split; [congruence |]. split; [congruence |].
    split.
    + assert (HB1 : BuiltinChains table1
                    = if o =? hookEntry
                      then <[hk := Z.of_nat start]> (BuiltinChains table)
                      else BuiltinChains table).
      { subst table1. destruct (o =? hookEntry), (o =? underflow);
          reflexivity. }
      destruct HB as [[HB Hnot] | (i & Hi & HB)].
      * destruct (Z.eqb_spec o hookEntry) as [-> | Hne].
        -- right. exists 0%nat. split; [reflexivity |].
           rewrite HB, HB1, Nat.add_0_r. reflexivity.
        -- left. split; [congruence |].
           rewrite not_elem_of_cons. auto.
      * right. exists (S i). split; [exact Hi |].
        rewrite HB, HB1.
        destruct (o =? hookEntry);
          [rewrite insert_insert_eq |]; do 2 f_equal; lia.
    + assert (HF1 : Underflows table1
                    = if o =? underflow
                      then <[hk := Z.of_nat start]> (Underflows table)
                      else Underflows table).
      { subst table1. destruct (o =? hookEntry), (o =? underflow);
          reflexivity. }
      destruct HF as [[HF Hnot] | (j & Hj & HF)].
      * destruct (Z.eqb_spec o underflow) as [-> | Hne].
        -- right. exists 0%nat. split; [reflexivity |].
           rewrite HF, HF1, Nat.add_0_r. reflexivity.
        -- left. split; [congruence |].
           rewrite not_elem_of_cons. auto.
      * right. exists (S j). split; [exact Hj |].
        rewrite HF, HF1.
        destruct (o =? underflow);
          [rewrite insert_insert_eq |]; do 2 f_equal; lia.
Qed.

(** A hook that is no key of [BuiltinChains] is skipped. *)
Lemma resolveHook_skip replace offsets (table : Table) h :
  0 <= h -> BuiltinChains table !! Z.to_N h = None ->
  resolveHook replace offsets table h = Ok table.
Proof.
  intros Hh Hnone. unfold resolveHook.
  destruct (negb _) eqn:Hv; [| reflexivity].
  apply validHook_iff in Hv; [| exact Hh].
  rewrite Hnone in Hv. destruct Hv as [? Hv]. discriminate Hv.
Qed.

(** A hook that is unset in both maps either resolves, to entries that
    start at the two declared offsets, or is rejected. *)
Lemma resolveHook_unset replace offsets (table : Table) h hookEntry underflow :
  0 <= h < 5 ->
  Replace_HookEntry replace !! Z.to_nat h = Some hookEntry ->
  Replace_Underflow replace !! Z.to_nat h = Some underflow ->
  BuiltinChains table !! Z.to_N h = Some HookUnset ->
  Underflows table !! Z.to_N h = Some HookUnset ->
  (resolveHook replace offsets table h = Err ErrInvalidArgument
   /\ (hookEntry ∉ offsets \/ underflow ∉ offsets))
  \/ exists table' i j,
       resolveHook replace offsets table h = Ok table'
       /\ Rules table' = Rules table
       /\ UserChains table' = UserChains table
       /\ Table_metadata table' = Table_metadata table
       /\ offsets !! i = Some hookEntry
       /\ offsets !! j = Some underflow
       /\ BuiltinChains table'
          = <[Z.to_N h := Z.of_nat i]> (BuiltinChains table)
       /\ Underflows table'
          = <[Z.to_N h := Z.of_nat j]> (Underflows table).
Proof.
  intros Hh Hhe Huf HB0 HF0. unfold resolveHook.
  assert (Hv : negb (Z.land (ValidHooks table) (Z.shiftl 1 h) =? 0) = true)
    by (apply validHook_iff; [lia | rewrite HB0; eauto]).
  rewrite Hv, hookFromLinux_Some by exact Hh. cbn [orPanic bind].
  destruct (setHook_fold replace h (Z.to_N h) hookEntry underflow offsets
              (array_get_Ok _ _ _ (proj1 Hh) Hhe)
              (array_get_Ok _ _ _ (proj1 Hh) Huf) 0%nat table)
    as (table' & Hrun & HR & HU & HM & HB & HF).
  unfold indexed. rewrite Hrun. cbn [bind].
  destruct HB as [[HB Hnot] | (i & Hi & HB)].
  { left. rewrite HB, (map_get_Some _ _ _ HB0), Z.eqb_refl.
    split; [reflexivity | left; exact Hnot]. }
  rewrite HB, map_get_insert.
  destruct (Z.eqb_spec (Z.of_nat (0 + i)) HookUnset) as [Habs | _];
    [unfold HookUnset in Habs; lia |].
  destruct HF as [[HF Hnot] | (j & Hj & HF)].
  { left. rewrite HF, (map_get_Some _ _ _ HF0), Z.eqb_refl.
    split; [reflexivity | right; exact Hnot]. }
  rewrite HF, map_get_insert.
  destruct (Z.eqb_spec (Z.of_nat (0 + j)) HookUnset) as [Habs | _];
    [unfold HookUnset in Habs; lia |].
  right. exists table', i, j. rewrite HB, HF. repeat split; auto.
Qed.

End HookProofs.

Section ResolveProofs.
Context {MM : MatchMakers}.
Import linux iptables.

Local Abbreviation Table := (iptables.Table Matcher).

Lemma filter_keys (m : gmap N Z) (a b c : Z) hook idx :
  <[Output := c]> (<[Forward := b]> (<[Input := a]> m)) !! hook = Some idx ->
  (forall k, m !! k = BuiltinChains (EmptyFilterTable (Matcher := Matcher)) !! k) ->
  (hook = Input /\ idx = a) \/ (hook = Forward /\ idx = b)
  \/ (hook = Output /\ idx = c).
Proof.
  intros H Hm.
  destruct (decide (hook = Output)) as [-> | H3].
  { rewrite lookup_insert_eq in H. injection H as <-. auto. }
  rewrite lookup_insert_ne in H by congruence.
  destruct (decide (hook = Forward)) as [-> | H2].
  { rewrite lookup_insert_eq in H. injection H as <-. auto. }
  rewrite lookup_insert_ne in H by congruence.
  destruct (decide (hook = Input)) as [-> | H1].
  { rewrite lookup_insert_eq in H. injection H as <-. auto. }
  rewrite lookup_insert_ne in H by congruence.
  rewrite Hm in H. cbn [EmptyFilterTable BuiltinChains] in H.
  rewrite !lookup_insert_ne, lookup_empty in H by congruence.
  discriminate H.
Qed.

(** The loop over the hooks, from a table with fresh chains: either some
    hook of the filter table has a declared offset at which no entry
    begins, and the blob is rejected, or the three hooks resolve. *)
Lemma resolveHooks_filter replace offsets (table : Table) :
  length (Replace_HookEntry replace) = 5%nat ->
  length (Replace_Underflow replace) = 5%nat ->
  freshChains table ->
  (resolveHooks replace offsets table = Err ErrInvalidArgument
   /\ exists h he uf, filterHook h
        /\ Replace_HookEntry replace !! N.to_nat h = Some he
        /\ Replace_Underflow replace !! N.to_nat h = Some uf
        /\ (he ∉ offsets \/ uf ∉ offsets))
  \/ exists (t' : Table) (i1 i2 i3 j1 j2 j3 : nat),
       resolveHooks replace offsets table = Ok t'
       /\ Rules t' = Rules table
       /\ UserChains t' = UserChains table
       /\ Table_metadata t' = Table_metadata table
       /\ is_Some (offsets !! i1) /\ is_Some (offsets !! i2)
       /\ is_Some (offsets !! i3)
       /\ is_Some (offsets !! j1) /\ is_Some (offsets !! j2)
       /\ is_Some (offsets !! j3)
       /\ offsets !! i1 = Replace_HookEntry replace !! 1%nat
       /\ offsets !! i2 = Replace_HookEntry replace !! 2%nat
       /\ offsets !! i3 = Replace_HookEntry replace !! 3%nat
       /\ offsets !! j1 = Replace_Underflow replace !! 1%nat
       /\ offsets !! j2 = Replace_Underflow replace !! 2%nat
       /\ offsets !! j3 = Replace_Underflow replace !! 3%nat
       /\ BuiltinChains t'
          = <[Output := Z.of_nat i3]>
              (<[Forward := Z.of_nat i2]>
                 (<[Input := Z.of_nat i1]> (BuiltinChains table)))
       /\ Underflows t'
          = <[Output := Z.of_nat j3]>
              (<[Forward := Z.of_nat j2]>
                 (<[Input := Z.of_nat j1]> (Underflows table))).
Proof.
  intros HlenE HlenU [HB0 HF0]. unfold resolveHooks.
  destruct (Replace_HookEntry replace)
    as [| e0 [| e1 [| e2 [| e3 [| e4 [| ? ?]]]]]] eqn:EE;
    try discriminate HlenE.
  destruct (Replace_Underflow replace)
    as [| u0 [| u1 [| u2 [| u3 [| u4 [| ? ?]]]]]] eqn:EU;
    try discriminate HlenU.
  change (map fst (indexed [e0; e1; e2; e3; e4])) with [0; 1; 2; 3; 4].
  cbn [foldM].
  (* hook 0: not a chain of the table *)
  rewrite (resolveHook_skip replace offsets table 0)
    by (try lia; change (Z.to_N 0) with 0%N; rewrite HB0; reflexivity).
  cbn [bind].
  (* hook 1 *)
  destruct (resolveHook_unset replace offsets table 1 e1 u1)
    as [[-> Hbad] | (t1 & i1 & j1 & -> & HR1 & HU1 & HM1 & Hi1 & Hj1 & HB1 & HF1)];
    try lia; try (rewrite ?EE, ?EU; reflexivity);
    try (change (Z.to_N 1) with 1%N; rewrite ?HB0, ?HF0; reflexivity).
  { left. split; [reflexivity |]. exists Input, e1, u1.
    unfold filterHook. auto 10. }
  cbn [bind]. change (Z.to_N 1) with Input in *.
  (* hook 2 *)
  destruct (resolveHook_unset replace offsets t1 2 e2 u2)
    as [[-> Hbad] | (t2 & i2 & j2 & -> & HR2 & HU2 & HM2 & Hi2 & Hj2 & HB2 & HF2)];
    try lia; try (rewrite ?EE, ?EU; reflexivity);
    try (change (Z.to_N 2) with 2%N; rewrite ?HB1, ?HF1, ?HB0, ?HF0;
         reflexivity).
  { left. split; [reflexivity |]. exists Forward, e2, u2.
    unfold filterHook. auto 10. }
  cbn [bind]. change (Z.to_N 2) with Forward in *.
  (* hook 3 *)
  destruct (resolveHook_unset replace offsets t2 3 e3 u3)
    as [[-> Hbad] | (t3 & i3 & j3 & -> & HR3 & HU3 & HM3 & Hi3 & Hj3 & HB3 & HF3)];
    try lia; try (rewrite ?EE, ?EU; reflexivity);
    try (change (Z.to_N 3) with 3%N;
         rewrite ?HB2, ?HF2, ?HB1, ?HF1, ?HB0, ?HF0; reflexivity).
  { left. split; [reflexivity |]. exists Output, e3, u3.
    unfold filterHook. auto 10. }
  cbn [bind]. change (Z.to_N 3) with Output in *.
  (* hook 4: not a chain of the table *)
  rewrite (resolveHook_skip replace offsets t3 4)
    by (try lia; change (Z.to_N 4) with 4%N;
        rewrite HB3, HB2, HB1, HB0; reflexivity).
  right. exists t3, i1, i2, i3, j1, j2, j3.
  rewrite HB3, HB2, HB1, HF3, HF2, HF1.
  repeat split; try congruence; eauto.
Qed.

End ResolveProofs.

Section DecodeProofs.
Context {MM : MatchMakers}.
Import linux iptables.

Local Abbreviation Table := (iptables.Table Matcher).

(** The check of one chain that is the input chain or starts at a rule
    of the table. *)
Lemma checkChain_cases (table : Table) hook idx :
  (hook <> Input -> 0 <= idx < len (Rules table)) ->
  (checkChain table tt (hook, idx) = Ok tt
   /\ (hook <> Input ->
       exists rule, Rules table !! Z.to_nat idx = Some rule
         /\ Rule_Target rule = UnconditionalAcceptTarget))
  \/ (checkChain table tt (hook, idx) = Err ErrInvalidArgument
      /\ hook <> Input
      /\ exists rule, Rules table !! Z.to_nat idx = Some rule
           /\ Rule_Target rule <> UnconditionalAcceptTarget).
Proof.
  intros Hrange. unfold checkChain.
  destruct (N.eqb_spec hook Input) as [-> | Hne]; cbn [negb].
  { left. split; [reflexivity | congruence]. }
  destruct (Hrange Hne) as [Hlo Hhi].
  destruct (Z.leb_spec 0 idx); [| lia].
  destruct (Z.ltb_spec idx (len (Rules table))); [| lia].
  cbn [andb].
  destruct (Rules table !! Z.to_nat idx) as [rule |] eqn:Hrule.
  2:{ apply lookup_ge_None in Hrule. unfold len in *. lia. }
  cbn [orPanic bind].
  destruct (Rule_Target rule) eqn:Ht;
    [left; split; [reflexivity | intros _; exists rule; auto] | | |];
    right; (split; [reflexivity |]); (split; [exact Hne |]);
    exists rule; (split; [reflexivity |]); congruence.
Qed.

(** The loop over the chains, when every chain but the input chain
    starts at a rule of the table: it passes when all these rules accept
    and rejects the table otherwise, in whatever order it visits the
    chains. *)
Lemma checkChains_fold (table : Table) (chains : list (N * Z)) :
  (forall hook idx, (hook, idx) ∈ chains -> hook <> Input ->
     0 <= idx < len (Rules table)) ->
  (foldM (checkChain table) chains tt = Ok tt
   /\ forall hook idx, (hook, idx) ∈ chains -> hook <> Input ->
        exists rule, Rules table !! Z.to_nat idx = Some rule
          /\ Rule_Target rule = UnconditionalAcceptTarget)
  \/ (foldM (checkChain table) chains tt = Err ErrInvalidArgument
      /\ exists hook idx rule, (hook, idx) ∈ chains /\ hook <> Input
           /\ Rules table !! Z.to_nat idx = Some rule
           /\ Rule_Target rule <> UnconditionalAcceptTarget).
Proof.
  induction chains as [| [hook idx] chains IH]; intros Hrange.
  - left. split; [reflexivity |]. intros ? ? Hin. inversion Hin.
  - cbn [foldM].
    assert (Hrange' : forall hook idx, (hook, idx) ∈ chains ->
              hook <> Input -> 0 <= idx < len (Rules table))
      by (intros; apply (Hrange hook0); [right |]; assumption).
    specialize (IH Hrange').
    destruct (checkChain_cases table hook idx)
      as [[-> Hacc] | (-> & Hne & rule & Hrule & Ht)];
      [intros Hne; apply (Hrange hook); [left | exact Hne] | |];
      cbn [bind].
    + destruct IH as [[Hok Hall] | [Herr (h & i & r & Hin & Hrest)]].
      * left. split; [exact Hok |].
        intros h i Hin Hh. inversion Hin; subst; eauto.
      * right. split; [exact Herr |].
        exists h, i, r. split; [right; exact Hin | exact Hrest].
    + right. split; [reflexivity |].
      exists hook, idx, rule. split; [left | auto].
Qed.

Lemma decodeIPTReplace_lengths buf :
  length (Replace_HookEntry (binary.decodeIPTReplace buf)) = 5%nat
  /\ length (Replace_Underflow (binary.decodeIPTReplace buf)) = 5%nat.
Proof. split; reflexivity. Qed.

(** What the first part of [SetEntries] has read when it succeeds. *)
Lemma parseReplace_Ok optVal replace table offsets :
  parseReplace optVal = Ok (replace, table, offsets) <->
  SizeOfIPTReplace <= len optVal
  /\ replace = replaceHeaderOf optVal
  /\ name_String (Replace_Name replace) = TablenameFilter
  /\ parseEntries (Z.to_nat (Replace_NumEntries replace)) (drop 96 optVal) 0
                  EmptyFilterTable []
     = Ok (table, offsets).
Proof.
  unfold parseReplace. abi.
  destruct (Z.ltb_spec (len optVal) 96).
  { split; [discriminate | intros [? _]; lia]. }
  rewrite slice_to_Ok, slice_from_Ok by lia. cbn [bind].
  unfold binary.UnmarshalIPTReplace. abi. rewrite len_take by lia.
  change (96 <? 96) with false. cbn [bind].
  change (binary.decodeIPTReplace (take (Z.to_nat 96) optVal))
    with (replaceHeaderOf optVal).
  change (Z.to_nat 96) with 96%nat.
  destruct (String.eqb_spec
              (name_String (Replace_Name (replaceHeaderOf optVal)))
              TablenameFilter) as [En | En].
  - destruct (parseEntries _ _ _ _ _) as [[t o] | |] eqn:Ep; cbn [bind].
    + split.
      * intros [= <- <- <-]. auto.
      * intros (_ & -> & _ & Hp). rewrite Ep in Hp.
        injection Hp as <- <-. reflexivity.
    + split; [discriminate |]. intros (_ & -> & _ & Hp). congruence.
    + split; [discriminate |]. intros (_ & -> & _ & Hp). congruence.
  - split; [discriminate |]. intros (_ & -> & Hn & _). contradiction.
Qed.

Lemma parseReplace_outcome optVal :
  unmarshalNeverPanics ->
  (exists r, parseReplace optVal = Ok r)
  \/ parseReplace optVal = Err ErrInvalidArgument.
Proof.
  intros Hreg. unfold parseReplace. abi.
  destruct (Z.ltb_spec (len optVal) 96); [right; reflexivity |].
  rewrite slice_to_Ok, slice_from_Ok by lia. cbn [bind].
  unfold binary.UnmarshalIPTReplace. abi. rewrite len_take by lia.
  change (96 <? 96) with false. cbn [bind].
  destruct (String.eqb _ _); [| right; reflexivity].
  match goal with
  | |- context [parseEntries ?n ?o ?off ?t ?os] =>
      destruct (parseEntries_outcome n o off t os Hreg) as [[[t' o'] ->] | ->]
  end; cbn [bind]; [left; eauto | right; reflexivity].
Qed.

(** The table the loop over the entries leaves: fresh chains, and as
    many rules as offsets. *)
Lemma parseReplace_table optVal replace table offsets :
  parseReplace optVal = Ok (replace, table, offsets) ->
  freshChains table
  /\ length (Rules table) = length offsets
  /\ length offsets = Z.to_nat (Replace_NumEntries replace)
  /\ Table_metadata table = None
  /\ length (Replace_HookEntry replace) = 5%nat
  /\ length (Replace_Underflow replace) = 5%nat.
Proof.
  intros H. apply parseReplace_Ok in H. destruct H as (_ & -> & _ & Hp).
  apply parseEntries_Ok in Hp.
  destruct Hp as (HB & HF & _ & HM & HR & HO). cbn in HR, HO.
  unfold freshChains. rewrite HB, HF, HM, HR, HO.
  repeat split; reflexivity.
Qed.

Lemma parseReplace_app optVal extra r :
  parseReplace optVal = Ok r ->
  parseReplace (optVal ++ extra) = Ok r.
Proof.
  destruct r as [[replace table] offsets]. rewrite !parseReplace_Ok. abi.
  intros (Hlen & -> & Hname & Hp).
  assert (Hhdr : replaceHeaderOf (optVal ++ extra) = replaceHeaderOf optVal).
  { unfold replaceHeaderOf. rewrite take_app_le by (unfold len in Hlen; lia).
    reflexivity. }
  rewrite Hhdr. repeat split; try assumption.
  - rewrite len_app. pose proof (len_nonneg extra). lia.
  - rewrite drop_app_le by (unfold len in Hlen; lia).
    apply parseEntries_app, Hp.
Qed.

End DecodeProofs.

Section TableProofs.
Context {MM : MatchMakers}.
Import linux iptables.

Local Abbreviation Table := (iptables.Table Matcher).

Lemma decodeTable_Ok optVal replace table :
  decodeTable optVal = Ok (replace, table) <->
  exists table0 offsets,
    parseReplace optVal = Ok (replace, table0, offsets)
    /\ resolveHooks replace offsets table0 = Ok table
    /\ checkChains table = Ok tt.
Proof.
  unfold decodeTable. split.
  - intros H.
    destruct (parseReplace optVal) as [[[r t0] os] | |];
      cbn [bind] in H; try discriminate H.
    destruct (resolveHooks r os t0) as [t | |] eqn:Er;
      cbn [bind] in H; try discriminate H.
    destruct (checkChains t) as [[] | |] eqn:Ec;
      cbn [bind] in H; try discriminate H.
    injection H as <- <-. eauto.
  - intros (t0 & os & -> & Hr & Hc). cbn [bind]. rewrite Hr. cbn [bind].
    rewrite Hc. reflexivity.
Qed.

(** The table the loop over the hooks leaves. *)
Lemma resolveHooks_Ok optVal replace table0 offsets table :
  parseReplace optVal = Ok (replace, table0, offsets) ->
  resolveHooks replace offsets table0 = Ok table ->
  Rules table = Rules table0
  /\ Table_metadata table = None
  /\ resolved replace offsets table
  /\ (forall hook, filterHook hook ->
        is_Some (BuiltinChains table !! hook)
        /\ is_Some (Underflows table !! hook))
  /\ (forall hook idx, BuiltinChains table !! hook = Some idx ->
        filterHook hook /\ 0 <= idx < len (Rules table)).
Proof.
  intros Hp Hr.
  destruct (parseReplace_table _ _ _ _ Hp)
    as (Hfresh & Hlen & _ & Hmeta & HlE & HlU).
  destruct (resolveHooks_filter replace offsets table0 HlE HlU Hfresh)
    as [[Herr _] | (t' & i1 & i2 & i3 & j1 & j2 & j3 & Hok & HR & _ & HM
                    & Si1 & Si2 & Si3 & Sj1 & Sj2 & Sj3
                    & Ei1 & Ei2 & Ei3 & Ej1 & Ej2 & Ej3 & HB & HF)];
    [congruence |].
  rewrite Hok in Hr. injection Hr as <-.
  destruct Hfresh as [HB0 HF0].
  assert (Hkeys : forall k,
            BuiltinChains table0 !! k
            = BuiltinChains (EmptyFilterTable (Matcher := Matcher)) !! k)
    by (intros; rewrite HB0; reflexivity).
  assert (Hkeys' : forall k,
            Underflows table0 !! k
            = BuiltinChains (EmptyFilterTable (Matcher := Matcher)) !! k)
    by (intros; rewrite HF0; reflexivity).
  split; [exact HR |]. split; [congruence |].
  split; [split |].
  - intros hook idx Hl. rewrite HB in Hl.
    destruct (filter_keys _ _ _ _ _ _ Hl Hkeys)
      as [[-> ->] | [[-> ->] | [-> ->]]]; eauto.
  - intros hook idx Hl. rewrite HF in Hl.
    destruct (filter_keys _ _ _ _ _ _ Hl Hkeys')
      as [[-> ->] | [[-> ->] | [-> ->]]]; eauto.
  - split.
    + intros hook [-> | [-> | ->]]; rewrite HB, HF;
        rewrite !lookup_insert; repeat case_decide;
        try discriminate; try congruence; split; eauto.
    + intros hook idx Hl. rewrite HB in Hl. rewrite HR.
      unfold len. rewrite Hlen.
      destruct (filter_keys _ _ _ _ _ _ Hl Hkeys)
        as [[-> ->] | [[-> ->] | [-> ->]]];
        (split; [unfold filterHook; auto |]);
        [destruct Si1 as [? S] | destruct Si2 as [? S]
         | destruct Si3 as [? S]];
        apply lookup_lt_Some in S; lia.
Qed.

(** A hook of the table whose declared entry or underflow offset is
    the start of no entry stops the loop over the hooks. *)
Lemma resolveHooks_reject optVal replace table0 offsets hook he uf :
  parseReplace optVal = Ok (replace, table0, offsets) ->
  filterHook hook ->
  Replace_HookEntry replace !! N.to_nat hook = Some he ->
  Replace_Underflow replace !! N.to_nat hook = Some uf ->
  he ∉ offsets \/ uf ∉ offsets ->
  resolveHooks replace offsets table0 = Err ErrInvalidArgument.
Proof.
  intros Hp Hhook Hhe Huf Hnot.
  destruct (parseReplace_table _ _ _ _ Hp)
    as (Hfresh & _ & _ & _ & HlE & HlU).
  destruct (resolveHooks_filter replace offsets table0 HlE HlU Hfresh)
    as [[Herr _] | (t' & i1 & i2 & i3 & j1 & j2 & j3 & _ & _ & _ & _
                    & _ & _ & _ & _ & _ & _
                    & Ei1 & Ei2 & Ei3 & Ej1 & Ej2 & Ej3 & _)];
    [exact Herr | exfalso].
  destruct Hhook as [-> | [-> | ->]];
    change (N.to_nat Input) with 1%nat in *;
    change (N.to_nat Forward) with 2%nat in *;
    change (N.to_nat Output) with 3%nat in *;
    rewrite Hhe in *; rewrite Huf in *;
    destruct Hnot as [Hnot | Hnot]; apply Hnot;
    eapply list_elem_of_lookup_2; eassumption.
Qed.

(** The loop over the chains after the hooks have resolved. *)
Lemma checkChains_resolved optVal replace table0 offsets table :
  parseReplace optVal = Ok (replace, table0, offsets) ->
  resolveHooks replace offsets table0 = Ok table ->
  (checkChains table = Ok tt
   /\ forall hook idx, BuiltinChains table !! hook = Some idx ->
        hook <> Input ->
        exists rule, Rules table !! Z.to_nat idx = Some rule
          /\ Rule_Target rule = UnconditionalAcceptTarget)
  \/ (checkChains table = Err ErrInvalidArgument
      /\ exists hook idx rule, BuiltinChains table !! hook = Some idx
           /\ hook <> Input
           /\ Rules table !! Z.to_nat idx = Some rule
           /\ Rule_Target rule <> UnconditionalAcceptTarget).
Proof.
  intros Hp Hr.
  destruct (resolveHooks_Ok _ _ _ _ _ Hp Hr) as (_ & _ & _ & _ & Hrange).
  unfold checkChains.
  destruct (checkChains_fold table (map_to_list (BuiltinChains table)))
    as [[Hok Hall] | [Herr (h & i & r & Hin & Hrest)]].
  - intros hook idx Hin _. apply elem_of_map_to_list in Hin.
    apply (Hrange hook idx Hin).
  - left. split; [exact Hok |].
    intros hook idx Hl. apply Hall, elem_of_map_to_list, Hl.
  - right. split; [exact Herr |].
    exists h, i, r. split; [apply elem_of_map_to_list, Hin | exact Hrest].
Qed.

(** [SetEntries] decodes to a table or rejects the blob. *)
Lemma decodeTable_outcome optVal :
  unmarshalNeverPanics ->
  (exists r, decodeTable optVal = Ok r)
  \/ decodeTable optVal = Err ErrInvalidArgument.
Proof.
  intros Hreg. unfold decodeTable.
  destruct (parseReplace_outcome optVal Hreg)
    as [[[[replace table0] offsets] Hp] | ->];
    [rewrite Hp | right; reflexivity].
  cbn [bind].
  destruct (parseReplace_table _ _ _ _ Hp)
    as (Hfresh & _ & _ & _ & HlE & HlU).
  destruct (resolveHooks_filter replace offsets table0 HlE HlU Hfresh)
    as [[-> _] | (t' & i1 & i2 & i3 & j1 & j2 & j3 & Hok & _)];
    [right; reflexivity |].
  rewrite Hok. cbn [bind].
  destruct (checkChains_resolved _ _ _ _ _ Hp Hok) as [[-> _] | [-> _]];
    cbn [bind]; [left; eauto | right; reflexivity].
Qed.

Lemma SetEntries_Ok stk optVal stk' :
  SetEntries stk optVal = (stk', Ok tt) <->
  exists replace table,
    decodeTable optVal = Ok (replace, table)
    /\ stk' = stack.SetIPTables stk
                {| Tables :=
                     <[name_String (Replace_Name replace)
                       := installedTable replace table]>
                       (Tables (stack.IPTables stk)) |}.
Proof.
  unfold SetEntries. destruct (decodeTable optVal) as [[r t] | |]; split.
  - intros [= <-]. eauto.
  - intros (r' & t' & [= <- <-] & ->). reflexivity.
  - discriminate.
  - intros (? & ? & H & _). discriminate H.
  - discriminate.
  - intros (? & ? & H & _). discriminate H.
Qed.

Lemma SetEntries_Err stk optVal :
  decodeTable optVal = Err ErrInvalidArgument ->
  SetEntries stk optVal = (stk, Err ErrInvalidArgument).
Proof. intros H. unfold SetEntries. rewrite H. reflexivity. Qed.

End TableProofs.

Section EncoderProofs.
Context {MM : MatchMakers}.
Import linux iptables.

Local Abbreviation Table := (iptables.Table Matcher).
Local Abbreviation Rule := (iptables.Rule Matcher).

Lemma foldM_no_Err {E A S} (f : S -> A -> Result E S) (l : list A) :
  (forall s a e, f s a <> Err e) ->
  forall s e, foldM f l s <> Err e.
Proof.
  intros Hf. induction l as [| a l IH]; intros s e; cbn [foldM].
  - discriminate.
  - destruct (f s a) eqn:Efa; cbn [bind];
      [apply IH | exfalso; exact (Hf _ _ _ Efa) | discriminate].
Qed.

Lemma array_set_no_Err {E} a i v (e : E) : array_set a i v <> Err e.
Proof. unfold array_set. destruct (_ && _); discriminate. Qed.

Lemma recordOffsets_no_Err chains ruleIdx size arr e :
  recordOffsets chains ruleIdx size arr <> Err e.
Proof.
  unfold recordOffsets. apply foldM_no_Err.
  intros s [hook idx] e'. destruct (idx =? ruleIdx);
    [apply array_set_no_Err | discriminate].
Qed.

Lemma addMatcher_no_Err entry m e : addMatcher entry m <> Err e.
Proof.
  unfold addMatcher. destruct (marshalMatcher m); cbn [orPanic bind];
    [destruct (negb _) |]; discriminate.
Qed.

Lemma addTarget_no_Err entry t e : addTarget entry t <> Err e.
Proof.
  unfold addTarget. destruct (marshalTarget t); cbn [orPanic bind];
    [destruct (negb _) |]; discriminate.
Qed.

(** What one turn of the loop over the rules adds. *)
Lemma convertRule_Ok table entries meta ir entries' meta' :
  convertRule table (entries, meta) ir = Ok (entries', meta') ->
  exists entry,
    Entrytable entries' = Entrytable entries ++ [entry]
    /\ GetEntries_Size entries'
       = wrap32 (GetEntries_Size entries + NextOffset (Entry entry))
    /\ GetEntries_Name entries' = GetEntries_Name entries
    /\ NumEntries meta' = wrap32 (NumEntries meta + 1).
Proof.
  unfold convertRule. destruct ir as [ruleIdx rule]. intros H.
  destruct (recordOffsets _ _ _ (HookEntry meta)); cbn [bind] in H;
    try discriminate H.
  destruct (recordOffsets _ _ _ (Underflow meta)); cbn [bind] in H;
    try discriminate H.
  destruct (foldM addMatcher _ _); cbn [bind] in H; try discriminate H.
  destruct (addTarget _ _) as [entry | |]; cbn [bind] in H;
    try discriminate H.
  injection H as <- <-. exists entry. auto.
Qed.

Lemma convertRule_no_Err table st ir e : convertRule table st ir <> Err e.
Proof.
  unfold convertRule. destruct st as [entries meta], ir as [ruleIdx rule].
  destruct (recordOffsets _ _ _ (HookEntry meta)) eqn:E1; cbn [bind];
    [| exfalso; exact (recordOffsets_no_Err _ _ _ _ _ E1) | discriminate].
  destruct (recordOffsets _ _ _ (Underflow meta)) eqn:E2; cbn [bind];
    [| exfalso; exact (recordOffsets_no_Err _ _ _ _ _ E2) | discriminate].
  destruct (foldM addMatcher _ _) eqn:E3; cbn [bind];
    [| exfalso; exact (foldM_no_Err _ _ addMatcher_no_Err _ _ E3)
     | discriminate].
  destruct (addTarget _ _) eqn:E4; cbn [bind];
    [discriminate | exfalso; exact (addTarget_no_Err _ _ _ E4)
     | discriminate].
Qed.

Lemma wrap32_add_l a b : wrap32 (wrap32 a + b) = wrap32 (a + b).
Proof. unfold wrap32. apply Z.add_mod_idemp_l. lia. Qed.

(** The loop over the rules counts the rules and adds up the
    [NextOffset]s, both in 32 bits. *)
Lemma convertRules_Ok table (rules : list (Z * Rule)) :
  forall entries meta entries' meta',
  0 <= GetEntries_Size entries < 2 ^ 32 ->
  0 <= NumEntries meta < 2 ^ 32 ->
  foldM (convertRule table) rules (entries, meta) = Ok (entries', meta') ->
  exists new,
    Entrytable entries' = Entrytable entries ++ new
    /\ length new = length rules
    /\ GetEntries_Size entries'
       = wrap32 (GetEntries_Size entries + sumNextOffset new)
    /\ GetEntries_Name entries' = GetEntries_Name entries
    /\ NumEntries meta' = wrap32 (NumEntries meta + len rules).
Proof.
  induction rules as [| ir rules IH];
    intros entries meta entries' meta' HS HN H.
  - cbn in H. injection H as <- <-. exists [].
    rewrite app_nil_r. cbn. rewrite !Z.add_0_r.
    unfold wrap32. rewrite !Z.mod_small by lia. auto.
  - cbn [foldM] in H.
    destruct (convertRule table (entries, meta) ir) as [[e1 m1] | |] eqn:E1;
      cbn [bind] in H; try discriminate H.
    apply convertRule_Ok in E1.
    destruct E1 as (entry & Ht1 & Hs1 & Hn1 & Hc1).
    apply IH in H;
      [| rewrite Hs1; apply wrap32_range | rewrite Hc1; apply wrap32_range].
    destruct H as (new & Ht & Hl & Hs & Hn & Hc).
    exists (entry :: new). rewrite Ht, Ht1, <- app_assoc.
    split; [reflexivity |]. split; [cbn; lia |].
    rewrite Hs, Hs1, Hn, Hn1, Hc, Hc1, !wrap32_add_l.
    cbn [sumNextOffset foldr]. fold (sumNextOffset new).
    unfold len. cbn [length]. repeat split; f_equal; lia.
Qed.

Lemma indexed_length {A} (l : list A) : length (indexed l) = length l.
Proof.
  unfold indexed. rewrite length_zip_with, length_map, length_seq. lia.
Qed.

(** The metadata of a finished encoding. *)
Lemma convertNetstackToBinary_Ok tablename (table : Table) entries meta :
  convertNetstackToBinary tablename table = Ok (entries, meta) ->
  NumEntries meta = wrap32 (len (Rules table))
  /\ Size meta = GetEntries_Size entries
  /\ Size meta = wrap32 (sumNextOffset (Entrytable entries))
  /\ length (Entrytable entries) = length (Rules table).
Proof.
  unfold convertNetstackToBinary.
  destruct (_ <? _)%nat; [discriminate |].
  destruct (foldM _ _ _) as [[e1 m1] | |] eqn:E; cbn [bind];
    try discriminate.
  intros [= <- <-]. cbn [NumEntries Size].
  apply convertRules_Ok in E; [| cbn; lia | cbn; lia].
  destruct E as (new & Ht & Hl & Hs & _ & Hc).
  cbn [Entrytable GetEntries_Size app metadata_zero NumEntries] in *.
  rewrite Ht, Hs, Hc, Hl. unfold len. rewrite !indexed_length.
  repeat split; reflexivity.
Qed.

Lemma convertNetstackToBinary_no_Err tablename (table : Table) e :
  (String.length tablename <= XT_TABLE_MAXNAMELEN)%nat ->
  convertNetstackToBinary tablename table <> Err e.
Proof.
  intros Hname. unfold convertNetstackToBinary.
  destruct (Nat.ltb_spec XT_TABLE_MAXNAMELEN (String.length tablename));
    [lia |].
  destruct (foldM _ _ _) as [[e1 m1] | |] eqn:E; cbn [bind];
    [discriminate | | discriminate].
  exfalso. exact (foldM_no_Err _ _ (convertRule_no_Err table) _ _ E).
Qed.

(** *** The encoder returns on an encodable table *)

Lemma recordOffsets_total (chains : list (N * Z)) ruleIdx size :
  (forall hook idx, (hook, idx) ∈ chains -> (hook < 5)%N) ->
  forall arr, length arr = 5%nat ->
  exists arr',
    foldM (E := error)
          (fun arr '(hook, hookRuleIdx) =>
             if hookRuleIdx =? ruleIdx
             then array_set arr (Z.of_N hook) size
             else Ok arr) chains arr = Ok arr'
    /\ length arr' = 5%nat.
Proof.
  induction chains as [| [hook idx] chains IH]; intros Hk arr Hlen.
  - exists arr. auto.
  - cbn [foldM].
    assert (Hh : (hook < 5)%N) by (apply (Hk hook idx); left).
    assert (Hk' : forall hook idx, (hook, idx) ∈ chains -> (hook < 5)%N)
      by (intros ? ? ?; eapply Hk; right; eassumption).
    destruct (idx =? ruleIdx); cbn [bind]; [| apply IH; assumption].
    unfold array_set, len. rewrite Hlen.
    destruct (Z.leb_spec 0 (Z.of_N hook)); [| lia].
    destruct (Z.ltb_spec (Z.of_N hook) (Z.of_nat 5)); [| lia].
    cbn [andb bind]. apply IH; [exact Hk' |].
    rewrite length_insert. exact Hlen.
Qed.

Lemma addMatchers_total (ms : list Matcher) :
  (forall m, m ∈ ms ->
     exists bytes, marshalMatcher m = Some bytes /\ len bytes mod 8 = 0) ->
  forall entry, exists entry', foldM addMatcher ms entry = Ok entry'.
Proof.
  induction ms as [| m ms IH]; intros Hm entry.
  - exists entry. reflexivity.
  - cbn [foldM]. unfold addMatcher at 1.
    destruct (Hm m) as (bytes & -> & Hal); [left |].
    cbn [orPanic bind]. rewrite Hal. cbn [Z.eqb negb bind].
    apply IH. intros m' Hin. apply Hm. right. exact Hin.
Qed.

Lemma addTarget_total entry t :
  (forall kind, t <> OtherTarget kind) ->
  exists entry', addTarget entry t = Ok entry'.
Proof.
  intros Hk. unfold addTarget.
  destruct t; try (exfalso; eapply Hk; reflexivity);
    cbn [marshalTarget]; eexists; reflexivity.
Qed.

Lemma convertRules_total (table : Table) (rules : list (Z * Rule)) :
  encodable table ->
  (forall i r, (i, r) ∈ rules -> r ∈ Rules table) ->
  forall entries meta,
    length (HookEntry meta) = 5%nat -> length (Underflow meta) = 5%nat ->
    exists st, foldM (convertRule table) rules (entries, meta) = Ok st.
Proof.
  intros (Hrules & HkB & HkF).
  induction rules as [| [ruleIdx rule] rules IH];
    intros Hin entries meta HlE HlU.
  - eexists. reflexivity.
  - cbn [foldM]. unfold convertRule at 1. unfold recordOffsets.
    destruct (recordOffsets_total (map_to_list (BuiltinChains table))
                ruleIdx (GetEntries_Size entries)) with (arr := HookEntry meta)
      as (he & -> & Hhe); [| exact HlE |].
    { intros hook idx Hel. apply elem_of_map_to_list in Hel. eauto. }
    cbn [bind].
    destruct (recordOffsets_total (map_to_list (Underflows table))
                ruleIdx (GetEntries_Size entries)) with (arr := Underflow meta)
      as (uf & -> & Huf); [| exact HlU |].
    { intros hook idx Hel. apply elem_of_map_to_list in Hel. eauto. }
    cbn [bind].
    destruct (Hrules rule) as [Hms Ht]; [eapply Hin; left |].
    destruct (addMatchers_total (Matchers rule) Hms (newEntry rule))
      as (e1 & ->).
    cbn [bind].
    destruct (addTarget_total e1 (Rule_Target rule) Ht) as (e2 & ->).
    cbn [bind]. apply IH; [| exact Hhe | exact Huf].
    intros i r Hel. eapply Hin. right. exact Hel.
Qed.

Lemma convertNetstackToBinary_total tablename (table : Table) :
  (String.length tablename <= XT_TABLE_MAXNAMELEN)%nat ->
  encodable table ->
  exists entries meta,
    convertNetstackToBinary tablename table = Ok (entries, meta).
Proof.
  intros Hname Henc. unfold convertNetstackToBinary.
  destruct (Nat.ltb_spec XT_TABLE_MAXNAMELEN (String.length tablename));
    [lia |].
  match goal with
  | |- context [foldM _ _ (?e, ?m)] =>
      destruct (convertRules_total table (indexed (Rules table)) Henc)
        with (entries := e) (meta := m) as ([e1 m1] & ->)
  end; try reflexivity.
  - intros i r Hel. unfold indexed in Hel.
    eapply elem_of_zip_r. exact Hel.
  - cbn [bind]. eauto.
Qed.

End EncoderProofs.

Section ClaimLemmas.
Context {MM : MatchMakers}.
Import linux iptables.

Lemma parseMatchers_Ok filter optVal ms :
  parseMatchers filter optVal = Ok ms <->
  exists blocks,
    optVal = concat blocks /\ Forall2 (matcherBlock filter) blocks ms.
Proof.
  unfold parseMatchers. split.
  - destruct (parseMatchersLoop _ _ _ _) as [[ms' rest] | |] eqn:E;
      cbn [bind]; try discriminate.
    apply parseMatchersLoop_Ok in E.
    destruct E as (-> & blocks & new & -> & -> & Hall).
    cbn. intros [= <-]. eauto.
  - intros (blocks & -> & Hall).
    pose proof (parseMatchersLoop_blocks filter blocks ms
                  (length (concat blocks)) [] [] Hall) as H.
    rewrite app_nil_r in H. rewrite H by lia.
    cbn. reflexivity.
Qed.

(** A header that declares too little or too much, or a rest too short
    for a header, after any number of whole blocks. *)
Lemma parseMatchers_bad_block filter blocks ms rest :
  Forall2 (matcherBlock filter) blocks ms ->
  0 < len rest ->
  len rest < SizeOfXTEntryMatch
  \/ declaredMatchSize rest < SizeOfXTEntryMatch
  \/ len rest < declaredMatchSize rest ->
  exists e, parseMatchers filter (concat blocks ++ rest) = Err e.
Proof.
  intros Hall Hpos Hbad. unfold parseMatchers.
  rewrite (parseMatchersLoop_blocks filter blocks ms _ rest [] Hall) by lia.
  destruct rest as [| b rest'] eqn:E; [unfold len in Hpos; simpl in Hpos; lia |].
  rewrite <- E in *.
  assert (Hl : length rest = S (length rest')) by (subst rest; reflexivity).
  rewrite Hl, parseMatchersLoop_step by exact Hpos. abi.
  destruct (Z.ltb_spec (len rest) 32); [cbn; eauto |].
  destruct (Z.ltb_spec (declaredMatchSize rest) 32); [cbn; eauto |].
  destruct (Z.ltb_spec (len rest) (declaredMatchSize rest));
    [cbn; eauto | lia].
Qed.

(** In a table with fresh chains the hooks of the mask are those of the
    filter table. *)
Lemma validHook_filter (table : Table Matcher) (hook : N) :
  freshChains table ->
  Z.land (ValidHooks table) (Z.shiftl 1 (Z.of_N hook)) <> 0 ->
  filterHook hook.
Proof.
  intros [HB _] Hbit.
  assert (Hv : negb (Z.land (ValidHooks table)
                       (Z.shiftl 1 (Z.of_N hook)) =? 0) = true)
    by (apply negb_true_iff, Z.eqb_neq, Hbit).
  apply validHook_iff in Hv; [| lia].
  rewrite N2Z.id, HB in Hv. cbn [EmptyFilterTable BuiltinChains] in Hv.
  unfold filterHook.
  destruct (decide (hook = Input)); [auto |].
  destruct (decide (hook = Forward)); [auto |].
  destruct (decide (hook = Output)); [auto |].
  rewrite !lookup_insert_ne, lookup_empty in Hv by congruence.
  destruct Hv as [? Hv]. discriminate Hv.
Qed.

Lemma filterHook_lookup (l : list Z) (hook : N) :
  length l = 5%nat -> filterHook hook -> is_Some (l !! N.to_nat hook).
Proof.
  intros Hl [-> | [-> | ->]]; apply lookup_lt_is_Some; rewrite Hl;
    vm_compute; lia.
Qed.

End ClaimLemmas.

(** ** The claims *)

Section Claims.
Context {MM : MatchMakers}.
Import linux iptables.

Local Abbreviation Table := (iptables.Table Matcher).
Local Abbreviation Stack := (stack.Stack Matcher).

(** Claim C2.  Verdict codec inverse.  Accept and Drop survive encoding and
    decoding; the wire values of Queue and Return decode to the
    unsupported-verdict errors; every other value decodes to the
    unknown-verdict error; so decoding yields Accept or Drop only, and
    [parseTarget] returns one of the accept, drop and error targets and
    nothing else. *)
Theorem C2_verdict_codec :
  (forall v, v = Accept \/ v = Drop ->
     exists val, translateFromStandardVerdict v = Some val
       /\ translateToStandardVerdict val = Ok v)
  /\ translateFromStandardVerdict Queue = Some (- NF_QUEUE - 1)
  /\ translateFromStandardVerdict Return = Some NF_RETURN
  /\ translateToStandardVerdict (- NF_QUEUE - 1)
     = Err ErrUnsupportedVerdictQUEUE
  /\ translateToStandardVerdict NF_RETURN = Err ErrUnsupportedVerdictRETURN
  /\ (forall val,
        val <> - NF_ACCEPT - 1 -> val <> - NF_DROP - 1 ->
        val <> - NF_QUEUE - 1 -> val <> NF_RETURN ->
        translateToStandardVerdict val = Err (ErrUnknownIptablesVerdict val))
  /\ (forall val v, translateToStandardVerdict val = Ok v ->
        v = Accept \/ v = Drop)
  /\ (forall optVal t, parseTarget optVal = Ok t ->
        t = UnconditionalAcceptTarget \/ t = UnconditionalDropTarget
        \/ t = ErrorTarget).
Proof.
  repeat split.
  - intros v [-> | ->]; eexists; split; reflexivity.
  - intros val H1 H2 H3 H4. unfold translateToStandardVerdict.
    unfold NF_RETURN, NF_REPEAT, NF_QUEUE, NF_DROP, NF_ACCEPT in *.
    zcmp; try lia. reflexivity.
  - intros val v H. apply translateToStandardVerdict_Ok in H.
    destruct H as [[_ ->] | [_ ->]]; auto.
  - intros optVal t H. apply parseTarget_Ok in H.
    destruct H as [(_ & _ & [[_ ->] | [_ ->]]) | (_ & _ & _ & ->)]; auto.
Qed.

(** Claim C3.  Decode safety.  With a registry whose unmarshallers do not
    panic, [SetEntries] on any byte slice, and so on any prefix of any
    blob, succeeds or returns the invalid-argument error; [parseMatchers],
    [parseTarget] and [filterFromIPTIP] never panic, an out-of-bounds
    slice expression being a panic. *)
Theorem C3_decode_safety :
  unmarshalNeverPanics ->
  (forall (stk : Stack) optVal,
     snd (SetEntries stk optVal) = Ok tt
     \/ snd (SetEntries stk optVal) = Err ErrInvalidArgument)
  /\ (forall (stk : Stack) optVal k,
        snd (SetEntries stk (take k optVal)) = Ok tt
        \/ snd (SetEntries stk (take k optVal)) = Err ErrInvalidArgument)
  /\ (forall filter optVal, parseMatchers filter optVal <> Panic)
  /\ (forall optVal, parseTarget optVal <> Panic)
  /\ (forall iptip, filterFromIPTIP iptip <> Panic).
Proof.
  intros Hreg.
  assert (Hset : forall (stk : Stack) optVal,
             snd (SetEntries stk optVal) = Ok tt
             \/ snd (SetEntries stk optVal) = Err ErrInvalidArgument).
  { intros stk optVal. unfold SetEntries.
    destruct (decodeTable_outcome optVal Hreg) as [[[r t] ->] | ->];
      cbn; auto. }
  split; [exact Hset |]. split; [intros; apply Hset |].
  split; [intros; apply parseMatchers_not_Panic, Hreg |].
  split; [apply parseTarget_not_Panic |].
  intros iptip. unfold filterFromIPTIP.
  destruct (containsUnsupportedFields iptip); discriminate.
Qed.

(** Claim C4.  Replace atomicity.  When [SetEntries] does not succeed the
    stack it leaves is the stack it was given; when it succeeds the
    stack differs in one table, the one named by the replace header,
    which is the completely decoded table with its metadata. *)
Theorem C4_replace_atomicity (stk : Stack) optVal stk' :
  (forall e, SetEntries stk optVal = (stk', Err e) -> stk' = stk)
  /\ (SetEntries stk optVal = (stk', Panic) -> stk' = stk)
  /\ (SetEntries stk optVal = (stk', Ok tt) ->
      exists replace table,
        decodeTable optVal = Ok (replace, table)
        /\ Tables (stack.IPTables stk') !! name_String (Replace_Name replace)
           = Some (installedTable replace table)
        /\ forall other, other <> name_String (Replace_Name replace) ->
             Tables (stack.IPTables stk') !! other
             = Tables (stack.IPTables stk) !! other).
Proof.
  repeat split.
  - intros e. unfold SetEntries.
    destruct (decodeTable optVal) as [[r t] | |]; congruence.
  - unfold SetEntries.
    destruct (decodeTable optVal) as [[r t] | |]; congruence.
  - intros H. apply SetEntries_Ok in H.
    destruct H as (replace & table & Hd & ->).
    exists replace, table. split; [exact Hd |].
    cbn [stack.IPTables stack.SetIPTables stack.tables Tables].
    split; [apply lookup_insert_eq |].
    intros other Hne. apply lookup_insert_ne. congruence.
Qed.

(** Claim C5.  parseTarget acceptance.  [parseTarget] succeeds in two cases
    only: a block of the standard target's size with an empty name whose
    verdict decodes to Accept or Drop, giving the accept or the drop
    target, and a block of the error target's size whose two names are
    "ERROR", giving the error target; every other slice is rejected with
    an error. *)
Theorem C5_parseTarget_acceptance optVal :
  (forall t,
     parseTarget optVal = Ok t <->
     (len optVal = SizeOfXTStandardTarget
      /\ targetName optVal = ""%string
      /\ ((translateToStandardVerdict (standardVerdict optVal) = Ok Accept
           /\ t = UnconditionalAcceptTarget)
          \/ (translateToStandardVerdict (standardVerdict optVal) = Ok Drop
              /\ t = UnconditionalDropTarget)))
     \/ (len optVal = SizeOfXTErrorTarget
         /\ targetName optVal = errorTargetName
         /\ errorName optVal = errorTargetName
         /\ t = ErrorTarget))
  /\ ((exists t, parseTarget optVal = Ok t)
      \/ (exists e, parseTarget optVal = Err e)).
Proof.
  split; [intros t; apply parseTarget_Ok |].
  pose proof (parseTarget_not_Panic optVal) as Hp.
  destruct (parseTarget optVal); [eauto | eauto | congruence].
Qed.

(** Claim C6.  parseMatchers exact exhaustion.  [parseMatchers] succeeds
    exactly when the region is a concatenation of whole matcher blocks,
    each as long as its header declares and at least as long as a header,
    so the blocks' lengths add up to the region's; after any number of
    whole blocks, a header declaring less than a header's size or more
    than the bytes left, or a rest shorter than a header, is an error. *)
Theorem C6_parseMatchers_exhaustion filter optVal :
  (forall ms,
     parseMatchers filter optVal = Ok ms <->
     exists blocks,
       optVal = concat blocks /\ Forall2 (matcherBlock filter) blocks ms)
  /\ (forall ms blocks,
        parseMatchers filter optVal = Ok ms ->
        optVal = concat blocks ->
        len optVal = foldr (fun b acc => len b + acc) 0 blocks)
  /\ (forall blocks ms rest,
        optVal = concat blocks ++ rest ->
        Forall2 (matcherBlock filter) blocks ms ->
        0 < len rest ->
        len rest < SizeOfXTEntryMatch
        \/ declaredMatchSize rest < SizeOfXTEntryMatch
        \/ len rest < declaredMatchSize rest ->
        exists e, parseMatchers filter optVal = Err e).
Proof.
  split; [intros ms; apply parseMatchers_Ok |]. split.
  - intros ms blocks _ ->. clear.
    induction blocks as [| b blocks IH]; [reflexivity |].
    cbn [concat foldr]. rewrite len_app, IH. reflexivity.
  - intros blocks ms rest -> Hall Hpos Hbad.
    eapply parseMatchers_bad_block; eassumption.
Qed.

(** Claim C7.  Hook completeness.  Once the entries have been read, a hook of
    the table's mask whose declared entry offset, or whose declared
    underflow offset, is the start of no entry makes [SetEntries] return
    the invalid-argument error and leave the stack; and the table
    [SetEntries] installs has, for every hook of the mask, an entry rule
    and an underflow rule that begin at the declared offsets. *)
Theorem C7_hook_completeness (stk : Stack) optVal replace table0 offsets :
  parseReplace optVal = Ok (replace, table0, offsets) ->
  (forall hook he,
     Z.land (ValidHooks table0) (Z.shiftl 1 (Z.of_N hook)) <> 0 ->
     Replace_HookEntry replace !! N.to_nat hook = Some he ->
     he ∉ offsets ->
     SetEntries stk optVal = (stk, Err ErrInvalidArgument))
  /\ (forall hook uf,
        Z.land (ValidHooks table0) (Z.shiftl 1 (Z.of_N hook)) <> 0 ->
        Replace_Underflow replace !! N.to_nat hook = Some uf ->
        uf ∉ offsets ->
        SetEntries stk optVal = (stk, Err ErrInvalidArgument))
  /\ (forall stk',
        SetEntries stk optVal = (stk', Ok tt) ->
        exists table,
          Tables (stack.IPTables stk') !! TablenameFilter
          = Some (installedTable replace table)
          /\ resolved replace offsets table
          /\ forall hook,
               Z.land (ValidHooks table0) (Z.shiftl 1 (Z.of_N hook)) <> 0 ->
               exists i j he uf,
                 BuiltinChains table !! hook = Some (Z.of_nat i)
                 /\ Underflows table !! hook = Some (Z.of_nat j)
                 /\ Replace_HookEntry replace !! N.to_nat hook = Some he
                 /\ Replace_Underflow replace !! N.to_nat hook = Some uf
                 /\ offsets !! i = Some he
                 /\ offsets !! j = Some uf).
Proof.
  intros Hp.
  destruct (parseReplace_table _ _ _ _ Hp)
    as (Hfresh & _ & _ & _ & HlE & HlU).
  assert (Hrej : forall hook he uf, filterHook hook ->
            Replace_HookEntry replace !! N.to_nat hook = Some he ->
            Replace_Underflow replace !! N.to_nat hook = Some uf ->
            he ∉ offsets \/ uf ∉ offsets ->
            SetEntries stk optVal = (stk, Err ErrInvalidArgument)).
  { intros hook he uf Hh Hhe Huf Hnot. apply SetEntries_Err.
    unfold decodeTable. rewrite Hp. cbn [bind].
    rewrite (resolveHooks_reject _ _ _ _ _ _ _ Hp Hh Hhe Huf Hnot).
    reflexivity. }
  split; [| split].
  - intros hook he Hbit Hhe Hnot.
    pose proof (validHook_filter _ _ Hfresh Hbit) as Hh.
    destruct (filterHook_lookup _ _ HlU Hh) as [uf Huf].
    eapply Hrej; eauto.
  - intros hook uf Hbit Huf Hnot.
    pose proof (validHook_filter _ _ Hfresh Hbit) as Hh.
    destruct (filterHook_lookup _ _ HlE Hh) as [he Hhe].
    eapply Hrej; eauto.
  - intros stk' H. apply SetEntries_Ok in H.
    destruct H as (replace' & table & Hd & ->).
    apply decodeTable_Ok in Hd. destruct Hd as (t0 & os & Hp' & Hr & _).
    rewrite Hp in Hp'. injection Hp' as <- <- <-.
    destruct (resolveHooks_Ok _ _ _ _ _ Hp Hr)
      as (_ & _ & Hres & Hsome & _).
    exists table. split; [| split; [exact Hres |]].
    + apply parseReplace_Ok in Hp. destruct Hp as (_ & _ & -> & _).
      cbn [stack.IPTables stack.SetIPTables stack.tables Tables].
      apply lookup_insert_eq.
    + intros hook Hbit.
      pose proof (validHook_filter _ _ Hfresh Hbit) as Hh.
      destruct (Hsome hook Hh) as [[b Hb] [u Hu]].
      destruct Hres as [HresB HresU].
      destruct (HresB hook b Hb) as (i & -> & [he Hi] & Hie).
      destruct (HresU hook u Hu) as (j & -> & [uf Hj] & Hje).
      exists i, j, he, uf. rewrite <- Hie, <- Hje. auto 10.
Qed.

(** Claim C9.  Non-input chain policy.  Once the hooks have resolved, a chain
    other than the input chain whose entry rule has a target that is not
    the accept target makes [SetEntries] return the invalid-argument
    error and leave the stack; when [SetEntries] succeeds the entry rule
    of every chain other than the input chain is an accept rule. *)
Theorem C9_non_input_policy (stk : Stack) optVal replace table0 offsets table :
  parseReplace optVal = Ok (replace, table0, offsets) ->
  resolveHooks replace offsets table0 = Ok table ->
  (forall hook idx rule,
     BuiltinChains table !! hook = Some idx ->
     hook <> Input ->
     Rules table !! Z.to_nat idx = Some rule ->
     Rule_Target rule <> UnconditionalAcceptTarget ->
     SetEntries stk optVal = (stk, Err ErrInvalidArgument))
  /\ (forall stk',
        SetEntries stk optVal = (stk', Ok tt) ->
        forall hook idx,
          BuiltinChains table !! hook = Some idx ->
          hook <> Input ->
          exists rule, Rules table !! Z.to_nat idx = Some rule
            /\ Rule_Target rule = UnconditionalAcceptTarget).
Proof.
  intros Hp Hr.
  destruct (checkChains_resolved _ _ _ _ _ Hp Hr)
    as [[Hok Hall] | [Herr _]]; split.
  - intros hook idx rule Hl Hne Hrule Ht.
    destruct (Hall hook idx Hl Hne) as (rule' & Hrule' & Ht').
    congruence.
  - intros stk' _. exact Hall.
  - intros hook idx rule _ _ _ _. apply SetEntries_Err.
    unfold decodeTable. rewrite Hp. cbn [bind]. rewrite Hr. cbn [bind].
    rewrite Herr. reflexivity.
  - intros stk' H. apply SetEntries_Ok in H.
    destruct H as (r & t & Hd & _). apply decodeTable_Ok in Hd.
    destruct Hd as (t0 & os & Hp' & Hr' & Hc).
    rewrite Hp in Hp'. injection Hp' as <- <- <-.
    rewrite Hr in Hr'. injection Hr' as <-. congruence.
Qed.

(** Claim C10.  Trailing bytes are ignored.  A blob that [SetEntries] accepts
    is accepted with any bytes appended, and leaves the same stack: the
    same table with the same metadata, whose size is the one the header
    declares whatever the length of the buffer. *)
Theorem C10_trailing_bytes (stk : Stack) optVal extra stk' :
  SetEntries stk optVal = (stk', Ok tt) ->
  SetEntries stk (optVal ++ extra) = (stk', Ok tt)
  /\ exists table,
       Tables (stack.IPTables stk') !! TablenameFilter = Some table
       /\ option_map Size (Table_metadata table)
          = Some (Replace_Size (replaceHeaderOf optVal))
       /\ option_map NumEntries (Table_metadata table)
          = Some (Replace_NumEntries (replaceHeaderOf optVal)).
Proof.
  intros H. apply SetEntries_Ok in H.
  destruct H as (replace & table & Hd & ->).
  apply decodeTable_Ok in Hd. destruct Hd as (t0 & os & Hp & Hr & Hc).
  split.
  - apply SetEntries_Ok. exists replace, table. split; [| reflexivity].
    apply decodeTable_Ok. exists t0, os.
    split; [apply parseReplace_app, Hp | auto].
  - apply parseReplace_Ok in Hp. destruct Hp as (_ & Hrep & Hname & _).
    exists (installedTable replace table).
    cbn [stack.IPTables stack.SetIPTables stack.tables Tables].
    rewrite Hname, <- Hrep. split; [apply lookup_insert_eq |].
    split; reflexivity.
Qed.

(** Claim C8.  Encoder metadata.  For a table name within the ABI's bound
    [convertNetstackToBinary] returns no error; the metadata it returns
    has, in 32 bits, the number of rules as [NumEntries] and the running
    offset, the sum of the entries' [NextOffset], as [Size], which are
    the number and the sum themselves while these stay below 2^32; it
    returns on every encodable table; and a table without rules encodes
    to no entries, [NumEntries] 0 and [Size] 0. *)
Theorem C8_encoder_metadata tablename (table : Table) :
  (String.length tablename <= XT_TABLE_MAXNAMELEN)%nat ->
  (forall e, convertNetstackToBinary tablename table <> Err e)
  /\ (forall entries meta,
        convertNetstackToBinary tablename table = Ok (entries, meta) ->
        NumEntries meta = wrap32 (len (Rules table))
        /\ Size meta = GetEntries_Size entries
        /\ Size meta = wrap32 (sumNextOffset (Entrytable entries))
        /\ length (Entrytable entries) = length (Rules table)
        /\ (len (Rules table) < 2 ^ 32 ->
            NumEntries meta = len (Rules table))
        /\ (0 <= sumNextOffset (Entrytable entries) < 2 ^ 32 ->
            Size meta = sumNextOffset (Entrytable entries)))
  /\ (encodable table ->
      exists entries meta,
        convertNetstackToBinary tablename table = Ok (entries, meta))
  /\ (Rules table = [] ->
      exists entries meta,
        convertNetstackToBinary tablename table = Ok (entries, meta)
        /\ NumEntries meta = 0 /\ Size meta = 0
        /\ Entrytable entries = []).
Proof.
  intros Hname. split; [| split; [| split]].
  - intros e. apply convertNetstackToBinary_no_Err, Hname.
  - intros entries meta H.
    apply convertNetstackToBinary_Ok in H.
    destruct H as (Hn & Hs & Hsum & Hl).
    repeat split; try assumption.
    + intros Hsmall. rewrite Hn. unfold wrap32.
      apply Z.mod_small. pose proof (len_nonneg (Rules table)). lia.
    + intros Hsmall. rewrite Hsum. unfold wrap32.
      apply Z.mod_small. lia.
  - apply convertNetstackToBinary_total, Hname.
  - intros Hnil. unfold convertNetstackToBinary.
    destruct (Nat.ltb_spec XT_TABLE_MAXNAMELEN (String.length tablename));
      [lia |].
    rewrite Hnil. cbn. eauto 10.
Qed.

End Claims.

(** ** The claims at concrete blobs *)

Section Instances.
Import linux iptables.

(** Claim C1.  Round-trip identity fails on a blob [SetEntries] accepts:
    the one-rule blob whose header declares a total size of 1 is accepted
    and its declared size is saved with the table, the encoder computes a
    size of 152 for the saved table, and [GetEntries], which compares the
    two metadata, panics; with the declared size 152 the two agree and
    [GetEntries] returns the entries. *)
Theorem C1_roundtrip_metadata_diverges :
  snd (SetEntries (MM := noMatchers) emptyStack (acceptBlob 1)) = Ok tt
  /\ sizesOf wrongSizeStack "filter" = Ok (152, Some 1)
  /\ GetEntries wrongSizeStack (list_byte_of_string "filter") 4096 = Panic
  /\ sizesOf acceptStack "filter" = Ok (152, Some 152)
  /\ exists entries,
       GetEntries acceptStack (list_byte_of_string "filter") 4096 = Ok entries.
Proof.
  split; [vm_compute; reflexivity |].
  split; [vm_compute; reflexivity |].
  split; [vm_compute; reflexivity |].
  split; [vm_compute; reflexivity |].
  eexists. vm_compute. reflexivity.
Qed.

Lemma rawMatchers_never_panic : @unmarshalNeverPanics rawMatchers.
Proof.
  intros m f buf. simpl. destruct (String.eqb _ _); discriminate.
Defined.

Lemma C2_verdict_codec_witness :
  (Accept = Accept \/ Accept = Drop)
  /\ exists val, translateFromStandardVerdict Accept = Some val
       /\ translateToStandardVerdict val = Ok Accept.
Proof.
  split; [left; reflexivity |].
  apply (proj1 C2_verdict_codec Accept). left. reflexivity.
Defined.

Lemma C3_decode_safety_witness :
  @unmarshalNeverPanics rawMatchers
  /\ (snd (SetEntries (MM := rawMatchers) emptyStack
             (take 200 (acceptBlob 152))) = Ok tt
      \/ snd (SetEntries (MM := rawMatchers) emptyStack
                (take 200 (acceptBlob 152))) = Err ErrInvalidArgument).
Proof.
  split; [exact rawMatchers_never_panic |].
  apply (proj1 (proj2 (C3_decode_safety (MM := rawMatchers)
                         rawMatchers_never_panic))).
Defined.

Lemma C4_replace_atomicity_witness :
  SetEntries acceptStack (twoRuleBlob 7 0 0)
  = (fst (SetEntries acceptStack (twoRuleBlob 7 0 0)), Err ErrInvalidArgument)
  /\ fst (SetEntries acceptStack (twoRuleBlob 7 0 0)) = acceptStack.
Proof.
  assert (H : SetEntries acceptStack (twoRuleBlob 7 0 0)
              = (fst (SetEntries acceptStack (twoRuleBlob 7 0 0)),
                 Err ErrInvalidArgument))
    by (vm_compute; reflexivity).
  split; [exact H |].
  exact (proj1 (C4_replace_atomicity acceptStack (twoRuleBlob 7 0 0) _) _ H).
Defined.

Lemma C6_parseMatchers_exhaustion_witness :
  parseMatchers (MM := rawMatchers) {| Filter_Protocol := 17 |}
                (rawBlock [x01; x02] ++ rawBlock [])
  = Ok [[x01; x02; x00; x00; x00; x00; x00; x00]; []]
  /\ exists blocks,
       rawBlock [x01; x02] ++ rawBlock [] = concat blocks
       /\ Forall2 (matcherBlock (MM := rawMatchers) {| Filter_Protocol := 17 |})
                  blocks [[x01; x02; x00; x00; x00; x00; x00; x00]; []].
Proof.
  assert (H : parseMatchers (MM := rawMatchers) {| Filter_Protocol := 17 |}
                (rawBlock [x01; x02] ++ rawBlock [])
              = Ok [[x01; x02; x00; x00; x00; x00; x00; x00]; []])
    by (vm_compute; reflexivity).
  split; [exact H |].
  exact (proj1 (proj1 (C6_parseMatchers_exhaustion (MM := rawMatchers) _ _) _) H).
Defined.

Lemma C7_hook_completeness_witness :
  parseReplace (twoRuleBlob 7 0 0)
  = Ok (replaceHeaderOf (twoRuleBlob 7 0 0), twoRuleTable, [0; 152])
  /\ Z.land (ValidHooks twoRuleTable) (Z.shiftl 1 (Z.of_N Input)) <> 0
  /\ Replace_HookEntry (replaceHeaderOf (twoRuleBlob 7 0 0)) !! N.to_nat Input
     = Some 7
  /\ (7 ∉ [0; 152])
  /\ SetEntries acceptStack (twoRuleBlob 7 0 0)
     = (acceptStack, Err ErrInvalidArgument).
Proof.
  assert (H1 : parseReplace (twoRuleBlob 7 0 0)
               = Ok (replaceHeaderOf (twoRuleBlob 7 0 0), twoRuleTable,
                     [0; 152]))
    by (vm_compute; reflexivity).
  assert (H2 : Z.land (ValidHooks twoRuleTable) (Z.shiftl 1 (Z.of_N Input))
               <> 0)
    by (vm_compute; discriminate).
  assert (H3 : Replace_HookEntry (replaceHeaderOf (twoRuleBlob 7 0 0))
                 !! N.to_nat Input = Some 7)
    by (vm_compute; reflexivity).
  assert (H4 : 7 ∉ [0; 152])
    by (rewrite !not_elem_of_cons; repeat split; try lia;
        apply not_elem_of_nil).
  split; [exact H1 |]. split; [exact H2 |]. split; [exact H3 |].
  split; [exact H4 |].
  exact (proj1 (C7_hook_completeness acceptStack _ _ _ _ H1) Input 7 H2 H3 H4).
Defined.

Lemma C8_encoder_metadata_witness :
  (String.length "filter" <= XT_TABLE_MAXNAMELEN)%nat
  /\ (forall e, convertNetstackToBinary "filter" acceptTable <> Err e).
Proof.
  assert (H : (String.length "filter" <= XT_TABLE_MAXNAMELEN)%nat)
    by (vm_compute; lia).
  split; [exact H |].
  exact (proj1 (C8_encoder_metadata "filter" acceptTable H)).
Defined.

Lemma C9_non_input_policy_witness :
  parseReplace (twoRuleBlob 0 152 0)
  = Ok (replaceHeaderOf (twoRuleBlob 0 152 0), twoRuleTable, [0; 152])
  /\ resolveHooks (replaceHeaderOf (twoRuleBlob 0 152 0)) [0; 152] twoRuleTable
     = Ok (chainsAt twoRuleTable 0 1 0)
  /\ SetEntries acceptStack (twoRuleBlob 0 152 0)
     = (acceptStack, Err ErrInvalidArgument).
Proof.
  assert (H1 : parseReplace (twoRuleBlob 0 152 0)
               = Ok (replaceHeaderOf (twoRuleBlob 0 152 0), twoRuleTable,
                     [0; 152]))
    by (vm_compute; reflexivity).
  assert (H2 : resolveHooks (replaceHeaderOf (twoRuleBlob 0 152 0)) [0; 152]
                 twoRuleTable
               = Ok (chainsAt twoRuleTable 0 1 0))
    by (vm_compute; reflexivity).
  split; [exact H1 |]. split; [exact H2 |].
  refine (proj1 (C9_non_input_policy acceptStack _ _ _ _ _ H1 H2)
            Forward 1 dropRule _ _ _ _).
  - vm_compute. reflexivity.
  - vm_compute. discriminate.
  - vm_compute. reflexivity.
  - vm_compute. discriminate.
Defined.

Lemma C10_trailing_bytes_witness :
  SetEntries emptyStack (acceptBlob 152) = (acceptStack, Ok tt)
  /\ SetEntries emptyStack (acceptBlob 152 ++ [x01; x02; x03])
     = (acceptStack, Ok tt).
Proof.
  assert (H : SetEntries emptyStack (acceptBlob 152) = (acceptStack, Ok tt))
    by (vm_compute; reflexivity).
  split; [exact H |].
  exact (proj1 (C10_trailing_bytes emptyStack _ [x01; x02; x03] _ H)).
Defined.

End Instances.

(** ** Further properties of the codec *)

Section CodecProperties.
Import linux iptables.

(** A marshalled target parses back to the target; its block is a
    standard or an error target block, a multiple of eight bytes. *)
Lemma marshalTarget_parse t bytes :
  marshalTarget t = Some bytes ->
  parseTarget bytes = Ok t /\ len bytes mod 8 = 0
  /\ (len bytes = 40 \/ len bytes = 64).
Proof.
  destruct t; cbn [marshalTarget]; intros [= <-];
    (split; [vm_compute; reflexivity |]); split;
    first [reflexivity | left; reflexivity | right; reflexivity].
Qed.

(** Property X1.  Target round trip: the block [marshalTarget] builds for
    a target is parsed back to that target by [parseTarget]; its length is
    that of a standard or of an error target, a multiple of eight. *)
Theorem X1_target_round_trip t bytes :
  marshalTarget t = Some bytes ->
  parseTarget bytes = Ok t
  /\ len bytes mod 8 = 0
  /\ (len bytes = SizeOfXTStandardTarget \/ len bytes = SizeOfXTErrorTarget).
Proof. apply marshalTarget_parse. Qed.

(** Property X2.  The verdicts [translateFromStandardVerdict] encodes have
    distinct wire values, all of them negative 32-bit integers. *)
Theorem X2_verdict_wire_injective v1 v2 w :
  translateFromStandardVerdict v1 = Some w ->
  translateFromStandardVerdict v2 = Some w ->
  v1 = v2 /\ - 2 ^ 31 <= w < 0.
Proof.
  destruct v1, v2; cbn; intros H1 H2; try discriminate;
    injection H1 as <-; try discriminate H2;
    (split; [reflexivity | vm_compute; split; [discriminate | reflexivity]]).
Qed.

Lemma containsUnsupportedFields_false iptip :
  containsUnsupportedFields iptip = false <-> onlyProtocol iptip.
Proof.
  unfold containsUnsupportedFields, onlyProtocol.
  rewrite !orb_false_iff, !negb_false_iff, !bool_decide_eq_true, !Z.eqb_eq.
  tauto.
Qed.

End CodecProperties.

Section RejectionProperties.
Context {MM : MatchMakers}.
Import linux iptables.

Lemma parseEntry_unsupported optVal :
  ~ onlyProtocol (IP (entryHeaderOf optVal)) ->
  parseEntry optVal = Err ErrInvalidArgument.
Proof.
  intros Hno.
  destruct (Z.lt_ge_cases (len optVal) SizeOfIPTEntry) as [H | H].
  { apply parseEntry_short, H. }
  rewrite parseEntry_eq by exact H. cbn zeta.
  destruct (_ <? SizeOfIPTEntry); [reflexivity |].
  unfold filterFromIPTIP.
  destruct (containsUnsupportedFields _) eqn:E; [reflexivity |].
  apply containsUnsupportedFields_false in E. contradiction.
Qed.

Lemma parseReplace_first_entry optVal :
  0 < Replace_NumEntries (replaceHeaderOf optVal) ->
  parseEntry (drop 96 optVal) = Err ErrInvalidArgument ->
  parseReplace optVal = Err ErrInvalidArgument.
Proof.
  intros Hn He. unfold parseReplace.
  unfold SizeOfIPTReplace.
  destruct (Z.ltb_spec (len optVal) 96); [reflexivity |].
  rewrite slice_to_Ok, slice_from_Ok by lia. cbn [bind].
  unfold binary.UnmarshalIPTReplace, SizeOfIPTReplace. rewrite len_take by lia.
  change (96 <? 96) with false. cbn [bind].
  change (binary.decodeIPTReplace (take (Z.to_nat 96) optVal))
    with (replaceHeaderOf optVal).
  change (Z.to_nat 96) with 96%nat.
  destruct (String.eqb _ _); [| reflexivity].
  destruct (Z.to_nat (Replace_NumEntries (replaceHeaderOf optVal)))
    as [| n] eqn:En; [lia |].
  cbn [parseEntries]. rewrite He. reflexivity.
Qed.

Lemma decodeTable_parse_Err optVal :
  parseReplace optVal = Err ErrInvalidArgument ->
  decodeTable optVal = Err ErrInvalidArgument.
Proof. intros H. unfold decodeTable. rewrite H. reflexivity. Qed.

(** Property X3.  An entry whose header sets an address, a mask, an
    interface or a flag is rejected by the turn that reads it, whatever the
    matcher region holds; when it is the first entry of a blob that
    declares an entry, [SetEntries] returns the invalid-argument error and
    leaves the stack. *)
Theorem X3_unsupported_fields_rejected (stk : stack.Stack Matcher) optVal :
  0 < Replace_NumEntries (replaceHeaderOf optVal) ->
  ~ onlyProtocol (IP (entryHeaderOf (drop 96 optVal))) ->
  parseEntry (drop 96 optVal) = Err ErrInvalidArgument
  /\ SetEntries stk optVal = (stk, Err ErrInvalidArgument).
Proof.
  intros Hn Hno.
  pose proof (parseEntry_unsupported _ Hno) as He.
  split; [exact He |].
  apply SetEntries_Err, decodeTable_parse_Err, parseReplace_first_entry;
    assumption.
Qed.

(** Property X4.  A buffer shorter than the replace header, or a header
    that names a table other than the filter table, makes [SetEntries]
    return the invalid-argument error and leave the stack. *)
Theorem X4_header_rejected (stk : stack.Stack Matcher) optVal :
  len optVal < SizeOfIPTReplace
  \/ name_String (Replace_Name (replaceHeaderOf optVal)) <> TablenameFilter ->
  SetEntries stk optVal = (stk, Err ErrInvalidArgument).
Proof.
  intros H. apply SetEntries_Err, decodeTable_parse_Err.
  unfold parseReplace, SizeOfIPTReplace in *.
  destruct (Z.ltb_spec (len optVal) 96); [reflexivity |].
  destruct H as [H | H]; [lia |].
  rewrite slice_to_Ok, slice_from_Ok by lia. cbn [bind].
  unfold binary.UnmarshalIPTReplace, SizeOfIPTReplace. rewrite len_take by lia.
  change (96 <? 96) with false. cbn [bind].
  change (binary.decodeIPTReplace (take (Z.to_nat 96) optVal))
    with (replaceHeaderOf optVal).
  destruct (String.eqb_spec
              (name_String (Replace_Name (replaceHeaderOf optVal)))
              TablenameFilter); [contradiction | reflexivity].
Qed.

End RejectionProperties.

Section TruncationProofs.
Context {MM : MatchMakers}.
Import linux iptables.

(** A successful turn has read a prefix of at least an entry header and a
    standard target; the prefixes of [optVal] shorter than it are rejected,
    the longer ones give the same rule. *)
Lemma parseEntry_take optVal rule next rest k :
  parseEntry optVal = Ok (rule, next, rest) ->
  let c := (length optVal - length rest)%nat in
  (152 <= c)%nat
  /\ (length rest <= length optVal)%nat
  /\ ((k < c)%nat -> parseEntry (take k optVal) = Err ErrInvalidArgument)
  /\ ((c <= k)%nat ->
      parseEntry (take k optVal) = Ok (rule, next, take (k - c) rest)).
Proof.
  destruct (Z.lt_ge_cases (len optVal) SizeOfIPTEntry) as [H | H].
  { rewrite parseEntry_short by exact H. discriminate. }
  rewrite (parseEntry_eq optVal H). unfold SizeOfIPTEntry in *. cbn zeta.
  set (entry := entryHeaderOf optVal).
  set (body := drop 112 optVal).
  destruct (Z.ltb_spec (TargetOffset entry) 112) as [| HTO]; [discriminate |].
  destruct (invalid (filterFromIPTIP (IP entry))) as [filter | |] eqn:Ef;
    cbn [bind]; try discriminate.
  pose proof (wrap16_range (TargetOffset entry - 112)) as Hm.
  set (msize := wrap16 (TargetOffset entry - 112)) in *.
  destruct (Z.ltb_spec (len body) msize) as [| Hmb]; [discriminate |].
  destruct (invalid (parseMatchers filter (take (Z.to_nat msize) body)))
    as [matchers | |] eqn:Em; cbn [bind]; try discriminate.
  set (body' := drop (Z.to_nat msize) body).
  pose proof (wrap16_range (NextOffset entry - TargetOffset entry)) as Ht.
  set (tsize := wrap16 (NextOffset entry - TargetOffset entry)) in *.
  destruct (Z.ltb_spec (len body') tsize) as [| Htb]; [discriminate |].
  destruct (invalid (parseTarget (take (Z.to_nat tsize) body')))
    as [target | |] eqn:Et; cbn [bind]; try discriminate.
  intros [= <- <- <-].
  (* the sizes as naturals *)
  assert (Hlb : length body = (length optVal - 112)%nat)
    by (subst body; apply length_drop).
  assert (Hlb' : length body' = (length body - Z.to_nat msize)%nat)
    by (subst body'; apply length_drop).
  assert (Hts : (40 <= Z.to_nat tsize)%nat).
  { apply invalid_Ok, parseTarget_Ok in Et.
    assert (Hl : len (take (Z.to_nat tsize) body') = tsize)
      by (apply len_take; lia).
    unfold SizeOfXTStandardTarget, SizeOfXTErrorTarget in Et.
    destruct Et as [(He & _) | (He & _)]; lia. }
  unfold len in *.
  rewrite length_drop, Hlb', Hlb.
  set (a := Z.to_nat msize) in *. set (b := Z.to_nat tsize) in *.
  split; [lia |]. split; [lia |].
  assert (Hhdr : (112 <= k)%nat -> entryHeaderOf (take k optVal) = entry).
  { intros Hk. unfold entry, entryHeaderOf. rewrite take_take.
    do 2 f_equal. lia. }
  assert (Hbody : drop 112 (take k optVal) = take (k - 112) body)
    by (subst body; apply skipn_firstn_comm).
  split.
  - intros Hk.
    destruct (Nat.lt_ge_cases k 112) as [Hs | Hs].
    { apply parseEntry_short. unfold len, SizeOfIPTEntry.
      rewrite length_take. lia. }
    rewrite parseEntry_eq
      by (unfold len, SizeOfIPTEntry; rewrite length_take; lia).
    unfold SizeOfIPTEntry. cbn zeta. rewrite (Hhdr Hs), Hbody.
    destruct (Z.ltb_spec (TargetOffset entry) 112); [reflexivity |].
    rewrite Ef. cbn [bind]. fold msize.
    unfold len. rewrite length_take.
    destruct (Z.ltb_spec (Z.of_nat ((k - 112) `min` length body)) msize);
      [reflexivity |].
    fold a. rewrite take_take.
    replace (a `min` (k - 112))%nat with a by lia.
    rewrite Em. cbn [bind].
    rewrite skipn_firstn_comm. fold body'. fold tsize.
    rewrite length_take.
    destruct (Z.ltb_spec (Z.of_nat ((k - 112 - a) `min` length body')) tsize);
      [reflexivity | lia].
  - intros Hk.
    rewrite parseEntry_eq
      by (unfold len, SizeOfIPTEntry; rewrite length_take; lia).
    unfold SizeOfIPTEntry. cbn zeta. rewrite Hhdr, Hbody by lia.
    destruct (Z.ltb_spec (TargetOffset entry) 112); [lia |].
    rewrite Ef. cbn [bind]. fold msize.
    unfold len. rewrite length_take.
    destruct (Z.ltb_spec (Z.of_nat ((k - 112) `min` length body)) msize);
      [lia |].
    fold a. rewrite take_take.
    replace (a `min` (k - 112))%nat with a by lia.
    rewrite Em. cbn [bind].
    rewrite skipn_firstn_comm. fold body'. fold tsize.
    rewrite length_take.
    destruct (Z.ltb_spec (Z.of_nat ((k - 112 - a) `min` length body')) tsize);
      [lia |].
    fold b. rewrite take_take.
    replace (b `min` (k - 112 - a))%nat with b by lia.
    rewrite Et. cbn [bind].
    rewrite skipn_firstn_comm. do 3 f_equal. lia.
Qed.

(** The loop over the entries reads a prefix of at least 152 bytes an
    entry; shorter prefixes of [optVal] are rejected, longer ones give the
    same table. *)
Lemma parseEntries_take n : forall optVal offset table offsets r,
  parseEntries n optVal offset table offsets = Ok r ->
  exists c : nat,
    (152 * n <= c <= length optVal)%nat
    /\ forall k,
         ((k < c)%nat ->
          parseEntries n (take k optVal) offset table offsets
          = Err ErrInvalidArgument)
         /\ ((c <= k)%nat ->
             parseEntries n (take k optVal) offset table offsets = Ok r).
Proof.
  induction n as [| n IH]; intros optVal offset table offsets r H.
  - exists 0%nat. split; [lia |]. intros k. split; [lia |]. intros _. exact H.
  - cbn [parseEntries] in H.
    destruct (parseEntry optVal) as [[[rule next] rest] | |] eqn:E;
      cbn [bind] in H; try discriminate H.
    destruct (IH _ _ _ _ _ H) as (c' & Hc' & Hk').
    pose proof (fun k => parseEntry_take optVal rule next rest k E) as Hk1.
    cbn zeta in Hk1.
    destruct (Hk1 0%nat) as (Hc1 & Hr1 & _).
    exists (length optVal - length rest + c')%nat. split; [lia |].
    intros k. destruct (Hk1 k) as (_ & _ & Hlt & Hge).
    cbn [parseEntries]. split; intros Hk.
    + destruct (Nat.lt_ge_cases k (length optVal - length rest)) as [Hs | Hs].
      * rewrite (Hlt Hs). reflexivity.
      * rewrite (Hge Hs). cbn [bind].
        apply (proj1 (Hk' _)). lia.
    + rewrite Hge by lia. cbn [bind]. apply (proj2 (Hk' _)). lia.
Qed.

(** The first part of [SetEntries] once the header fits. *)
Lemma parseReplace_eq optVal :
  SizeOfIPTReplace <= len optVal ->
  parseReplace optVal =
    if String.eqb (name_String (Replace_Name (replaceHeaderOf optVal)))
                  TablenameFilter
    then
      let* (table, offsets) :=
        parseEntries (Z.to_nat (Replace_NumEntries (replaceHeaderOf optVal)))
                     (drop 96 optVal) 0 EmptyFilterTable [] in
      Ok (replaceHeaderOf optVal, table, offsets)
    else Err ErrInvalidArgument.
Proof.
  intros H. unfold parseReplace, SizeOfIPTReplace in *.
  destruct (Z.ltb_spec (len optVal) 96); [lia |].
  rewrite slice_to_Ok, slice_from_Ok by lia. cbn [bind].
  unfold binary.UnmarshalIPTReplace, SizeOfIPTReplace. rewrite len_take by lia.
  change (96 <? 96) with false. reflexivity.
Qed.

Lemma parseReplace_take optVal r :
  parseReplace optVal = Ok r ->
  exists c : nat,
    (96 + 152 * Z.to_nat (Replace_NumEntries (replaceHeaderOf optVal)) <= c
     <= length optVal)%nat
    /\ forall k,
         ((k < c)%nat ->
          parseReplace (take k optVal) = Err ErrInvalidArgument)
         /\ ((c <= k)%nat -> parseReplace (take k optVal) = Ok r).
Proof.
  intros H.
  destruct (Z.lt_ge_cases (len optVal) SizeOfIPTReplace) as [Hs | Hl].
  { unfold parseReplace in H.
    destruct (Z.ltb_spec (len optVal) SizeOfIPTReplace); [discriminate | lia]. }
  rewrite (parseReplace_eq _ Hl) in H. unfold SizeOfIPTReplace in *.
  destruct (String.eqb _ _) eqn:En; [| discriminate].
  destruct (parseEntries _ _ _ _ _) as [[t o] | |] eqn:Ep; cbn [bind] in H;
    try discriminate.
  destruct (parseEntries_take _ _ _ _ _ _ Ep) as (c & Hc & Hk).
  rewrite length_drop in Hc. unfold len in Hl.
  exists (96 + c)%nat. split; [lia |].
  assert (Hhdr : forall k, (96 <= k)%nat ->
            replaceHeaderOf (take k optVal) = replaceHeaderOf optVal).
  { intros k Hk96. unfold replaceHeaderOf. rewrite take_take.
    do 2 f_equal. lia. }
  intros k. split; intros Hkc.
  - destruct (Nat.lt_ge_cases k 96) as [Hk96 | Hk96].
    { unfold parseReplace, SizeOfIPTReplace, len. rewrite length_take.
      destruct (Z.ltb_spec (Z.of_nat (k `min` length optVal)) 96);
        [reflexivity | lia]. }
    rewrite parseReplace_eq
      by (unfold SizeOfIPTReplace, len; rewrite length_take; lia).
    rewrite (Hhdr k Hk96), En, skipn_firstn_comm.
    rewrite (proj1 (Hk (k - 96)%nat)) by lia. reflexivity.
  - rewrite parseReplace_eq
      by (unfold SizeOfIPTReplace, len; rewrite length_take; lia).
    rewrite Hhdr by lia. rewrite En, skipn_firstn_comm.
    rewrite (proj2 (Hk (k - 96)%nat)) by lia. exact H.
Qed.

(** Property X5.  Rejection on truncation: a blob that [SetEntries]
    accepts has a prefix, of at least the replace header and 152 bytes an
    entry, such that every shorter prefix of the blob is rejected with the
    invalid-argument error, the stack left as it was, and every longer one
    is accepted with the same result. *)
Theorem X5_truncation_rejected (stk stk' : stack.Stack Matcher) optVal :
  SetEntries stk optVal = (stk', Ok tt) ->
  exists c : nat,
    (96 + 152 * Z.to_nat (Replace_NumEntries (replaceHeaderOf optVal)) <= c
     <= length optVal)%nat
    /\ forall k,
         ((k < c)%nat ->
          SetEntries stk (take k optVal) = (stk, Err ErrInvalidArgument))
         /\ ((c <= k)%nat -> SetEntries stk (take k optVal) = (stk', Ok tt)).
Proof.
  intros H. apply SetEntries_Ok in H.
  destruct H as (replace & table & Hd & ->).
  apply decodeTable_Ok in Hd. destruct Hd as (t0 & os & Hp & Hr & Hc).
  destruct (parseReplace_take _ _ Hp) as (c & Hb & Hk).
  exists c. split; [exact Hb |]. intros k. split; intros Hkc.
  - apply SetEntries_Err. unfold decodeTable.
    rewrite (proj1 (Hk k) Hkc). reflexivity.
  - apply SetEntries_Ok. exists replace, table. split; [| reflexivity].
    apply decodeTable_Ok. exists t0, os. rewrite (proj2 (Hk k) Hkc). auto.
Qed.
End TruncationProofs.

Section ReadBackProofs.
Context {MM : MatchMakers}.
Import linux iptables.

(** The mask of a table whose chains are those of the filter table. *)
Lemma ValidHooks_filter (table : Table Matcher) :
  (forall hook, is_Some (BuiltinChains table !! hook) <-> filterHook hook) ->
  ValidHooks table = 14.
Proof.
  intros Hkeys. apply Z.bits_inj'. intros h Hh.
  destruct (Z.testbit (ValidHooks table) h) eqn:Eb.
  - unfold ValidHooks in Eb. apply hook_mask_bits in Eb; [| exact Hh].
    destruct Eb as (k & v & Hin & <-).
    apply elem_of_map_to_list in Hin.
    assert (Hf : filterHook k) by (apply Hkeys; eauto).
    destruct Hf as [-> | [-> | ->]]; reflexivity.
  - destruct (Z.testbit 14 h) eqn:E14; [| reflexivity].
    assert (Hf : filterHook (Z.to_N h)).
    { assert (h = 1 \/ h = 2 \/ h = 3) as [-> | [-> | ->]].
      { destruct (Z.eq_dec h 0) as [-> | ?]; [discriminate E14 |].
        destruct (Z.eq_dec h 1); [auto |].
        destruct (Z.eq_dec h 2); [auto |].
        destruct (Z.eq_dec h 3); [auto |].
        assert (Hbig : 4 <= h) by lia.
        rewrite (Z.bits_above_log2 14 h) in E14; [discriminate | lia |].
        change (Z.log2 14) with 3. lia. }
      all: unfold filterHook, Input, Forward, Output; auto. }
    apply Hkeys in Hf. destruct Hf as [v Hv].
    assert (Ht : Z.testbit (ValidHooks table) h = true).
    { unfold ValidHooks. apply hook_mask_bits; [exact Hh |].
      exists (Z.to_N h), v. split; [apply elem_of_map_to_list, Hv | lia]. }
    congruence.
Qed.

(** What a successful [SetEntries] has stored. *)
Lemma SetEntries_stored (stk stk' : stack.Stack Matcher) optVal :
  SetEntries stk optVal = (stk', Ok tt) ->
  exists table0 offsets table,
    parseReplace optVal = Ok (replaceHeaderOf optVal, table0, offsets)
    /\ resolveHooks (replaceHeaderOf optVal) offsets table0 = Ok table
    /\ name_String (Replace_Name (replaceHeaderOf optVal)) = TablenameFilter
    /\ stk' = stack.SetIPTables stk
                {| Tables :=
                     <[TablenameFilter
                       := installedTable (replaceHeaderOf optVal) table]>
                       (Tables (stack.IPTables stk)) |}.
Proof.
  intros H. apply SetEntries_Ok in H.
  destruct H as (replace & table & Hd & ->).
  apply decodeTable_Ok in Hd. destruct Hd as (t0 & os & Hp & Hr & Hc).
  pose proof Hp as Hp'. apply parseReplace_Ok in Hp'.
  destruct Hp' as (_ & -> & Hname & _).
  exists t0, os, table. rewrite Hname. auto.
Qed.

Lemma findTable_filter (stk : stack.Stack Matcher) table name :
  name_String name = TablenameFilter ->
  findTable
    (stack.SetIPTables stk
       {| Tables := <[TablenameFilter := table]> (Tables (stack.IPTables stk)) |})
    name = Ok table.
Proof.
  intros Hn. unfold findTable.
  cbn [stack.IPTables stack.SetIPTables stack.tables Tables].
  rewrite Hn, lookup_insert_eq. reflexivity.
Qed.

Lemma findTable_other (stk : stack.Stack Matcher) table name :
  name_String name <> TablenameFilter ->
  findTable
    (stack.SetIPTables stk
       {| Tables := <[TablenameFilter := table]> (Tables (stack.IPTables stk)) |})
    name = findTable stk name.
Proof.
  intros Hn. unfold findTable.
  cbn [stack.IPTables stack.SetIPTables stack.tables Tables].
  rewrite lookup_insert_ne by congruence. reflexivity.
Qed.

(** Property X6.  After a successful [SetEntries] the filter table is
    found in the stack; it has as many rules as the header declares, at
    least one; its metadata are the header's declared values; its chains
    and underflows are exactly those of the hooks input, forward and
    output, at rule indices below the entry count. *)
Theorem X6_accepted_table (stk stk' : stack.Stack Matcher) optVal :
  SetEntries stk optVal = (stk', Ok tt) ->
  let header := replaceHeaderOf optVal in
  name_String (Replace_Name header) = TablenameFilter
  /\ 1 <= Replace_NumEntries header
  /\ exists table,
       findTable stk' (Replace_Name header) = Ok table
       /\ length (Rules table) = Z.to_nat (Replace_NumEntries header)
       /\ Table_metadata table
          = Some {| HookEntry := Replace_HookEntry header;
                    Underflow := Replace_Underflow header;
                    NumEntries := Replace_NumEntries header;
                    Size := Replace_Size header |}
       /\ (forall hook,
             (is_Some (BuiltinChains table !! hook) <-> filterHook hook)
             /\ (is_Some (Underflows table !! hook) <-> filterHook hook))
       /\ (forall hook idx,
             BuiltinChains table !! hook = Some idx
             \/ Underflows table !! hook = Some idx ->
             0 <= idx < Replace_NumEntries header).
Proof.
  intros H header.
  destruct (SetEntries_stored _ _ _ H) as (t0 & os & table & Hp & Hr & Hn & ->).
  fold header in Hp, Hr, Hn.
  destruct (parseReplace_table _ _ _ _ Hp)
    as (Hfresh & Hlen & Hlo & _ & HlE & HlU).
  destruct (resolveHooks_filter header os t0 HlE HlU Hfresh)
    as [[Herr _] | (t' & i1 & i2 & i3 & j1 & j2 & j3 & Hok & HR & _ & _
                    & Si1 & Si2 & Si3 & Sj1 & Sj2 & Sj3
                    & _ & _ & _ & _ & _ & _ & HB & HF)];
    [congruence |].
  rewrite Hok in Hr. injection Hr as ->.
  destruct Hfresh as [HB0 HF0].
  assert (Hkeys : forall k,
            BuiltinChains t0 !! k
            = BuiltinChains (EmptyFilterTable (Matcher := Matcher)) !! k)
    by (intros; rewrite HB0; reflexivity).
  assert (Hkeys' : forall k,
            Underflows t0 !! k
            = BuiltinChains (EmptyFilterTable (Matcher := Matcher)) !! k)
    by (intros; rewrite HF0; reflexivity).
  assert (Hpos : (0 < length os)%nat)
    by (destruct Si1 as [? S]; apply lookup_lt_Some in S; lia).
  split; [exact Hn |]. split; [lia |].
  exists (installedTable header table).
  split; [apply findTable_filter, Hn |].
  cbn [installedTable SetMetadata Rules Table_metadata BuiltinChains Underflows].
  split; [congruence |]. split; [reflexivity |]. split.
  - intros hook. rewrite HB, HF. split; split.
    + intros [idx Hl].
      destruct (filter_keys _ _ _ _ _ _ Hl Hkeys)
        as [[-> _] | [[-> _] | [-> _]]]; unfold filterHook; auto.
    + intros [-> | [-> | ->]]; rewrite !lookup_insert; repeat case_decide;
        try discriminate; try congruence; eauto.
    + intros [idx Hl].
      destruct (filter_keys _ _ _ _ _ _ Hl Hkeys')
        as [[-> _] | [[-> _] | [-> _]]]; unfold filterHook; auto.
    + intros [-> | [-> | ->]]; rewrite !lookup_insert; repeat case_decide;
        try discriminate; try congruence; eauto.
  - assert (Hi : forall i, is_Some (os !! i) ->
              0 <= Z.of_nat i < Replace_NumEntries header).
    { intros i [? S]. apply lookup_lt_Some in S. lia. }
    intros hook idx [Hl | Hl]; [rewrite HB in Hl | rewrite HF in Hl].
    + destruct (filter_keys _ _ _ _ _ _ Hl Hkeys)
        as [[_ ->] | [[_ ->] | [_ ->]]]; auto.
    + destruct (filter_keys _ _ _ _ _ _ Hl Hkeys')
        as [[_ ->] | [[_ ->] | [_ ->]]]; auto.
Qed.

(** Property X7.  After a successful [SetEntries], [GetInfo] for the
    filter table returns the mask of the three filter hooks and the
    offsets, entry count and size the replace header declared; for any
    other table it returns what it returned before. *)
Theorem X7_GetInfo_after_SetEntries (stk stk' : stack.Stack Matcher) optVal info :
  SetEntries stk optVal = (stk', Ok tt) ->
  (name_String (Getinfo_Name info) = TablenameFilter ->
   GetInfo stk' info
   = Ok {| Getinfo_Name := Getinfo_Name info;
           Getinfo_ValidHooks := 14;
           Getinfo_HookEntry := Replace_HookEntry (replaceHeaderOf optVal);
           Getinfo_Underflow := Replace_Underflow (replaceHeaderOf optVal);
           Getinfo_NumEntries := Replace_NumEntries (replaceHeaderOf optVal);
           Getinfo_Size := Replace_Size (replaceHeaderOf optVal) |})
  /\ (name_String (Getinfo_Name info) <> TablenameFilter ->
      GetInfo stk' info = GetInfo stk info).
Proof.
  intros H.
  destruct (SetEntries_stored _ _ _ H) as (t0 & os & table & Hp & Hr & Hn & ->).
  split; intros Hname; unfold GetInfo.
  - rewrite findTable_filter by exact Hname. cbn [invalid mapErr bind].
    cbn [installedTable SetMetadata Table_metadata orPanic bind
           HookEntry Underflow NumEntries Size].
    f_equal. f_equal.
    destruct (resolveHooks_Ok _ _ _ _ _ Hp Hr) as (_ & _ & _ & Hsome & Hin).
    apply ValidHooks_filter. intros hook.
    cbn [BuiltinChains]. split.
    + intros [idx Hl]. apply (Hin hook idx Hl).
    + intros Hf. apply (Hsome hook Hf).
  - rewrite findTable_other by exact Hname. reflexivity.
Qed.



End ReadBackProofs.

Section EntryLayoutProofs.
Context {MM : MatchMakers}.
Import linux iptables.

Lemma wrap16_add_r a b : wrap16 (a + wrap16 b) = wrap16 (a + b).
Proof. unfold wrap16. apply Z.add_mod_idemp_r. lia. Qed.

Lemma wrap16_add_l a b : wrap16 (wrap16 a + b) = wrap16 (a + b).
Proof. unfold wrap16. apply Z.add_mod_idemp_l. lia. Qed.

Lemma wrap16_add_m a b c : wrap16 (a + wrap16 b + c) = wrap16 (a + (b + c)).
Proof.
  replace (a + wrap16 b + c) with (wrap16 b + (a + c)) by lia.
  rewrite wrap16_add_l. f_equal. lia.
Qed.

(** The loop over a rule's matchers appends their blocks and moves both
    offsets by the blocks' length, in 16 bits. *)
Lemma addMatchers_layout (ms : list Matcher) : forall e0 e1,
  foldM addMatcher ms e0 = Ok e1 ->
  exists blocks,
    Forall2 (fun m b => marshalMatcher m = Some b /\ len b mod 8 = 0) ms blocks
    /\ Elems e1 = Elems e0 ++ concat blocks
    /\ IP (Entry e1) = IP (Entry e0)
    /\ wrap16 (TargetOffset (Entry e1))
       = wrap16 (TargetOffset (Entry e0) + len (concat blocks))
    /\ wrap16 (NextOffset (Entry e1))
       = wrap16 (NextOffset (Entry e0) + len (concat blocks))
    /\ (ms <> [] -> TargetOffset (Entry e1) = wrap16 (TargetOffset (Entry e1))
                    /\ NextOffset (Entry e1) = wrap16 (NextOffset (Entry e1)))
    /\ (ms = [] -> e1 = e0).
Proof.
  induction ms as [| m ms IH]; intros e0 e1 H.
  - cbn in H. injection H as <-. exists [].
    cbn [concat]. rewrite app_nil_r.
    replace (len (@nil byte)) with 0 by reflexivity. rewrite !Z.add_0_r.
    split; [constructor |]. do 4 (split; [reflexivity |]).
    split; [congruence | reflexivity].
  - cbn [foldM] in H. unfold addMatcher at 1 in H.
    destruct (marshalMatcher m) as [b |] eqn:Em; cbn [orPanic bind] in H;
      [| discriminate H].
    destruct (Z.eqb_spec (len b mod 8) 0) as [Hal |]; cbn [negb] in H;
      [| discriminate H].
    cbn [bind] in H. apply IH in H.
    destruct H as (blocks & Hall & HE & HIP & HT & HN & Hne & Hnil).
    cbn [appendElems Entry Elems IP TargetOffset NextOffset] in *.
    exists (b :: blocks). cbn [concat]. rewrite len_app.
    split; [constructor; auto |].
    split; [rewrite HE, <- app_assoc; reflexivity |].
    split; [exact HIP |].
    rewrite wrap16_add_l, wrap16_add_m in HT, HN.
    split; [exact HT |]. split; [exact HN |].
    split; [| discriminate]. intros _.
    destruct ms as [| m' ms'].
    + rewrite (Hnil eq_refl).
      cbn [appendElems Entry TargetOffset NextOffset].
      unfold wrap16. rewrite !Z.mod_mod by lia. auto.
    + apply Hne. discriminate.
Qed.

(** The entry [convertRule] appends for a rule. *)
Lemma convertRule_entry table entries meta ruleIdx (rule : Rule Matcher)
  entries' meta' :
  convertRule table (entries, meta) (ruleIdx, rule) = Ok (entries', meta') ->
  exists entry blocks tblock,
    Entrytable entries' = Entrytable entries ++ [entry]
    /\ Forall2 (fun m b => marshalMatcher m = Some b /\ len b mod 8 = 0)
               (Matchers rule) blocks
    /\ marshalTarget (Rule_Target rule) = Some tblock
    /\ Elems entry = concat blocks ++ tblock
    /\ TargetOffset (Entry entry) = wrap16 (112 + len (concat blocks))
    /\ NextOffset (Entry entry)
       = wrap16 (112 + len (concat blocks) + len tblock)
    /\ len (Elems entry) mod 8 = 0
    /\ Protocol (IP (Entry entry)) = wrap16 (Filter_Protocol (Filter rule))
    /\ onlyProtocol (IP (Entry entry)).
Proof.
  unfold convertRule. intros H.
  destruct (recordOffsets _ _ _ (HookEntry meta)); cbn [bind] in H;
    try discriminate H.
  destruct (recordOffsets _ _ _ (Underflow meta)); cbn [bind] in H;
    try discriminate H.
  destruct (foldM addMatcher _ _) as [e1 | |] eqn:E1; cbn [bind] in H;
    try discriminate H.
  unfold addTarget in H.
  destruct (marshalTarget (Rule_Target rule)) as [tblock |] eqn:Et;
    cbn [orPanic bind] in H; [| discriminate H].
  destruct (Z.eqb_spec (len tblock mod 8) 0) as [Hal |]; cbn [negb] in H;
    [| discriminate H].
  injection H as <- <-.
  apply addMatchers_layout in E1.
  destruct E1 as (blocks & Hall & HE & HIP & HT & HN & Hne & Hnil).
  cbn [newEntry Entry Elems IP TargetOffset NextOffset app] in *.
  unfold SizeOfIPTEntry in *.
  exists (appendElems false e1 tblock), blocks, tblock.
  cbn [appendElems Entry Elems IP TargetOffset NextOffset Entrytable].
  assert (HTO : TargetOffset (Entry e1) = wrap16 (112 + len (concat blocks))).
  { destruct (Matchers rule) as [| m ms].
    - rewrite (Hnil eq_refl). inversion Hall; subst. reflexivity.
    - destruct Hne as [-> _]; [discriminate | exact HT]. }
  assert (Hlen : len (concat blocks) mod 8 = 0).
  { clear -Hall. induction Hall as [| m b ms bs [_ Hb] _ IH];
      [reflexivity |].
    cbn [concat]. rewrite len_app, Z.add_mod, Hb, IH by lia. reflexivity. }
  split; [reflexivity |]. split; [exact Hall |]. split; [reflexivity |].
  split; [rewrite HE; reflexivity |]. split; [exact HTO |].
  split; [rewrite wrap16_add_r, <- wrap16_add_l, HN, wrap16_add_l;
          f_equal; lia |].
  split; [rewrite HE, len_app, Z.add_mod, Hlen, Hal by lia; reflexivity |].
  rewrite HIP. cbn [IP Protocol]. split; [reflexivity |].
  unfold onlyProtocol. cbn. repeat split; reflexivity.
Qed.

(** Property X9.  The entry [convertRule] appends for a rule holds the
    blocks of the rule's matchers followed by the block of its target, a
    multiple of eight bytes in all; its target offset is the header's size
    plus the matcher blocks' length and its next offset adds the target
    block's length, in 16 bits; below 2^16 bytes the next offset is the
    entry's length. *)
Theorem X9_entry_layout table entries meta ruleIdx (rule : Rule Matcher)
  entries' meta' :
  convertRule table (entries, meta) (ruleIdx, rule) = Ok (entries', meta') ->
  exists entry blocks tblock,
    Entrytable entries' = Entrytable entries ++ [entry]
    /\ Forall2 (fun m b => marshalMatcher m = Some b /\ len b mod 8 = 0)
               (Matchers rule) blocks
    /\ marshalTarget (Rule_Target rule) = Some tblock
    /\ Elems entry = concat blocks ++ tblock
    /\ TargetOffset (Entry entry) = wrap16 (112 + len (concat blocks))
    /\ NextOffset (Entry entry)
       = wrap16 (112 + len (concat blocks) + len tblock)
    /\ len (Elems entry) mod 8 = 0
    /\ (112 + len (Elems entry) < 2 ^ 16 ->
        NextOffset (Entry entry) = 112 + len (Elems entry)
        /\ TargetOffset (Entry entry) = NextOffset (Entry entry) - len tblock).
Proof.
  intros H. apply convertRule_entry in H.
  destruct H as (entry & blocks & tblock & H1 & H2 & H3 & H4 & H5 & H6 & H7 & _).
  exists entry, blocks, tblock. repeat split; try assumption.
  - rewrite H6, H4, len_app. unfold wrap16. rewrite H4, len_app in H.
    pose proof (len_nonneg (concat blocks)). pose proof (len_nonneg tblock).
    rewrite Z.mod_small by lia. lia.
  - rewrite H5, H6. rewrite H4, len_app in H.
    pose proof (len_nonneg (concat blocks)). pose proof (len_nonneg tblock).
    unfold wrap16. rewrite !Z.mod_small by lia. lia.
Qed.

(** Property X10.  Entry round trip: when the registry unmarshals the
    blocks it marshals, and the entry [convertRule] appends for a rule is
    shorter than 2^16 bytes, then [parseEntry] on any buffer that starts
    with that entry (its header, then its elements) gives back the rule,
    with the protocol in 16 bits, the entry's next offset, and the bytes
    after the entry. *)
Theorem X10_entry_round_trip table entries meta ruleIdx (rule : Rule Matcher)
  entries' meta' :
  convertRule table (entries, meta) (ruleIdx, rule) = Ok (entries', meta') ->
  let filter := {| Filter_Protocol := wrap16 (Filter_Protocol (Filter rule)) |} in
  (forall m b, m ∈ Matchers rule -> marshalMatcher m = Some b ->
     matcherBlock filter b m) ->
  exists entry,
    Entrytable entries' = Entrytable entries ++ [entry]
    /\ (112 + len (Elems entry) < 2 ^ 16 ->
        forall buf rest,
          entryHeaderOf buf = Entry entry ->
          drop 112 buf = Elems entry ++ rest ->
          parseEntry buf
          = Ok ({| Filter := filter; Matchers := Matchers rule;
                   Rule_Target := Rule_Target rule |},
                NextOffset (Entry entry), rest)).
Proof.
  intros H filter Hreg. apply convertRule_entry in H.
  destruct H as (entry & blocks & tblock & H1 & Hall & Ht & HE & HT & HN
                 & _ & HP & Hzero).
  exists entry. split; [exact H1 |]. intros Hsmall buf rest Hhdr Hbody.
  rewrite HE, len_app in Hsmall.
  pose proof (len_nonneg (concat blocks)) as Hb0.
  destruct (marshalTarget_parse _ _ Ht) as (Hparse & _ & Htlen).
  assert (Hlen : SizeOfIPTEntry <= len buf).
  { unfold SizeOfIPTEntry.
    assert (Hd : len (drop 112 buf) = len (Elems entry) + len rest)
      by (rewrite Hbody; apply len_app).
    unfold len in *. rewrite length_drop in Hd.
    rewrite HE, length_app in Hd. lia. }
  rewrite (parseEntry_eq buf Hlen). cbn zeta. rewrite Hhdr, Hbody.
  unfold SizeOfIPTEntry. rewrite HT, HN.
  assert (Hw1 : wrap16 (112 + len (concat blocks)) = 112 + len (concat blocks))
    by (unfold wrap16; apply Z.mod_small; lia).
  assert (Hw2 : wrap16 (112 + len (concat blocks) + len tblock)
                = 112 + len (concat blocks) + len tblock)
    by (unfold wrap16; apply Z.mod_small; lia).
  rewrite Hw1, Hw2.
  destruct (Z.ltb_spec (112 + len (concat blocks)) 112); [lia |].
  unfold filterFromIPTIP.
  rewrite (proj2 (containsUnsupportedFields_false _) Hzero).
  cbn [invalid mapErr bind]. rewrite HP. fold filter.
  replace (wrap16 (112 + len (concat blocks) - 112))
    with (len (concat blocks))
    by (unfold wrap16; rewrite Z.mod_small; lia).
  replace (wrap16 (112 + len (concat blocks) + len tblock
                   - (112 + len (concat blocks))))
    with (len tblock)
    by (unfold wrap16; rewrite Z.mod_small; lia).
  rewrite HE, <- app_assoc.
  assert (Hn : forall x : list byte, Z.to_nat (len x) = length x)
    by (intros; unfold len; apply Nat2Z.id).
  rewrite !Hn, take_app_length, !drop_app_length, take_app_length.
  rewrite !len_app. pose proof (len_nonneg rest).
  destruct (Z.ltb_spec (len (concat blocks) + (len tblock + len rest))
              (len (concat blocks))); [lia |].
  assert (Hms : parseMatchers filter (concat blocks) = Ok (Matchers rule)).
  { apply parseMatchers_Ok. exists blocks. split; [reflexivity |].
    clear -Hall Hreg. induction Hall as [| m b ms bs [Hm _] _ IH];
      constructor.
    - apply Hreg; [left | exact Hm].
    - apply IH. intros m' b' Hin. apply Hreg. right. exact Hin. }
  rewrite Hms. cbn [invalid mapErr bind].
  destruct (Z.ltb_spec (len tblock + len rest) (len tblock)); [lia |].
  rewrite Hparse. reflexivity.
Qed.

End EntryLayoutProofs.

Section HookOffsetProofs.
Context {MM : MatchMakers}.
Import linux iptables.

(** The loop over a hook map at one rule: the slots of the hooks whose
    rule is [ruleIdx] get [size], the others stay. *)
Lemma recordOffsets_list (l : list (N * Z)) ruleIdx size : forall arr arr',
  foldM (E := error)
        (fun arr '(hook, hookRuleIdx) =>
           if hookRuleIdx =? ruleIdx
           then array_set arr (Z.of_N hook) size
           else Ok arr) l arr = Ok arr' ->
  length arr' = length arr
  /\ forall hook : N,
       ((hook, ruleIdx) ∈ l -> arr' !! N.to_nat hook = Some size)
       /\ ((hook, ruleIdx) ∉ l -> arr' !! N.to_nat hook = arr !! N.to_nat hook).
Proof.
  induction l as [| [h idx] l IH]; intros arr arr' H.
  - cbn in H. injection H as <-. split; [reflexivity |].
    intros hook. split; [intros Hin; inversion Hin | reflexivity].
  - cbn [foldM] in H.
    destruct (Z.eqb_spec idx ruleIdx) as [-> | Hne].
    + unfold array_set in H.
      destruct (Z.leb_spec 0 (Z.of_N h)); [| lia].
      destruct (Z.ltb_spec (Z.of_N h) (len arr)) as [Hin |];
        cbn [andb bind] in H; [| discriminate H].
      replace (Z.to_nat (Z.of_N h)) with (N.to_nat h) in H by lia.
      apply IH in H. rewrite length_insert in H. destruct H as [Hl Hs].
      split; [exact Hl |]. intros hook. destruct (Hs hook) as [Hs1 Hs2].
      destruct (decide ((hook, ruleIdx) ∈ l)) as [Hel | Hel].
      * split; [intros _; auto |]. intros Hno. exfalso. apply Hno.
        right. exact Hel.
      * rewrite (Hs2 Hel). split.
        -- intros Hin'. apply elem_of_cons in Hin'.
           destruct Hin' as [[= ->] | Hin']; [| contradiction].
           apply list_lookup_insert_eq. unfold len in Hin. lia.
        -- intros Hno. apply list_lookup_insert_ne. intros Heq.
           apply N2Nat.inj in Heq. subst. apply Hno. left.
    + cbn [bind] in H. apply IH in H. destruct H as [Hl Hs].
      split; [exact Hl |]. intros hook. destruct (Hs hook) as [Hs1 Hs2].
      split.
      * intros Hin'. apply elem_of_cons in Hin'.
        destruct Hin' as [[= -> ->] | Hin']; [congruence | auto].
      * intros Hno. apply Hs2. intros Hel. apply Hno. right. exact Hel.
Qed.

Lemma recordOffsets_Ok (chains : gmap N Z) ruleIdx size arr arr' :
  recordOffsets chains ruleIdx size arr = Ok arr' ->
  length arr' = length arr
  /\ forall hook : N,
       arr' !! N.to_nat hook
       = if decide (chains !! hook = Some ruleIdx) then Some size
         else arr !! N.to_nat hook.
Proof.
  intros H. apply recordOffsets_list in H. destruct H as [Hl Hs].
  split; [exact Hl |]. intros hook. destruct (Hs hook) as [Hs1 Hs2].
  destruct (decide (chains !! hook = Some ruleIdx)) as [Hc | Hc].
  - apply Hs1, elem_of_map_to_list, Hc.
  - apply Hs2. rewrite elem_of_map_to_list. exact Hc.
Qed.

(** The offset [convertRule] records for the rule at [ruleIdx]. *)
Lemma convertRule_offsets table entries meta ruleIdx (rule : Rule Matcher)
  entries' meta' :
  convertRule table (entries, meta) (ruleIdx, rule) = Ok (entries', meta') ->
  length (HookEntry meta') = length (HookEntry meta)
  /\ length (Underflow meta') = length (Underflow meta)
  /\ forall hook : N,
       HookEntry meta' !! N.to_nat hook
       = (if decide (BuiltinChains table !! hook = Some ruleIdx)
          then Some (GetEntries_Size entries)
          else HookEntry meta !! N.to_nat hook)
       /\ Underflow meta' !! N.to_nat hook
          = (if decide (Underflows table !! hook = Some ruleIdx)
             then Some (GetEntries_Size entries)
             else Underflow meta !! N.to_nat hook).
Proof.
  unfold convertRule. intros H.
  destruct (recordOffsets _ _ _ (HookEntry meta)) as [he | |] eqn:E1;
    cbn [bind] in H; try discriminate H.
  destruct (recordOffsets _ _ _ (Underflow meta)) as [uf | |] eqn:E2;
    cbn [bind] in H; try discriminate H.
  destruct (foldM addMatcher _ _); cbn [bind] in H; try discriminate H.
  destruct (addTarget _ _); cbn [bind] in H; try discriminate H.
  injection H as <- <-. cbn [HookEntry Underflow].
  apply recordOffsets_Ok in E1, E2.
  destruct E1 as [Hl1 Hs1], E2 as [Hl2 Hs2]. auto.
Qed.

(** The loop over the rules, from the rule index [start]: a hook whose
    rule is among the rules the loop visits gets the size of the entries
    before that rule. *)
Lemma convertRules_offsets table (rules : list (Rule Matcher)) :
  forall start entries meta entries' meta',
  length (Entrytable entries) = start ->
  GetEntries_Size entries = wrap32 (sumNextOffset (Entrytable entries)) ->
  foldM (convertRule table)
        (zip (map Z.of_nat (seq start (length rules))) rules) (entries, meta)
  = Ok (entries', meta') ->
  length (HookEntry meta') = length (HookEntry meta)
  /\ length (Underflow meta') = length (Underflow meta)
  /\ forall hook : N,
       (forall i : nat,
          BuiltinChains table !! hook = Some (Z.of_nat i) ->
          (start <= i < start + length rules)%nat ->
          HookEntry meta' !! N.to_nat hook
          = Some (wrap32 (sumNextOffset (take i (Entrytable entries')))))
       /\ ((forall i : nat,
              BuiltinChains table !! hook = Some (Z.of_nat i) ->
              ~ (start <= i < start + length rules)%nat) ->
           HookEntry meta' !! N.to_nat hook = HookEntry meta !! N.to_nat hook)
       /\ (forall i : nat,
             Underflows table !! hook = Some (Z.of_nat i) ->
             (start <= i < start + length rules)%nat ->
             Underflow meta' !! N.to_nat hook
             = Some (wrap32 (sumNextOffset (take i (Entrytable entries')))))
       /\ ((forall i : nat,
              Underflows table !! hook = Some (Z.of_nat i) ->
              ~ (start <= i < start + length rules)%nat) ->
           Underflow meta' !! N.to_nat hook = Underflow meta !! N.to_nat hook).
Proof.
  induction rules as [| rule rules IH];
    intros start entries meta entries' meta' Hlen Hsize H.
  - cbn in H. injection H as <- <-. do 2 (split; [reflexivity |]).
    intros hook. cbn [length]. repeat split; intros; try reflexivity; lia.
  - cbn [length seq map zip zip_with foldM] in H.
    destruct (convertRule table (entries, meta) (Z.of_nat start, rule))
      as [[e1 m1] | |] eqn:E1; cbn [bind] in H; try discriminate H.
    pose proof (convertRule_Ok _ _ _ _ _ _ E1) as (entry & Ht1 & Hs1 & _ & Hn1).
    pose proof (convertRule_offsets _ _ _ _ _ _ _ E1) as (HlE & HlU & Hoff).
    assert (Hsize1 : GetEntries_Size e1
                     = wrap32 (sumNextOffset (Entrytable e1))).
    { rewrite Hs1, Ht1, Hsize, wrap32_add_l. f_equal.
      clear. induction (Entrytable entries) as [| x xs IHx]; cbn; [lia |].
      fold (sumNextOffset xs). fold (sumNextOffset (xs ++ [entry])).
      rewrite <- IHx. lia. }
    assert (Hlen1 : length (Entrytable e1) = S start)
      by (rewrite Ht1, length_app; cbn; lia).
    assert (Hr1 : 0 <= GetEntries_Size e1 < 2 ^ 32)
      by (rewrite Hsize1; apply wrap32_range).
    assert (Hr2 : 0 <= NumEntries m1 < 2 ^ 32)
      by (rewrite Hn1; apply wrap32_range).
    destruct (convertRules_Ok table _ _ _ _ _ Hr1 Hr2 H) as (new & Htab & _).
    destruct (IH (S start) e1 m1 entries' meta' Hlen1 Hsize1 H)
      as (HlE' & HlU' & Hoff').
    split; [congruence |]. split; [congruence |].
    assert (Htake : take start (Entrytable entries') = Entrytable entries).
    { rewrite Htab, Ht1, <- app_assoc, <- Hlen. apply take_app_length. }
    intros hook. destruct (Hoff hook) as [HoE HoU].
    destruct (Hoff' hook) as (HE1 & HE2 & HU1 & HU2).
    cbn [length]. repeat split.
    + intros i Hi Hr. destruct (decide (i = start)) as [-> | Hne].
      * rewrite HE2. 
        -- rewrite HoE, decide_True by exact Hi.
           rewrite Htake, Hsize. reflexivity.
        -- intros j Hj. assert (j = start) by (rewrite Hi in Hj; injection Hj; lia).
           lia.
      * apply HE1; [exact Hi | lia].
    + intros Hno. rewrite HE2.
      * rewrite HoE.
        destruct (decide (BuiltinChains table !! hook = Some (Z.of_nat start)))
          as [Hc | Hc]; [| reflexivity].
        exfalso. apply (Hno start Hc). lia.
      * intros j Hj Hr. apply (Hno j Hj). lia.
    + intros i Hi Hr. destruct (decide (i = start)) as [-> | Hne].
      * rewrite HU2.
        -- rewrite HoU, decide_True by exact Hi.
           rewrite Htake, Hsize. reflexivity.
        -- intros j Hj. assert (j = start) by (rewrite Hi in Hj; injection Hj; lia).
           lia.
      * apply HU1; [exact Hi | lia].
    + intros Hno. rewrite HU2.
      * rewrite HoU.
        destruct (decide (Underflows table !! hook = Some (Z.of_nat start)))
          as [Hc | Hc]; [| reflexivity].
        exfalso. apply (Hno start Hc). lia.
      * intros j Hj Hr. apply (Hno j Hj). lia.
Qed.

(** Property X11.  The metadata [convertNetstackToBinary] returns have
    five entry offsets and five underflow offsets; the offset of a hook
    whose chain starts (underflows) at a rule of the table is the size, in
    32 bits, of the entries before that rule; the offset of a hook without
    such a rule is 0. *)
Theorem X11_hook_offsets tablename (table : Table Matcher) entries meta :
  convertNetstackToBinary tablename table = Ok (entries, meta) ->
  length (HookEntry meta) = 5%nat /\ length (Underflow meta) = 5%nat
  /\ forall hook : N,
       (forall i : nat,
          BuiltinChains table !! hook = Some (Z.of_nat i) ->
          (i < length (Rules table))%nat ->
          HookEntry meta !! N.to_nat hook
          = Some (wrap32 (sumNextOffset (take i (Entrytable entries)))))
       /\ (forall i : nat,
             Underflows table !! hook = Some (Z.of_nat i) ->
             (i < length (Rules table))%nat ->
             Underflow meta !! N.to_nat hook
             = Some (wrap32 (sumNextOffset (take i (Entrytable entries)))))
       /\ ((hook < 5)%N ->
           (forall i : nat, BuiltinChains table !! hook = Some (Z.of_nat i) ->
              (length (Rules table) <= i)%nat) ->
           HookEntry meta !! N.to_nat hook = Some 0)
       /\ ((hook < 5)%N ->
           (forall i : nat, Underflows table !! hook = Some (Z.of_nat i) ->
              (length (Rules table) <= i)%nat) ->
           Underflow meta !! N.to_nat hook = Some 0).
Proof.
  unfold convertNetstackToBinary.
  destruct (_ <? _)%nat; [discriminate |].
  destruct (foldM _ _ _) as [[e1 m1] | |] eqn:E; cbn [bind];
    try discriminate.
  intros [= <- <-]. cbn [HookEntry Underflow].
  unfold indexed in E.
  apply convertRules_offsets in E; [| reflexivity | reflexivity].
  destruct E as (HlE & HlU & Hoff).
  cbn [metadata_zero HookEntry Underflow] in *.
  split; [exact HlE |]. split; [exact HlU |].
  intros hook. destruct (Hoff hook) as (HE1 & HE2 & HU1 & HU2).
  assert (Hz : (hook < 5)%N ->
            replicate NF_INET_NUMHOOKS 0 !! N.to_nat hook = Some 0).
  { intros Hh. apply lookup_replicate_2. unfold NF_INET_NUMHOOKS. lia. }
  repeat split.
  - intros i Hi Hr. apply HE1; [exact Hi | lia].
  - intros i Hi Hr. apply HU1; [exact Hi | lia].
  - intros Hh Hno. rewrite HE2; [apply Hz, Hh |].
    intros i Hi Hr. specialize (Hno i Hi). lia.
  - intros Hh Hno. rewrite HU2; [apply Hz, Hh |].
    intros i Hi Hr. specialize (Hno i Hi). lia.
Qed.

End HookOffsetProofs.

Section DefaultsProofs.
Context {MM : MatchMakers}.
Import linux iptables.

(** The loop of [FillDefaultIPTables] over tables of distinct names. *)
Lemma fillTable_fold (l : list (string * Table Matcher)) :
  NoDup (l.*1) ->
  forall acc res,
    foldM fillTable l acc = Ok res ->
    (forall name table, (name, table) ∈ l ->
       exists entries meta,
         convertNetstackToBinary name table = Ok (entries, meta)
         /\ res !! name = Some (SetMetadata table meta))
    /\ (forall name, name ∉ l.*1 -> res !! name = acc !! name).
Proof.
  induction l as [| [n t] l IH]; intros Hnd acc res H.
  - cbn in H. injection H as <-. split; [| reflexivity].
    intros ? ? Hin. inversion Hin.
  - cbn [fmap list_fmap fst] in Hnd. apply NoDup_cons in Hnd.
    destruct Hnd as [Hn Hnd].
    cbn [foldM] in H. unfold fillTable at 1 in H.
    destruct (convertNetstackToBinary n t) as [[e m] | |] eqn:Ec;
      cbn [bind] in H; try discriminate H.
    destruct (IH Hnd _ _ H) as [Hin Hout]. split.
    + intros name table Hel. apply elem_of_cons in Hel.
      destruct Hel as [[= -> ->] | Hel]; [| apply Hin, Hel].
      exists e, m. split; [exact Ec |].
      rewrite (Hout n Hn). apply lookup_insert_eq.
    + intros name Hno. cbn [fmap list_fmap fst] in Hno.
      apply not_elem_of_cons in Hno. destruct Hno as [Hne Hno].
      rewrite (Hout name Hno). apply lookup_insert_ne. congruence.
Qed.

Lemma fillTable_total (l : list (string * Table Matcher)) :
  (forall name table, (name, table) ∈ l ->
     exists entries meta, convertNetstackToBinary name table = Ok (entries, meta)) ->
  forall acc, exists res, foldM fillTable l acc = Ok res.
Proof.
  induction l as [| [n t] l IH]; intros Hall acc.
  - eexists. reflexivity.
  - cbn [foldM]. unfold fillTable at 1.
    destruct (Hall n t) as (e & m & ->); [left |]. cbn [bind].
    apply IH. intros name table Hin. apply Hall. right. exact Hin.
Qed.

Lemma fillTable_Ok_inv (l : list (string * Table Matcher)) : forall acc res,
  foldM fillTable l acc = Ok res ->
  forall name table, (name, table) ∈ l ->
    exists entries meta, convertNetstackToBinary name table = Ok (entries, meta).
Proof.
  induction l as [| [n t] l IH]; intros acc res H name table Hin.
  - inversion Hin.
  - cbn [foldM] in H. unfold fillTable at 1 in H.
    destruct (convertNetstackToBinary n t) as [[e m] | |] eqn:Ec;
      cbn [bind] in H; try discriminate H.
    apply elem_of_cons in Hin. destruct Hin as [[= -> ->] | Hin]; eauto.
Qed.

Lemma FillDefaultIPTables_Some defaults (stk stk' : stack.Stack Matcher) :
  FillDefaultIPTables defaults stk = Some stk' ->
  forall name,
    match Tables defaults !! name with
    | Some table =>
        exists entries meta,
          convertNetstackToBinary name table = Ok (entries, meta)
          /\ Tables (stack.IPTables stk') !! name
             = Some (SetMetadata table meta)
    | None => Tables (stack.IPTables stk') !! name = None
    end.
Proof.
  unfold FillDefaultIPTables.
  destruct (foldM _ _ _) as [res | |] eqn:E; try discriminate.
  intros [= <-] name.
  cbn [stack.IPTables stack.SetIPTables stack.tables Tables].
  destruct (fillTable_fold _ (NoDup_fst_map_to_list (Tables defaults)) _ _ E)
    as [Hin Hout].
  destruct (Tables defaults !! name) as [table |] eqn:El.
  - apply Hin, elem_of_map_to_list, El.
  - rewrite Hout, El; [reflexivity |].
    intros Hel. apply list_elem_of_fmap in Hel.
    destruct Hel as ([n t] & -> & Hel). apply elem_of_map_to_list in Hel.
    cbn [fst] in El. congruence.
Qed.

(** Property X12.  [FillDefaultIPTables] returns exactly when every
    default table encodes; the stack it leaves holds the default tables
    and no other, each with the metadata of its own encoding. *)
Theorem X12_fill_defaults defaults (stk : stack.Stack Matcher) :
  (is_Some (FillDefaultIPTables defaults stk) <->
   forall name table, Tables defaults !! name = Some table ->
     exists entries meta,
       convertNetstackToBinary name table = Ok (entries, meta))
  /\ forall stk',
       FillDefaultIPTables defaults stk = Some stk' ->
       forall name,
         match Tables defaults !! name with
         | Some table =>
             exists entries meta,
               convertNetstackToBinary name table = Ok (entries, meta)
               /\ Tables (stack.IPTables stk') !! name
                  = Some (SetMetadata table meta)
         | None => Tables (stack.IPTables stk') !! name = None
         end.
Proof.
  split; [| intros stk'; apply FillDefaultIPTables_Some].
  unfold FillDefaultIPTables. split.
  - intros [stk' H] name table Hl.
    destruct (foldM _ _ _) as [res | |] eqn:E; try discriminate.
    eapply fillTable_Ok_inv; [exact E |]. apply elem_of_map_to_list, Hl.
  - intros Hall.
    destruct (fillTable_total (map_to_list (Tables defaults))) with
      (acc := Tables defaults) as [res ->]; [| eauto].
    intros name table Hin. apply Hall, elem_of_map_to_list, Hin.
Qed.


End DefaultsProofs.

Section ComposeProofs.
Context {MM : MatchMakers}.
Import linux iptables.

(** Property X14.  [parseMatchers] on two regions one after the other
    returns the matchers of the first followed by those of the second. *)
Theorem X14_parseMatchers_concat filter region1 region2 ms1 ms2 :
  parseMatchers filter region1 = Ok ms1 ->
  parseMatchers filter region2 = Ok ms2 ->
  parseMatchers filter (region1 ++ region2) = Ok (ms1 ++ ms2).
Proof.
  rewrite !parseMatchers_Ok.
  intros (b1 & -> & H1) (b2 & -> & H2).
  exists (b1 ++ b2). split; [symmetry; apply concat_app |].
  apply Forall2_app; assumption.
Qed.

(** Property X15.  A successful [SetEntries] replaces the filter table
    as a whole: after two accepted blobs the stack is the one the second
    blob alone leaves, and setting the second blob again changes
    nothing. *)
Theorem X15_replace_overwrites (stk stk1 stk2 : stack.Stack Matcher) optVal1 optVal2 :
  SetEntries stk optVal1 = (stk1, Ok tt) ->
  SetEntries stk1 optVal2 = (stk2, Ok tt) ->
  SetEntries stk optVal2 = (stk2, Ok tt)
  /\ SetEntries stk2 optVal2 = (stk2, Ok tt).
Proof.
  intros H1 H2. apply SetEntries_Ok in H1, H2.
  destruct H1 as (r1 & t1 & Hd1 & ->). destruct H2 as (r2 & t2 & Hd2 & ->).
  assert (Hn : forall o r t, decodeTable o = Ok (r, t) ->
            name_String (Replace_Name r) = TablenameFilter).
  { intros o r t Hd. apply decodeTable_Ok in Hd.
    destruct Hd as (t0 & os & Hp & _). apply parseReplace_Ok in Hp.
    tauto. }
  rewrite (Hn _ _ _ Hd1), (Hn _ _ _ Hd2).
  split; apply SetEntries_Ok; exists r2, t2; (split; [exact Hd2 |]);
    rewrite (Hn _ _ _ Hd2);
    cbn [stack.IPTables stack.SetIPTables stack.tables Tables];
    rewrite ?insert_insert_eq; reflexivity.
Qed.

End ComposeProofs.

(** ** The further properties at concrete inputs *)

Section FurtherInstances.
Import linux iptables.

Lemma X1_target_round_trip_witness :
  marshalTarget ErrorTarget = Some marshalErrorTarget
  /\ parseTarget marshalErrorTarget = Ok ErrorTarget.
Proof.
  assert (H : marshalTarget ErrorTarget = Some marshalErrorTarget)
    by reflexivity.
  split; [exact H |].
  exact (proj1 (X1_target_round_trip ErrorTarget marshalErrorTarget H)).
Defined.

Lemma X2_verdict_wire_injective_witness :
  translateFromStandardVerdict Queue = Some (-4)
  /\ Queue = Queue /\ - 2 ^ 31 <= -4 < 0.
Proof.
  assert (H : translateFromStandardVerdict Queue = Some (-4)) by reflexivity.
  split; [exact H |].
  exact (X2_verdict_wire_injective Queue Queue (-4) H H).
Defined.

Lemma X3_unsupported_fields_rejected_witness :
  0 < Replace_NumEntries (replaceHeaderOf flaggedBlob)
  /\ ~ onlyProtocol (IP (entryHeaderOf (drop 96 flaggedBlob)))
  /\ SetEntries acceptStack flaggedBlob = (acceptStack, Err ErrInvalidArgument).
Proof.
  assert (H1 : 0 < Replace_NumEntries (replaceHeaderOf flaggedBlob))
    by (vm_compute; reflexivity).
  assert (H2 : ~ onlyProtocol (IP (entryHeaderOf (drop 96 flaggedBlob))))
    by (intros (_ & _ & _ & _ & _ & _ & _ & _ & Hf & _);
        vm_compute in Hf; discriminate Hf).
  split; [exact H1 |]. split; [exact H2 |].
  exact (proj2 (X3_unsupported_fields_rejected acceptStack flaggedBlob H1 H2)).
Defined.

Lemma X4_header_rejected_witness :
  len (take 50 (acceptBlob 152)) < SizeOfIPTReplace
  /\ SetEntries acceptStack (take 50 (acceptBlob 152))
     = (acceptStack, Err ErrInvalidArgument).
Proof.
  assert (H : len (take 50 (acceptBlob 152)) < SizeOfIPTReplace)
    by (vm_compute; reflexivity).
  split; [exact H |].
  exact (X4_header_rejected acceptStack _ (or_introl H)).
Defined.

Lemma X5_truncation_rejected_witness :
  SetEntries emptyStack (acceptBlob 152) = (acceptStack, Ok tt)
  /\ exists c : nat,
       (96 + 152 * Z.to_nat (Replace_NumEntries
                               (replaceHeaderOf (acceptBlob 152))) <= c
        <= length (acceptBlob 152))%nat
       /\ forall k,
            ((k < c)%nat ->
             SetEntries (MM := noMatchers) emptyStack
                        (take k (acceptBlob 152))
             = (emptyStack, Err ErrInvalidArgument))
            /\ ((c <= k)%nat ->
                SetEntries emptyStack (take k (acceptBlob 152))
                = (acceptStack, Ok tt)).
Proof.
  assert (H : SetEntries emptyStack (acceptBlob 152) = (acceptStack, Ok tt))
    by (vm_compute; reflexivity).
  split; [exact H |].
  exact (X5_truncation_rejected emptyStack acceptStack (acceptBlob 152) H).
Defined.

Lemma X6_accepted_table_witness :
  SetEntries emptyStack (acceptBlob 152) = (acceptStack, Ok tt)
  /\ 1 <= Replace_NumEntries (replaceHeaderOf (acceptBlob 152)).
Proof.
  assert (H : SetEntries emptyStack (acceptBlob 152) = (acceptStack, Ok tt))
    by (vm_compute; reflexivity).
  split; [exact H |].
  exact (proj1 (proj2 (X6_accepted_table emptyStack acceptStack
                         (acceptBlob 152) H))).
Defined.

Lemma X7_GetInfo_after_SetEntries_witness :
  SetEntries emptyStack (acceptBlob 152) = (acceptStack, Ok tt)
  /\ name_String (Getinfo_Name filterInfo) = TablenameFilter
  /\ GetInfo acceptStack filterInfo
     = Ok {| Getinfo_Name := Getinfo_Name filterInfo;
             Getinfo_ValidHooks := 14;
             Getinfo_HookEntry :=
               Replace_HookEntry (replaceHeaderOf (acceptBlob 152));
             Getinfo_Underflow :=
               Replace_Underflow (replaceHeaderOf (acceptBlob 152));
             Getinfo_NumEntries :=
               Replace_NumEntries (replaceHeaderOf (acceptBlob 152));
             Getinfo_Size :=
               Replace_Size (replaceHeaderOf (acceptBlob 152)) |}.
Proof.
  assert (H : SetEntries emptyStack (acceptBlob 152) = (acceptStack, Ok tt))
    by (vm_compute; reflexivity).
  assert (Hn : name_String (Getinfo_Name filterInfo) = TablenameFilter)
    by (vm_compute; reflexivity).
  split; [exact H |]. split; [exact Hn |].
  exact (proj1 (X7_GetInfo_after_SetEntries emptyStack acceptStack
                  (acceptBlob 152) filterInfo H) Hn).
Defined.


Lemma X9_entry_layout_witness :
  convertRule rawTable (filterEntries 0 [], metadata_zero) (0, rawRule)
  = Ok (filterEntries 192 [rawEntry], oneEntryMetadata 0)
  /\ exists entry blocks tblock,
       Entrytable (filterEntries 192 [rawEntry])
       = Entrytable (filterEntries 0 []) ++ [entry]
       /\ Forall2 (fun m b => marshalMatcher (MatchMakers := rawMatchers) m
                              = Some b /\ len b mod 8 = 0)
                  (Matchers rawRule) blocks
       /\ marshalTarget (Rule_Target rawRule) = Some tblock
       /\ Elems entry = concat blocks ++ tblock
       /\ TargetOffset (Entry entry) = wrap16 (112 + len (concat blocks))
       /\ NextOffset (Entry entry)
          = wrap16 (112 + len (concat blocks) + len tblock)
       /\ len (Elems entry) mod 8 = 0
       /\ (112 + len (Elems entry) < 2 ^ 16 ->
           NextOffset (Entry entry) = 112 + len (Elems entry)
           /\ TargetOffset (Entry entry)
              = NextOffset (Entry entry) - len tblock).
Proof.
  assert (H : convertRule rawTable (filterEntries 0 [], metadata_zero)
                (0, rawRule)
              = Ok (filterEntries 192 [rawEntry], oneEntryMetadata 0))
    by (vm_compute; reflexivity).
  split; [exact H |].
  exact (X9_entry_layout (MM := rawMatchers) _ _ _ _ _ _ _ H).
Defined.

Lemma rawRule_round_trips :
  forall m b, m ∈ Matchers rawRule ->
    marshalMatcher (MatchMakers := rawMatchers) m = Some b ->
    matcherBlock (MM := rawMatchers)
      {| Filter_Protocol := wrap16 (Filter_Protocol (Filter rawRule)) |} b m.
Proof.
  intros m b Hin Hm. apply list_elem_of_singleton in Hin. subst m.
  injection Hm as <-. unfold matcherBlock.
  split; [vm_compute; discriminate |].
  split; vm_compute; reflexivity.
Defined.

Lemma X10_entry_round_trip_witness :
  convertRule rawTable (filterEntries 0 [], metadata_zero) (0, rawRule)
  = Ok (filterEntries 192 [rawEntry], oneEntryMetadata 0)
  /\ exists entry,
       Entrytable (filterEntries 192 [rawEntry])
       = Entrytable (filterEntries 0 []) ++ [entry]
       /\ (112 + len (Elems entry) < 2 ^ 16 ->
           forall buf rest,
             entryHeaderOf buf = Entry entry ->
             drop 112 buf = Elems entry ++ rest ->
             parseEntry (MM := rawMatchers) buf
             = Ok ({| Filter :=
                        {| Filter_Protocol :=
                             wrap16 (Filter_Protocol (Filter rawRule)) |};
                      Matchers := Matchers rawRule;
                      Rule_Target := Rule_Target rawRule |},
                   NextOffset (Entry entry), rest)).
Proof.
  assert (H : convertRule rawTable (filterEntries 0 [], metadata_zero)
                (0, rawRule)
              = Ok (filterEntries 192 [rawEntry], oneEntryMetadata 0))
    by (vm_compute; reflexivity).
  split; [exact H |].
  exact (X10_entry_round_trip (MM := rawMatchers) _ _ _ _ _ _ _ H
           rawRule_round_trips).
Defined.

Lemma X11_hook_offsets_witness :
  convertNetstackToBinary "filter" acceptTable
  = Ok (filterEntries 152 [acceptEntry], oneEntryMetadata 152)
  /\ length (HookEntry (oneEntryMetadata 152)) = 5%nat.
Proof.
  assert (H : convertNetstackToBinary "filter" acceptTable
              = Ok (filterEntries 152 [acceptEntry], oneEntryMetadata 152))
    by (vm_compute; reflexivity).
  split; [exact H |].
  exact (proj1 (X11_hook_offsets "filter" acceptTable _ _ H)).
Defined.

Lemma X12_fill_defaults_witness :
  FillDefaultIPTables defaultTables emptyStack = Some defaultStack
  /\ match Tables defaultTables !! "filter"%string with
     | Some table =>
         exists entries meta,
           convertNetstackToBinary "filter" table = Ok (entries, meta)
           /\ Tables (stack.IPTables defaultStack) !! "filter"%string
              = Some (SetMetadata table meta)
     | None => Tables (stack.IPTables defaultStack) !! "filter"%string = None
     end.
Proof.
  assert (H : FillDefaultIPTables defaultTables emptyStack = Some defaultStack)
    by (vm_compute; reflexivity).
  split; [exact H |].
  exact (proj2 (X12_fill_defaults defaultTables emptyStack) defaultStack H
           "filter"%string).
Defined.


Lemma X14_parseMatchers_concat_witness :
  parseMatchers (MM := rawMatchers) {| Filter_Protocol := 17 |}
                (rawBlock rawPayload) = Ok [rawPayload]
  /\ parseMatchers (MM := rawMatchers) {| Filter_Protocol := 17 |}
                   (rawBlock []) = Ok [[]]
  /\ parseMatchers (MM := rawMatchers) {| Filter_Protocol := 17 |}
                   (rawBlock rawPayload ++ rawBlock [])
     = Ok ([rawPayload] ++ [[]]).
Proof.
  assert (H1 : parseMatchers (MM := rawMatchers) {| Filter_Protocol := 17 |}
                 (rawBlock rawPayload) = Ok [rawPayload])
    by (vm_compute; reflexivity).
  assert (H2 : parseMatchers (MM := rawMatchers) {| Filter_Protocol := 17 |}
                 (rawBlock []) = Ok [[]])
    by (vm_compute; reflexivity).
  split; [exact H1 |]. split; [exact H2 |].
  exact (X14_parseMatchers_concat (MM := rawMatchers) _ _ _ _ _ H1 H2).
Defined.

Lemma X15_replace_overwrites_witness :
  SetEntries emptyStack (acceptBlob 1) = (wrongSizeStack, Ok tt)
  /\ SetEntries wrongSizeStack (acceptBlob 152) = (acceptStack, Ok tt)
  /\ SetEntries emptyStack (acceptBlob 152) = (acceptStack, Ok tt).
Proof.
  assert (H1 : SetEntries emptyStack (acceptBlob 1) = (wrongSizeStack, Ok tt))
    by (vm_compute; reflexivity).
  assert (H2 : SetEntries wrongSizeStack (acceptBlob 152)
               = (acceptStack, Ok tt))
    by (vm_compute; reflexivity).
  split; [exact H1 |]. split; [exact H2 |].
  exact (proj1 (X15_replace_overwrites emptyStack wrongSizeStack acceptStack
                  _ _ H1 H2)).
Defined.

End FurtherInstances.
